(** * MAI_DB_2sem: the index benchmark, the CSV ingestion and the
      transaction-anomaly demonstrations, embedded in Rocq.

    Source files:
    - [src/1.1.py]  index benchmark ([execute_query], [run_index_test],
      [db_connection] and the script);
    - [src/main.py] CSV ingestion ([read_combine_from_zips], the list of
      columns of [analyze_dataframe]);
    - [src/1.2.py]  transactions and anomaly scenarios.

    Python code that talks to the outside (the database driver, clocks,
    threads) is embedded as a program tree: a node is one call to the
    outside, its children are indexed by what the call answers.  Python
    exceptions are a second kind of leaf, so [try]/[except]/[finally] and
    [with] are ordinary functions on trees. *)

From Stdlib Require Import ZArith List String Bool Lia DecimalString.
From stdpp Require Import gmap strings.
Import ListNotations.
Open Scope string_scope.
Open Scope list_scope.

Set Implicit Arguments.
Set Default Proof Using "Type*".

(* ================================================================== *)
(** * Python exceptions *)
(* ================================================================== *)

(** Subclasses of [psycopg2.Error] the scripts can meet.  The scripts only
    ever test for [psycopg2.Error] as a whole and for
    [psycopg2.errors.SerializationFailure]. *)
Inductive pgerror : Type :=
| SerializationFailure
| InFailedSqlTransaction
| OperationalError
| ProgrammingError
| IntegrityError.

Inductive exn : Type :=
| PgError (k : pgerror)      (* psycopg2.Error and subclasses *)
| TypeError                  (* None[0], None + 10000, format of None *)
| ValueError                 (* float("...") *)
| IndexError
| ZeroDivisionError
| BrokenBarrierError.        (* threading.Barrier.wait(timeout) expiring *)

Definition pgerror_eqb (a b : pgerror) : bool :=
  match a, b with
  | SerializationFailure, SerializationFailure
  | InFailedSqlTransaction, InFailedSqlTransaction
  | OperationalError, OperationalError
  | ProgrammingError, ProgrammingError
  | IntegrityError, IntegrityError => true
  | _, _ => false
  end.

(** [isinstance(e, psycopg2.Error)] *)
Definition is_psycopg2_error (e : exn) : bool :=
  match e with PgError _ => true | _ => false end.

(** [isinstance(e, pg_errors.SerializationFailure)] *)
Definition is_serialization_failure (e : exn) : bool :=
  match e with PgError SerializationFailure => true | _ => false end.

(* ================================================================== *)
(** * Program trees *)
(* ================================================================== *)

(** What running a piece of Python ends in. *)
Inductive outcome (A : Type) : Type :=
| Returned (a : A)
| Raised (e : exn).
Arguments Raised {A} e.

Section Prog.
Variable E : Type -> Type.

Inductive prog (A : Type) : Type :=
| Ret (a : A)
| Raise (e : exn)
| Vis (R : Type) (o : E R) (k : R -> prog A).
Arguments Raise {A} e.

Fixpoint bind {A B} (p : prog A) (f : A -> prog B) : prog B :=
  match p with
  | Ret a => f a
  | Raise e => Raise e
  | Vis o k => Vis o (fun r => bind (k r) f)
  end.

(** One call to the outside, answered by [r]. *)
Definition call {R} (o : E R) : prog R := Vis o (fun r => Ret r).

(** [try: p  except <classes h answers to>: h e].  [h e = None] means no
    [except] clause matches and the exception goes on. *)
Fixpoint try_except {A} (p : prog A) (h : exn -> option (prog A)) : prog A :=
  match p with
  | Ret a => Ret a
  | Raise e => match h e with Some q => q | None => Raise e end
  | Vis o k => Vis o (fun r => try_except (k r) h)
  end.

(** [try: p  finally: fin].  The [finally] block runs on both exits; a
    [return] or an exception of [p] is kept unless [fin] itself raises. *)
Fixpoint try_finally {A} (p : prog A) (fin : prog unit) : prog A :=
  match p with
  | Ret a => bind fin (fun _ => Ret a)
  | Raise e => bind fin (fun _ => Raise e)
  | Vis o k => Vis o (fun r => try_finally (k r) fin)
  end.

(** ** Runs against a scripted outside

    [ev] says how a call and its answer are written down.  [runs_to p tr res]:
    some way of answering the calls of [p] produces the record [tr] and ends
    in [res].  Nothing is assumed about the answers. *)
Variable event : Type.
Variable ev : forall R, E R -> R -> event.

Fixpoint runs_to {A} (p : prog A) (tr : list event) (res : outcome A) : Prop :=
  match p with
  | Ret a => tr = [] /\ res = Returned a
  | Raise e => tr = [] /\ res = Raised e
  | Vis o k => exists r tr', tr = ev o r :: tr' /\ runs_to (k r) tr' res
  end.

(** ** Runs against a state machine

    [h] answers every call and moves the outside's state. *)
Variable S : Type.
Variable h : forall R, E R -> S -> R * S.

Fixpoint interp {A} (p : prog A) (s : S) : outcome A * S :=
  match p with
  | Ret a => (Returned a, s)
  | Raise e => (Raised e, s)
  | Vis o k => let '(r, s') := h o s in interp (k r) s'
  end.

End Prog.

Arguments Ret {E A} a.
Arguments Raise {E A} e.
Arguments Vis {E A R} o k.
Arguments bind {E A B} p f.
Arguments call {E R} o.
Arguments try_except {E A} p h.
Arguments try_finally {E A} p fin.
Arguments runs_to {E event} ev {A} p tr res.
Arguments interp {E S} h {A} p s.

Declare Scope prog_scope.
Delimit Scope prog_scope with prog.
Notation "x <- p ;; q" := (bind p (fun x => q))
  (at level 100, p at next level, right associativity) : prog_scope.
Notation "p ;; q" := (bind p (fun _ => q))
  (at level 100, right associativity) : prog_scope.

(** ** How a run of a compound program splits *)

Section ProgFacts.
Context {E : Type -> Type} {event : Type} (ev : forall R, E R -> R -> event).

Lemma runs_to_bind A B (p : prog E A) (f : A -> prog E B) tr res :
  runs_to ev (bind p f) tr res ->
  (exists a tr1 tr2, tr = tr1 ++ tr2 /\ runs_to ev p tr1 (Returned a)
                     /\ runs_to ev (f a) tr2 res)
  \/ (exists e, runs_to ev p tr (Raised e) /\ res = Raised e).
Proof.
  revert tr. induction p as [a|e|R o k IH]; simpl; intros tr H.
  - left. exists a, [], tr. auto.
  - right. exists e. destruct H as [-> ->]. auto.
  - destruct H as (r & tr' & -> & H). apply IH in H.
    destruct H as [(a & tr1 & tr2 & -> & H1 & H2)|(e & H1 & ->)].
    + left. exists a, (ev o r :: tr1), tr2. split; [reflexivity|]. split; eauto.
    + right. exists e. split; eauto.
Qed.

Lemma runs_to_try_except A (p : prog E A) (h : exn -> option (prog E A)) tr res :
  runs_to ev (try_except p h) tr res ->
  (exists a, runs_to ev p tr (Returned a) /\ res = Returned a)
  \/ (exists e tr1, runs_to ev p tr1 (Raised e) /\
        match h e with
        | Some q => exists tr2, tr = tr1 ++ tr2 /\ runs_to ev q tr2 res
        | None => tr = tr1 /\ res = Raised e
        end).
Proof.
  revert tr. induction p as [a|e|R o k IH]; simpl; intros tr H.
  - left. exists a. destruct H as [-> ->]. auto.
  - right. exists e, []. split; [auto|].
    destruct (h e) as [q|]; [exists tr; auto|destruct H as [-> ->]; auto].
  - destruct H as (r & tr' & -> & H). apply IH in H.
    destruct H as [(a & H1 & ->)|(e & tr1 & H1 & H2)].
    + left. exists a. split; eauto.
    + right. exists e, (ev o r :: tr1). split; [eauto|].
      destruct (h e) as [q|].
      * destruct H2 as (tr2 & -> & H2). exists tr2. auto.
      * destruct H2 as [-> ->]. auto.
Qed.

Lemma runs_to_try_finally A (p : prog E A) (fin : prog E unit) tr res :
  runs_to ev (try_finally p fin) tr res ->
  exists tr1 r1 tr2 r2,
    tr = tr1 ++ tr2 /\ runs_to ev p tr1 r1 /\ runs_to ev fin tr2 r2 /\
    res = match r2 with Returned _ => r1 | Raised e => Raised e end.
Proof.
  revert tr. induction p as [a|e|R o k IH]; simpl; intros tr H.
  - apply runs_to_bind in H.
    destruct H as [(u & tr1 & tr2 & -> & H1 & [-> ->])|(e & H1 & ->)].
    + exists [], (Returned a), tr1, (Returned u).
      rewrite app_nil_r. auto.
    + exists [], (Returned a), tr, (Raised e). auto.
  - apply runs_to_bind in H.
    destruct H as [(u & tr1 & tr2 & -> & H1 & [-> ->])|(e' & H1 & ->)].
    + exists [], (Raised e), tr1, (Returned u).
      rewrite app_nil_r. auto.
    + exists [], (Raised e), tr, (Raised e'). auto.
  - destruct H as (r & tr' & -> & H). apply IH in H.
    destruct H as (tr1 & r1 & tr2 & r2 & -> & H1 & H2 & ->).
    exists (ev o r :: tr1), r1, tr2, r2. split; [reflexivity|].
    split; [exists r, tr1; auto|auto].
Qed.

End ProgFacts.

(** Handlers for the two [except] clauses the scripts use. *)
Definition except_psycopg2 {E A} (q : exn -> prog E A) : exn -> option (prog E A) :=
  fun e => if is_psycopg2_error e then Some (q e) else None.

Definition except_Exception {E A} (q : exn -> prog E A) : exn -> option (prog E A) :=
  fun e => Some (q e).

(* ================================================================== *)
(** * [src/1.1.py]: the index benchmark *)
(* ================================================================== *)

Module IndexBench.

Definition conn := nat.
Definition cursor := nat.

Section ExecuteQuery.

(** [time.time()] answers a float.  The benchmark only subtracts two of them
    and scales the difference; the float type and these two library
    functions stay parameters:
    - [ms_between start end_] is [(end_ - start) * 1000];
    - [search_execution_time s] is group 1 of
      [re.search(r"Execution Time: ([\d\.]+) ms", s)];
    - [float_of_string g] is [float(g)], [None] where Python raises
      [ValueError] (the pattern also matches ["1.2.3"]). *)
Variable time : Type.
Variable ms_between : time -> time -> time.
Variable search_execution_time : string -> option string.
Variable float_of_string : string -> option time.

(** The calls [execute_query] makes. *)
Inductive benchE : Type -> Type :=
| Cursor (c : conn) : benchE cursor                      (* conn.cursor() *)
| Now : benchE time                                      (* time.time() *)
| CurExecute (cur : cursor) (q : string) : benchE (option pgerror)
                                                         (* cur.execute(q); None: no error *)
| Fetchall (cur : cursor) : benchE (pgerror + list (list string))
                                                         (* cur.fetchall() *)
| ConnRollback (c : conn) : benchE (option pgerror)      (* conn.rollback(); None: no error *)
| CurClose (cur : cursor) : benchE unit.                 (* cur.close() *)

Inductive bench_event : Type :=
| EvCursor (c : conn) (cur : cursor)
| EvNow (t : time)
| EvExecute (cur : cursor) (q : string) (r : option pgerror)
| EvFetchall (cur : cursor) (r : pgerror + list (list string))
| EvRollback (c : conn)                           (* conn.rollback() returned *)
| EvRollbackRaised (c : conn) (e : pgerror)       (* conn.rollback() raised *)
| EvCurClose (cur : cursor).

Definition bench_ev R (o : benchE R) : R -> bench_event :=
  match o in benchE R return R -> bench_event with
  | Cursor c => fun cur => EvCursor c cur
  | Now => fun t => EvNow t
  | CurExecute cur q => fun r => EvExecute cur q r
  | Fetchall cur => fun r => EvFetchall cur r
  | ConnRollback c => fun r =>
      match r with None => EvRollback c | Some e => EvRollbackRaised c e end
  | CurClose cur => fun _ => EvCurClose cur
  end.

Local Open Scope prog_scope.

Definition cur_execute (cur : cursor) (q : string) : prog benchE unit :=
  r <- call (CurExecute cur q) ;;
  match r with Some e => Raise (PgError e) | None => Ret tt end.

(** [conn.rollback()]: it talks to the server, and raises when the
    connection is lost. *)
Definition conn_rollback (c : conn) : prog benchE unit :=
  r <- call (ConnRollback c) ;;
  match r with Some e => Raise (PgError e) | None => Ret tt end.

Definition cur_fetchall (cur : cursor) : prog benchE (list (list string)) :=
  r <- call (Fetchall cur) ;;
  match r with inl e => Raise (PgError e) | inr rows => Ret rows end.

(** [[row[0] for row in result]] *)
Fixpoint first_columns (result : list (list string)) : prog benchE (list string) :=
  match result with
  | [] => Ret []
  | row :: rest =>
      match row with
      | [] => Raise IndexError
      | c :: _ => cs <- first_columns rest ;; Ret (c :: cs)
      end
  end.

Definition newline : string := String (Ascii.ascii_of_nat 10) EmptyString.

(** [execute_query(conn, sql, analyze=False)], lines 79-106.  The [print]
    calls are left out: they answer nothing and raise nothing. *)
Definition execute_query (conn : conn) (sql : string) (analyze : bool)
  : prog benchE (option time * option string) :=
  cur <- call (Cursor conn) ;;
  let query_to_run := if analyze then "EXPLAIN ANALYZE " +:+ sql else sql in
  start_time <- call Now ;;
  try_finally
    (try_except
       (cur_execute cur query_to_run ;;
        result <- (if analyze then cur_fetchall cur else Ret []) ;;
        end_time <- call Now ;;
        let execution_time_ms := ms_between start_time end_time in
        if analyze then
          cols <- first_columns result ;;
          let explain_output := String.concat newline cols in
          match search_execution_time explain_output with
          | Some g =>
              match float_of_string g with
              | Some t => Ret (Some t, Some explain_output)
              | None => Raise ValueError
              end
          | None => Ret (Some execution_time_ms, Some explain_output)
          end
        else Ret (Some execution_time_ms, None))
       (except_psycopg2 (fun _ =>
          conn_rollback conn ;;
          Ret (None, None))))
    (call (CurClose cur)).

(** [execute_query] makes its calls on an unnamed cursor: [conn.cursor()]
    and [cur.close()] make no round trip to the server and are taken not to
    raise. *)

(** What a record of a run shows. *)
Definition is_store_error (e : bench_event) : bool :=
  match e with
  | EvExecute _ _ (Some _) => true
  | EvFetchall _ (inl _) => true
  | _ => false
  end.

Definition store_error (tr : list bench_event) : bool := existsb is_store_error tr.

(** [conn.rollback()] was called, whether it returned or raised. *)
Definition is_rollback_of (c : conn) (e : bench_event) : bool :=
  match e with
  | EvRollback c' | EvRollbackRaised c' _ => Nat.eqb c c'
  | _ => false
  end.

(** The error [conn.rollback()] raised, if it did. *)
Definition rollback_error (tr : list bench_event) : option pgerror :=
  head (omap (fun e => match e with EvRollbackRaised _ k => Some k | _ => None end) tr).

Definition is_cursor_close (e : bench_event) : bool :=
  match e with EvCurClose _ => true | _ => false end.

(** The run opened a cursor and its last call closed that cursor. *)
Definition opened_cursor_closed_last (tr : list bench_event) : Prop :=
  match tr with
  | EvCursor c cur :: rest => last rest = Some (EvCurClose cur)
  | _ => False
  end.

Lemma runs_to_first_columns (result : list (list string)) tr res :
  runs_to bench_ev (first_columns result) tr res ->
  tr = [] /\ ((exists cols, res = Returned cols) \/ res = Raised IndexError).
Proof.
  revert tr res. induction result as [|row rest IH]; intros tr res H; simpl in H.
  - destruct H as [-> ->]. eauto.
  - destruct row as [|c row']; simpl in H.
    + destruct H as [-> ->]. auto.
    + apply runs_to_bind in H.
      destruct H as [(a & tr1 & tr2 & -> & H1 & [-> ->])|(e & H1 & ->)].
      * apply IH in H1. destruct H1 as [-> _]. eauto.
      * apply IH in H1. destruct H1 as [-> [[cols H]|H]]; [discriminate|].
        injection H as ->. auto.
Qed.

(** C10, as amended.  Whatever the driver answers, a run of [execute_query]
    opens a cursor and ends by closing it.  If [cur.execute] or
    [cur.fetchall] raised a [psycopg2.Error], [conn.rollback()] was called;
    when the rollback returned, the function returned [(None, None)]; when
    the rollback itself raised, that error left the function, which is
    therefore not total over store errors.  If nothing raised and [analyze]
    is false, it returned [(t, None)] with [t] not [None].  Among the runs
    that return, the first component is [None] exactly when [cur.execute] or
    [cur.fetchall] raised. *)
Theorem execute_query_on_store_errors (conn : conn) (sql : string) (analyze : bool)
  (tr : list bench_event) (res : outcome (option time * option string)) :
  runs_to bench_ev (execute_query conn sql analyze) tr res ->
  opened_cursor_closed_last tr /\
  (store_error tr = true ->
     existsb (is_rollback_of conn) tr = true
     /\ match rollback_error tr with
        | None => res = Returned (None, None)
        | Some e => res = Raised (PgError e)
        end) /\
  (store_error tr = false -> rollback_error tr = None) /\
  (store_error tr = false -> analyze = false ->
     exists t, res = Returned (Some t, None)) /\
  (forall a b, res = Returned (a, b) -> (a = None <-> store_error tr = true)).
Proof.
  intros H. unfold execute_query in H. simpl in H.
  destruct H as (cur & tr0 & -> & start & tr1 & -> & r & tr2 & -> & H).
  destruct r as [e|]; simpl in H.
  - (* cur.execute raises *)
    destruct H as (rb & tr3 & -> & H). destruct rb as [e'|]; simpl in H;
      destruct H as (u2 & tr4 & -> & -> & ->);
      unfold store_error, rollback_error; simpl; rewrite Nat.eqb_refl;
      repeat split; intros; try discriminate; try congruence.
  - destruct analyze; simpl in H.
    + destruct H as (r & tr3 & -> & H).
      destruct r as [e|rows]; simpl in H.
      * (* cur.fetchall raises *)
        destruct H as (rb & tr4 & -> & H). destruct rb as [e'|]; simpl in H;
          destruct H as (u2 & tr5 & -> & -> & ->);
          unfold store_error, rollback_error; simpl; rewrite Nat.eqb_refl;
          repeat split; intros; try discriminate; try congruence.
      * destruct H as (t2 & tr4 & -> & H).
        apply runs_to_try_finally in H.
        destruct H as (tr5 & r1 & tr6 & r2 & -> & H1 & H2 & ->).
        simpl in H2. destruct H2 as (u & tr7 & -> & -> & ->).
        apply runs_to_try_except in H1.
        assert (Hb : tr5 = [] /\ ((exists t s, r1 = Returned (Some t, Some s))
                     \/ r1 = Raised ValueError \/ r1 = Raised IndexError)).
        { destruct H1 as [(a & H1 & ->)|(e & tr8 & H1 & H3)];
            apply runs_to_bind in H1;
            destruct H1 as [(cols & ta & tb & -> & Ha & Hb)|(e' & Ha & He)];
            apply runs_to_first_columns in Ha; destruct Ha as [-> Ha].
          - simpl in Hb.
            destruct (search_execution_time _) as [g|];
              [destruct (float_of_string g)|]; destruct Hb as [-> Hb];
              try discriminate; injection Hb as Hb; subst; eauto.
          - discriminate.
          - simpl in Hb.
            destruct (search_execution_time _) as [g|];
              [destruct (float_of_string g)|]; destruct Hb as [-> Hb];
              try discriminate. injection Hb as Hb; subst. simpl in H3.
            destruct H3 as [-> ->]. auto.
          - destruct Ha as [[cols Ha]|Ha]; [discriminate|].
            injection He as He. injection Ha as Ha. subst. simpl in H3.
            destruct H3 as [-> ->]. auto. }
        destruct Hb as [-> Hb]. unfold store_error, rollback_error; simpl.
        repeat split; intros; try discriminate;
          destruct Hb as [(t & s & ->)|[->| ->]]; congruence.
    + (* analyze = False *)
      destruct H as (t2 & tr3 & -> & u & tr4 & -> & -> & ->).
      unfold store_error, rollback_error; simpl.
      repeat split; intros; try discriminate; try congruence; eauto.
Qed.

End ExecuteQuery.

Arguments EvCursor {time} c cur.
Arguments EvNow {time} t.
Arguments EvExecute {time} cur q r.
Arguments EvFetchall {time} cur r.
Arguments EvRollback {time} c.
Arguments EvRollbackRaised {time} c e.
Arguments EvCurClose {time} cur.

(** A failing run, with integer clock readings. *)
Definition ms_between_Z (start end_ : Z) : Z := ((end_ - start) * 1000)%Z.

Definition failing_run : list (bench_event Z) :=
  [EvCursor 1 7; EvNow 10%Z; EvExecute 7 "DROP INDEX nope;" (Some ProgrammingError);
   EvRollback 1; EvCurClose 7].

(** The connection is lost: the statement raises, and so does the rollback
    of the [except] clause. *)
Definition lost_connection_run : list (bench_event Z) :=
  [EvCursor 1 7; EvNow 10%Z;
   EvExecute 7 "ANALYZE mutations_foncieres;" (Some OperationalError);
   EvRollbackRaised 1 OperationalError; EvCurClose 7].

Lemma runs_to_failing_run :
  runs_to (@bench_ev Z)
    (execute_query ms_between_Z (fun _ => None) (fun _ => None)
       1 "DROP INDEX nope;" false)
    failing_run (Returned (None, None)).
Proof.
  unfold execute_query, failing_run. simpl.
  exists 7; eexists; split; [reflexivity|].
  exists 10%Z; eexists; split; [reflexivity|].
  exists (Some ProgrammingError); eexists; split; [reflexivity|]. simpl.
  exists None; eexists; split; [reflexivity|]. simpl.
  exists tt; eexists; split; [reflexivity|]. split; reflexivity.
Qed.

(** [execute_query] is not total over store errors: on a lost connection
    the statement raises a store error, the rollback raises too, and
    [execute_query] raises instead of returning [(None, None)]. *)
Lemma execute_query_raises_on_lost_connection :
  runs_to (@bench_ev Z)
    (execute_query ms_between_Z (fun _ => None) (fun _ => None)
       1 "ANALYZE mutations_foncieres;" false)
    lost_connection_run (Raised (PgError OperationalError))
  /\ store_error lost_connection_run = true.
Proof.
  split; [|reflexivity].
  unfold execute_query, lost_connection_run. simpl.
  exists 7; eexists; split; [reflexivity|].
  exists 10%Z; eexists; split; [reflexivity|].
  exists (Some OperationalError); eexists; split; [reflexivity|]. simpl.
  exists (Some OperationalError); eexists; split; [reflexivity|]. simpl.
  exists tt; eexists; split; [reflexivity|]. split; reflexivity.
Qed.

Lemma execute_query_on_store_errors_witness :
  runs_to (@bench_ev Z)
    (execute_query ms_between_Z (fun _ => None) (fun _ => None)
       1 "DROP INDEX nope;" false)
    failing_run (Returned (None, None))
  /\ opened_cursor_closed_last failing_run
  /\ existsb (is_rollback_of 1) failing_run = true.
Proof.
  split; [exact runs_to_failing_run|].
  destruct (execute_query_on_store_errors runs_to_failing_run) as (Ha & Hb & _).
  split; [exact Ha|]. exact (proj1 (Hb eq_refl)).
Defined.

End IndexBench.

(* ================================================================== *)
(** * [src/main.py]: reading the yearly archives *)
(* ================================================================== *)

Module Ingest.

(** A pandas DataFrame: column labels and rows; a cell is [None] for NaN. *)
Definition cell := option string.

Record DataFrame : Type := mkDataFrame {
  df_columns : list string;
  df_rows : list (list cell)
}.

(** [df.shape[0]] *)
Definition n_rows (df : DataFrame) : nat := length (df_rows df).

(** The exceptions [read_combine_from_zips] has [except] clauses for;
    [OtherException] stands for whatever only [except Exception] catches. *)
Inductive ingest_exn : Type :=
| BadZipFile
| EmptyDataError
| ParserError
| MemoryError
| OtherException.

(** What the file system holds under a path, as the function sees it:
    [zip_path.is_file()], [zipfile.ZipFile(zip_path, 'r')], [namelist()],
    and [pd.read_csv] of a member. *)
Inductive member : Type :=
| ReadRaises (e : ingest_exn)
| Csv (df : DataFrame).

Inductive archive : Type :=
| NoFile
| OpenRaises (e : ingest_exn)
| Zip (members : list (string * member)).

Definition file_system := string -> archive.

(** [source_dir / zip_filename] *)
Definition path_join (dir name : string) : string := dir +:+ "/" +:+ name.

Fixpoint namelist_lookup (name : string) (members : list (string * member))
  : option member :=
  match members with
  | [] => None
  | (n, m) :: rest => if String.eqb n name then Some m else namelist_lookup name rest
  end.

(** One turn of the [for] loop, up to the append. *)
Inductive turn : Type :=
| Skip                      (* continue, or an exception logged and dropped *)
| Abort                     (* except MemoryError: return None *)
| Append (df : DataFrame).

Definition on_exception (e : ingest_exn) : turn :=
  match e with
  | MemoryError => Abort
  | BadZipFile | EmptyDataError | ParserError | OtherException => Skip
  end.

Definition loop_turn (fs : file_system) (source_dir : string)
  (zip_filename csv_filename : string) : turn :=
  let zip_path := path_join source_dir zip_filename in
  match fs zip_path with
  | NoFile => Skip
  | OpenRaises e => on_exception e
  | Zip members =>
      match namelist_lookup csv_filename members with
      | None => Skip
      | Some (ReadRaises e) => on_exception e
      | Some (Csv df) => Append df
      end
  end.

(** The [for zip_filename, csv_filename in zip(zip_files, csv_names)] loop;
    [None] is the [return None] of the [MemoryError] clause.
    [first_file_columns] only feeds a warning and is left out, as is the
    logging. *)
Fixpoint load_loop (fs : file_system) (source_dir : string)
  (pairs : list (string * string)) (dataframes : list DataFrame)
  : option (list DataFrame) :=
  match pairs with
  | [] => Some dataframes
  | (zip_filename, csv_filename) :: rest =>
      match loop_turn fs source_dir zip_filename csv_filename with
      | Skip => load_loop fs source_dir rest dataframes
      | Abort => None
      | Append df => load_loop fs source_dir rest (dataframes ++ [df])
      end
  end.

(** [pd.concat(dataframes, ignore_index=True)]: the columns are the union of
    the frames' columns in order of first appearance, the rows are the
    frames' rows one frame after the other, each row re-read against the
    union (NaN where its frame has no such column). *)
Definition add_columns (acc cols : list string) : list string :=
  acc ++ List.filter (fun c => negb (existsb (String.eqb c) acc)) cols.

Definition union_columns (dfs : list DataFrame) : list string :=
  fold_left (fun acc df => add_columns acc (df_columns df)) dfs [].

Fixpoint cell_at (c : string) (cols : list string) (r : list cell) : cell :=
  match cols, r with
  | c' :: cols', x :: r' => if String.eqb c' c then x else cell_at c cols' r'
  | _, _ => None
  end.

Definition reindex (cols : list string) (df : DataFrame) : list (list cell) :=
  map (fun r => map (fun c => cell_at c (df_columns df) r) cols) (df_rows df).

Definition pd_concat (dfs : list DataFrame) : DataFrame :=
  let cols := union_columns dfs in
  mkDataFrame cols (flat_map (reindex cols) dfs).

(** [read_combine_from_zips(zip_files, csv_names, source_dir)], lines 21-97.
    [concat_raises] says whether [pd.concat] raises on these frames
    ([MemoryError] or anything else: both clauses return [None]). *)
Definition read_combine_from_zips (fs : file_system)
  (concat_raises : list DataFrame -> bool)
  (zip_files csv_names : list string) (source_dir : string)
  : option DataFrame :=
  if negb (length zip_files =? length csv_names)%nat then None
  else
    match load_loop fs source_dir (combine zip_files csv_names) [] with
    | None => None
    | Some dataframes =>
        match dataframes with
        | [] => None
        | _ :: _ =>
            if concat_raises dataframes then None
            else Some (pd_concat dataframes)
        end
    end.

(** ** What the claim speaks of, read off the file system alone *)

(** The frames that can be loaded, in archive-list order. *)
Definition loadable (fs : file_system) (source_dir : string)
  (pairs : list (string * string)) : list DataFrame :=
  flat_map (fun '(z, c) =>
              match loop_turn fs source_dir z c with
              | Append df => [df]
              | _ => []
              end) pairs.

(** Some archive of the list raises [MemoryError] when opened or read. *)
Definition memory_error_hit (fs : file_system) (source_dir : string)
  (pairs : list (string * string)) : bool :=
  existsb (fun '(z, c) =>
             match loop_turn fs source_dir z c with
             | Abort => true
             | _ => false
             end) pairs.

Lemma load_loop_spec fs dir pairs acc :
  load_loop fs dir pairs acc =
  if memory_error_hit fs dir pairs then None
  else Some (acc ++ loadable fs dir pairs).
Proof.
  revert acc. induction pairs as [|[z c] rest IH]; intros acc; simpl.
  - now rewrite app_nil_r.
  - destruct (loop_turn fs dir z c) as [| |df]; simpl.
    + apply IH.
    + reflexivity.
    + rewrite IH. destruct (memory_error_hit fs dir rest); [reflexivity|].
      now rewrite <- app_assoc.
Qed.

Lemma length_flat_map_reindex cols dfs :
  length (flat_map (reindex cols) dfs) = list_sum (map n_rows dfs).
Proof.
  induction dfs as [|df dfs IH]; simpl; [reflexivity|].
  rewrite length_app, IH. unfold reindex, n_rows.
  now rewrite length_map.
Qed.

(** C9, as amended.  [read_combine_from_zips] returns [None] exactly when
    the two lists differ in length, or some archive of the list raises
    [MemoryError] while it is opened or read, or no frame could be loaded, or
    [pd.concat] raises.  Missing archives, missing members and the other
    exceptions are skipped.  When it returns a frame, its rows are the rows
    of the loadable frames in archive-list order and their number is the sum
    of the frames' row counts. *)
Theorem read_combine_from_zips_result (fs : file_system)
  (concat_raises : list DataFrame -> bool)
  (zip_files csv_names : list string) (source_dir : string) :
  let pairs := combine zip_files csv_names in
  let loaded := loadable fs source_dir pairs in
  let result :=
    read_combine_from_zips fs concat_raises zip_files csv_names source_dir in
  (result = None <->
     length zip_files <> length csv_names
     \/ memory_error_hit fs source_dir pairs = true
     \/ loaded = []
     \/ concat_raises loaded = true)
  /\
  (forall df, result = Some df ->
     df_rows df = flat_map (reindex (df_columns df)) loaded
     /\ n_rows df = list_sum (map n_rows loaded)).
Proof.
  intros pairs loaded result. subst result. unfold read_combine_from_zips.
  fold pairs. rewrite load_loop_spec. simpl. fold loaded.
  destruct (Nat.eqb_spec (length zip_files) (length csv_names)) as [Hlen|Hlen];
    simpl.
  2: { split; [tauto|discriminate]. }
  destruct (memory_error_hit fs source_dir pairs).
  { split; [tauto|discriminate]. }
  destruct loaded as [|df0 rest] eqn:Hl.
  { split; [tauto|discriminate]. }
  destruct (concat_raises (df0 :: rest)).
  { split; [tauto|discriminate]. }
  split.
  - split; [discriminate|].
    intros [H|[H|[H|H]]]; congruence.
  - intros df [= <-]. split; [reflexivity|].
    apply (length_flat_map_reindex (union_columns (df0 :: rest)) (df0 :: rest)).
Qed.

(** The claim as the spec words it fails on two archives of which the first
    loads and the second runs out of memory. *)
Definition frame_2017 : DataFrame :=
  mkDataFrame ["id_mutation"; "valeur_fonciere"]
              [[Some "2017-1"; Some "100000"]].

Definition two_archives : file_system := fun path =>
  if String.eqb path "data_zips/full_2017.csv.zip"
  then Zip [("full_2017.csv", Csv frame_2017)]
  else if String.eqb path "data_zips/full_2018.csv.zip"
  then Zip [("full_2018.csv", ReadRaises MemoryError)]
  else NoFile.

Lemma read_combine_from_zips_memory_error :
  let zip_files := ["full_2017.csv.zip"; "full_2018.csv.zip"] in
  let csv_names := ["full_2017.csv"; "full_2018.csv"] in
  read_combine_from_zips two_archives (fun _ => false)
    zip_files csv_names "data_zips" = None
  /\ length zip_files = length csv_names
  /\ loadable two_archives "data_zips" (combine zip_files csv_names)
     = [frame_2017].
Proof. repeat split. Qed.

(** ** The list of columns in [analyze_dataframe], lines 113-125 *)

(** The messages [logging.info] is called with. *)
Inductive message : Type :=
| ColumnsHeader                  (* the heading of the list *)
| ColumnsTotal (n : nat)         (* the number of columns, "the first 50:" *)
| ColumnItem (col : string)      (* f"  - {col}" *)
| ColumnsMore (n : nat).         (* "... and n more" *)

(** [for i, col in enumerate(df.columns)], from index [i] on: an item for
    [i < 50], else the remainder line and [break]. *)
Fixpoint first_fifty (i total : nat) (columns : list string) : list message :=
  match columns with
  | [] => []
  | col :: rest =>
      if (i <? 50)%nat then ColumnItem col :: first_fifty (S i) total rest
      else [ColumnsMore (total - 50)]
  end.

Definition list_columns (columns : list string) : list message :=
  ColumnsHeader ::
  (if (50 <? length columns)%nat
   then ColumnsTotal (length columns) :: first_fifty 0 (length columns) columns
   else map ColumnItem columns).

Lemma first_fifty_spec (i total : nat) (columns : list string) :
  i <= 50 ->
  first_fifty i total columns
  = map ColumnItem (firstn (50 - i) columns)
    ++ (if (50 - i <? length columns)%nat then [ColumnsMore (total - 50)] else []).
Proof.
  revert i. induction columns as [|col rest IH]; intros i Hi; simpl.
  - rewrite firstn_nil. reflexivity.
  - destruct (Nat.ltb_spec i 50) as [Hlt|Hge].
    + rewrite IH by lia. replace (50 - i) with (S (50 - S i)) by lia. simpl.
      destruct (Nat.ltb_spec (50 - S i) (length rest)) as [H1|H1];
        destruct (Nat.ltb_spec (S (50 - S i)) (S (length rest))) as [H2|H2];
        try lia; reflexivity.
    + replace (50 - i) with 0 by lia. reflexivity.
Qed.

(** X21.  The list of columns [analyze_dataframe] logs: the header, then
    one line per column when there are at most 50; when there are more, the
    total, the first 50 columns in order, and one line with the number of
    the others.  So never more than 53 lines, and a column is named exactly
    when it is among the first 50. *)
Theorem list_columns_spec (columns : list string) :
  list_columns columns
  = ColumnsHeader ::
    (if (50 <? length columns)%nat
     then ColumnsTotal (length columns) :: map ColumnItem (firstn 50 columns)
          ++ [ColumnsMore (length columns - 50)]
     else map ColumnItem columns)
  /\ length (list_columns columns) <= 53
  /\ (forall col, In (ColumnItem col) (list_columns columns)
                  <-> In col (firstn 50 columns)).
Proof.
  assert (E : list_columns columns
              = ColumnsHeader ::
                (if (50 <? length columns)%nat
                 then ColumnsTotal (length columns) :: map ColumnItem (firstn 50 columns)
                      ++ [ColumnsMore (length columns - 50)]
                 else map ColumnItem columns)).
  { unfold list_columns. rewrite first_fifty_spec by lia. simpl.
    destruct (Nat.ltb_spec 50 (length columns)); reflexivity. }
  split; [exact E|]. rewrite E.
  destruct (Nat.ltb_spec 50 (length columns)) as [Hlt|Hge].
  - split.
    + simpl. rewrite length_app, length_map, firstn_length_le by lia. simpl. lia.
    + intros col. simpl. rewrite in_app_iff, in_map_iff. split.
      * intros [H|[H|[(x & Hx & Hin)|[H|[]]]]]; try discriminate.
        injection Hx as <-. exact Hin.
      * intros Hin. right. right. left. exists col. auto.
  - rewrite firstn_all2 by lia. split.
    + simpl. rewrite length_map. lia.
    + intros col. simpl. rewrite in_map_iff. split.
      * intros [H|(x & Hx & Hin)]; [discriminate|]. injection Hx as <-. exact Hin.
      * intros Hin. right. exists col. auto.
Qed.

End Ingest.

(* ================================================================== *)
(** * [src/1.2.py]: transactions and anomaly scenarios *)
(* ================================================================== *)

Module Transactions.

Unset Implicit Arguments.

(** ** The table [mutations_foncieres] *)

(** A calendar date [(year, month, day)]; the script writes them
    ['2017-01-10']. *)
Definition date := (nat * nat * nat)%type.

Definition date_ltb (a b : date) : bool :=
  let '(y1, m1, d1) := a in
  let '(y2, m2, d2) := b in
  (y1 <? y2)%nat
  || ((y1 =? y2)%nat && ((m1 <? m2)%nat || ((m1 =? m2)%nat && (d1 <? d2)%nat))).

(** The columns the script names.  Every column but the key may be NULL
    ([None]).  [valeur_fonciere] is a number; the scenarios only add a whole
    number to it and compare it, so whole numbers stand for it here. *)
Record row : Type := mkRow {
  id : nat;
  id_mutation : option string;
  date_mutation : option date;
  nature_mutation : option string;
  valeur_fonciere : option Z;
  code_postal : option string;
  code_commune : option string;
  nom_commune : option string;
  type_local : option string
}.

Definition set_valeur_fonciere (v : option Z) (r : row) : row :=
  mkRow (id r) (id_mutation r) (date_mutation r) (nature_mutation r) v
        (code_postal r) (code_commune r) (nom_commune r) (type_local r).

Definition set_nom_commune (n : option string) (r : row) : row :=
  mkRow (id r) (id_mutation r) (date_mutation r) (nature_mutation r)
        (valeur_fonciere r) (code_postal r) (code_commune r) n (type_local r).

(** SQL comparisons: a comparison with NULL is not true. *)
Definition sql_eq_str (a b : option string) : bool :=
  match a, b with Some x, Some y => String.eqb x y | _, _ => false end.

Definition sql_gt (a b : option Z) : bool :=
  match a, b with Some x, Some y => (y <? x)%Z | _, _ => false end.

Definition sql_date_lt (a b : option date) : bool :=
  match a, b with Some x, Some y => date_ltb x y | _, _ => false end.

(** ** The store

    Modelled from the spec: the Store Client, an external collaborator
    (PostgreSQL behind psycopg2).  The spec fixes what matters to the
    scenarios: a session has an isolation level and an autocommit flag set
    before its first statement; commit makes a transaction's writes visible,
    rollback discards them; at read-committed every statement sees what is
    committed when it runs; at repeatable-read the snapshot is fixed when the
    transaction starts; a write to a row that a concurrent transaction has
    written waits for that transaction and, at repeatable-read, fails with a
    serialization conflict once it has committed. *)

Inductive isolation : Type := ReadCommitted | RepeatableRead.

(** Statements, by what they do to rows and what the cursor then holds.
    [Select p] is [SELECT ... WHERE p] and holds the rows; [Update p f] is
    [UPDATE ... SET f WHERE p] and [Delete p] is [DELETE ... WHERE p], both
    holding [cur.rowcount]; [Insert mk] is [INSERT ... RETURNING id] with the
    key drawn from the table's sequence. *)
Inductive stmt : Type -> Type :=
| Select (p : row -> bool) : stmt (list row)
| Update (p : row -> bool) (f : row -> row) : stmt nat
| Delete (p : row -> bool) : stmt nat
| Insert (mk : nat -> row) : stmt nat.

(** A transaction's pending writes, row by row. *)
Inductive write : Type :=
| WInsert (r : row)
| WUpdate (r : row)
| WDelete (i : nat).

Definition write_id (w : write) : nat :=
  match w with WInsert r | WUpdate r => id r | WDelete i => i end.

Definition apply_write (tbl : list row) (w : write) : list row :=
  match w with
  | WInsert r => tbl ++ [r]
  | WUpdate r => map (fun x => if (id x =? id r)%nat then r else x) tbl
  | WDelete i => List.filter (fun x => negb (id x =? i)%nat) tbl
  end.

Definition overlay (ws : list write) (tbl : list row) : list row :=
  fold_left apply_write ws tbl.

Inductive txn_status : Type :=
| Idle          (* no transaction open *)
| InTxn         (* a statement has begun one *)
| Aborted.      (* a statement failed: only rollback gets out *)

Record session : Type := mkSession {
  s_isolation : isolation;
  s_autocommit : bool;
  s_closed : bool;
  s_status : txn_status;
  s_snapshot : list row;      (* the table as committed when the transaction began *)
  s_snap_clock : nat;         (* the number of commits at that moment *)
  s_writes : list write
}.

Definition conn := nat.

Record store : Type := mkStore {
  committed : list row;
  clock : nat;                       (* commits so far *)
  wlog : list (nat * nat);           (* (row key, number of the commit that wrote it) *)
  next_id : nat;                     (* the sequence behind [id] *)
  sessions : list session            (* a connection is an index into it *)
}.

Definition set_session (st : store) (c : conn) (ss : session) : store :=
  mkStore (committed st) (clock st) (wlog st) (next_id st)
          (<[c := ss]> (sessions st)).

(** The table a statement of [ss] sees. *)
Definition sees (st : store) (ss : session) : list row :=
  overlay (s_writes ss)
    (match s_isolation ss with
     | RepeatableRead => s_snapshot ss
     | ReadCommitted => committed st
     end).

(** The first statement after commit or rollback begins a transaction. *)
Definition begin (st : store) (ss : session) : session :=
  match s_status ss with
  | Idle => mkSession (s_isolation ss) (s_autocommit ss) (s_closed ss) InTxn
                      (committed st) (clock st) []
  | _ => ss
  end.

Definition end_txn (ss : session) : session :=
  mkSession (s_isolation ss) (s_autocommit ss) (s_closed ss) Idle [] 0 [].

Definition abort_txn (ss : session) : session :=
  mkSession (s_isolation ss) (s_autocommit ss) (s_closed ss) Aborted
            (s_snapshot ss) (s_snap_clock ss) [].

Definition add_writes (ws : list write) (ss : session) : session :=
  mkSession (s_isolation ss) (s_autocommit ss) (s_closed ss) (s_status ss)
            (s_snapshot ss) (s_snap_clock ss) (s_writes ss ++ ws).

(** Row locks and conflicts. *)
Definition in_txn (ss : session) : bool :=
  match s_status ss with InTxn => true | _ => false end.

Definition holds_lock (i : nat) (ss : session) : bool :=
  in_txn ss && existsb (fun w => (write_id w =? i)%nat) (s_writes ss).

(** Another open transaction has written row [i]. *)
Definition locked_by_other (st : store) (c : conn) (i : nat) : bool :=
  existsb (fun '(c', ss) => negb (c' =? c)%nat && holds_lock i ss)
          (combine (seq 0 (length (sessions st))) (sessions st)).

(** Row [i] was written by a commit later than commit number [t]. *)
Definition written_since (st : store) (t : nat) (i : nat) : bool :=
  existsb (fun '(j, n) => (j =? i)%nat && (t <? n)%nat) (wlog st).

Inductive verdict : Type :=
| Go
| Wait          (* a target row is locked: the statement blocks *)
| Conflict.     (* repeatable-read: a target row changed under the snapshot *)

Fixpoint check_targets (st : store) (c : conn) (ss : session)
  (targets : list row) : verdict :=
  match targets with
  | [] => Go
  | r :: rest =>
      if locked_by_other st c (id r) then Wait
      else match s_isolation ss with
           | RepeatableRead =>
               if written_since st (s_snap_clock ss) (id r) then Conflict
               else check_targets st c ss rest
           | ReadCommitted => check_targets st c ss rest
           end
  end.

(** COMMIT of session [c], whose state is [ss]. *)
Definition do_commit (st : store) (c : conn) (ss : session) : store :=
  mkStore (overlay (s_writes ss) (committed st))
          (S (clock st))
          (map (fun w => (write_id w, S (clock st))) (s_writes ss) ++ wlog st)
          (next_id st)
          (<[c := end_txn ss]> (sessions st)).

(** A statement went through with the writes [ws]: they are pending, or
    committed at once on an autocommit session. *)
Definition finish (st : store) (c : conn) (ss : session) (ws : list write)
  : store :=
  let ss' := add_writes ws ss in
  if s_autocommit ss' then do_commit st c ss' else set_session st c ss'.

(** [cur.execute(q)] on connection [c]; [None]: the statement is blocked. *)
Definition exec_stmt {R} (st : store) (c : conn) (q : stmt R)
  : option ((pgerror + R) * store) :=
  match sessions st !! c with
  | None => Some (inl OperationalError, st)
  | Some ss0 =>
      if s_closed ss0 then Some (inl OperationalError, st)
      else
        match s_status ss0 with
        | Aborted => Some (inl InFailedSqlTransaction, st)
        | _ =>
            let ss := begin st ss0 in
            match q in stmt R return option ((pgerror + R) * store) with
            | Select p =>
                Some (inr (List.filter p (sees st ss)), finish st c ss [])
            | Update p f =>
                let targets := List.filter p (sees st ss) in
                match check_targets st c ss targets with
                | Wait => None
                | Conflict =>
                    Some (inl SerializationFailure, set_session st c (abort_txn ss))
                | Go =>
                    Some (inr (length targets),
                          finish st c ss (map (fun r => WUpdate (f r)) targets))
                end
            | Delete p =>
                let targets := List.filter p (sees st ss) in
                match check_targets st c ss targets with
                | Wait => None
                | Conflict =>
                    Some (inl SerializationFailure, set_session st c (abort_txn ss))
                | Go =>
                    Some (inr (length targets),
                          finish st c ss (map (fun r => WDelete (id r)) targets))
                end
            | Insert mk =>
                let i := next_id st in
                let st' := mkStore (committed st) (clock st) (wlog st) (S i)
                                   (sessions st) in
                Some (inr i, finish st' c ss [WInsert (mk i)])
            end
        end
  end.

(** [conn.commit()]: COMMIT of a failed transaction is a rollback. *)
Definition exec_commit (st : store) (c : conn) : store :=
  match sessions st !! c with
  | None => st
  | Some ss =>
      match s_status ss with
      | InTxn => do_commit st c ss
      | Aborted => set_session st c (end_txn ss)
      | Idle => st
      end
  end.

(** [conn.rollback()] *)
Definition exec_rollback (st : store) (c : conn) : store :=
  match sessions st !! c with
  | None => st
  | Some ss => set_session st c (end_txn ss)
  end.

(** [conn.close()]: an open transaction is discarded. *)
Definition exec_close (st : store) (c : conn) : store :=
  match sessions st !! c with
  | None => st
  | Some ss =>
      set_session st c
        (mkSession (s_isolation ss) (s_autocommit ss) true Idle [] 0 [])
  end.

(** [conn.autocommit = b] *)
Definition exec_set_autocommit (st : store) (c : conn) (b : bool) : store :=
  match sessions st !! c with
  | None => st
  | Some ss =>
      set_session st c
        (mkSession (s_isolation ss) b (s_closed ss) (s_status ss)
                   (s_snapshot ss) (s_snap_clock ss) (s_writes ss))
  end.

(** [psycopg2.connect] followed by [set_session] and [autocommit = ...];
    the server's default level is read-committed. *)
Definition exec_connect (st : store) (autocommit : bool)
  (isolation_level : option isolation) : conn * store :=
  let level := match isolation_level with Some l => l | None => ReadCommitted end in
  (length (sessions st),
   mkStore (committed st) (clock st) (wlog st) (next_id st)
           (sessions st ++ [mkSession level autocommit false Idle [] 0 []])).

(** A store holding [tbl], nobody connected, the sequence past every key. *)
Definition init_store (tbl : list row) : store :=
  mkStore tbl 0 [] (S (list_max (map id tbl))) [].


(** ** The calls a work unit makes *)

(** What the threads leave in the [results] dictionaries. *)
Inductive pyval : Type :=
| VNone
| VBool (b : bool)
| VInt (z : Z).

Definition py_of_num (v : option Z) : pyval :=
  match v with Some z => VInt z | None => VNone end.

(** Python's [==] on these values ([True == 1] and [False == 0]). *)
Definition py_eqb (a b : pyval) : bool :=
  match a, b with
  | VNone, VNone => true
  | VBool x, VBool y => Bool.eqb x y
  | VInt x, VInt y => (x =? y)%Z
  | VBool x, VInt y | VInt y, VBool x => ((if x then 1 else 0) =? y)%Z
  | _, _ => false
  end.

Inductive txE : Type -> Type :=
| Connect (autocommit : bool) (isolation_level : option isolation) : txE conn
| SetAutocommit (c : conn) (b : bool) : txE unit
| Execute {R} (c : conn) (q : stmt R) : txE (pgerror + R)
| Commit (c : conn) : txE (option pgerror)
| Rollback (c : conn) : txE unit
| Close (c : conn) : txE unit
| BarrierArrive : txE unit
| BarrierAwait (timeout : option nat) : txE bool
| Sleep (lo_ms hi_ms : nat) : txE unit
| SetResult (dict key : string) (v : pyval) : txE unit.

Local Open Scope prog_scope.

(** [get_connection(autocommit, isolation_level)], lines 19-26. *)
Definition get_connection (autocommit : bool) (isolation_level : option isolation)
  : prog txE conn :=
  call (Connect autocommit isolation_level).

(** [cur.execute(q)] inside [with conn.cursor() as cur]. *)
Definition execute {R} (c : conn) (q : stmt R) : prog txE R :=
  r <- call (Execute c q) ;;
  match r with inl e => Raise (PgError e) | inr x => Ret x end.

Definition commit (c : conn) : prog txE unit :=
  r <- call (Commit c) ;;
  match r with Some e => Raise (PgError e) | None => Ret tt end.

(** [with conn: body]: psycopg2 commits when the block ends normally (a
    [return] inside it included) and rolls back when it raises, letting the
    exception go on. *)
Definition with_conn {A} (c : conn) (body : prog txE A) : prog txE A :=
  x <- try_except body (fun e => Some (call (Rollback c) ;; Raise e)) ;;
  commit c ;;
  Ret x.

(** [threading.Barrier.wait(timeout)]: arrive, then wait to be released;
    with a timeout the wait can end unreleased, which raises
    [BrokenBarrierError]. *)
Definition barrier_wait (timeout : option nat) : prog txE unit :=
  call BarrierArrive ;;
  released <- call (BarrierAwait timeout) ;;
  if released : bool then Ret tt else Raise BrokenBarrierError.

(** [time.sleep(s)] and [time.sleep(random.uniform(lo, hi))], in
    milliseconds. *)
Definition sleep (lo_ms hi_ms : nat) : prog txE unit := call (Sleep lo_ms hi_ms).

(** [cur.fetchone()[0]] where the statement selects column [col]:
    [fetchone()] is [None] when there is no row, and [None[0]] raises. *)
Definition fetchone_0 {A} (col : row -> A) (rows : list row) : prog txE A :=
  match rows with
  | [] => Raise TypeError
  | r :: _ => Ret (col r)
  end.

(** [str(n)] *)
Definition str_nat (n : nat) : string :=
  DecimalString.NilZero.string_of_uint (Nat.to_uint n).

(** [f"{name}"] of a value that may be [None]. *)
Definition py_str (name : option string) : string :=
  match name with Some s => s | None => "None" end.


(** ** Work units *)

(** The [sale_details] dictionary of [transaction_register_sale]; its
    callers give every key. *)
Record sale : Type := mkSale {
  sale_code_commune : string;
  sale_date_mutation : date;
  sale_valeur_fonciere : Z;
  sale_nom_commune : string;
  sale_type_local : string
}.

(** [AVG(valeur_fonciere)] as sum and count of the values that are not
    NULL; NULL ([None]) when there is none. *)
Definition sql_avg (vs : list (option Z)) : option (Z * nat) :=
  let present := omap (fun v => v) vs in
  match present with
  | [] => None
  | _ :: _ => Some (fold_right Z.add 0%Z present, length present)
  end.

Definition in_commune (code : option string) (r : row) : bool :=
  sql_eq_str (code_commune r) code.

(** [transaction_register_sale(conn, sale_details)], lines 65-101.
    [sale_no] is the draw of [random.randint(10000, 99999)].  The f-string
    [f"{avg_price:.2f}"] raises [TypeError] when the average is NULL. *)
Definition transaction_register_sale (conn : conn) (sale_details : sale)
  (sale_no : nat) : prog txE (option nat) :=
  try_except
    (with_conn conn
       (rows <- execute conn
                  (Select (in_commune (Some (sale_code_commune sale_details)))) ;;
        match sql_avg (map valeur_fonciere rows) with
        | None => Raise TypeError
        | Some avg_price =>
            sleep 100 300 ;;
            new_id <- execute conn
              (Insert (fun i =>
                 mkRow i
                   (Some ("SALE-" +:+ str_nat sale_no))
                   (Some (sale_date_mutation sale_details))
                   (Some "Vente")
                   (Some (sale_valeur_fonciere sale_details))
                   None
                   (Some (sale_code_commune sale_details))
                   (Some (sale_nom_commune sale_details))
                   (Some (sale_type_local sale_details)))) ;;
            Ret (Some new_id)
        end))
    (except_psycopg2 (fun _ => Ret None)).

(** [code_commune = %s AND nom_commune = %s] *)
Definition commune_named (code : string) (name : option string) (r : row) : bool :=
  in_commune (Some code) r && sql_eq_str (nom_commune r) name.

(** [transaction_update_commune_name(conn, code_commune, old_name, new_name)],
    lines 103-132.  The first statement only feeds a warning. *)
Definition transaction_update_commune_name (conn : conn)
  (code_commune_ : string) (old_name : option string) (new_name : string)
  : prog txE bool :=
  try_except
    (with_conn conn
       (current_name <- execute conn (Select (in_commune (Some code_commune_))) ;;
        sleep 100 500 ;;
        updated_count <- execute conn
          (Update (commune_named code_commune_ old_name)
                  (set_nom_commune (Some new_name))) ;;
        Ret true))
    (except_psycopg2 (fun _ => Ret false)).

Definition older_than (cutoff_date : date) (r : row) : bool :=
  sql_date_lt (date_mutation r) (Some cutoff_date).

(** [SELECT COUNT( * ) FROM mutations_foncieres WHERE date_mutation < %s] *)
Definition count_older (conn : conn) (cutoff_date : date) : prog txE nat :=
  rows <- execute conn (Select (older_than cutoff_date)) ;;
  Ret (length rows).

(** [transaction_archive_old_mutations(conn, cutoff_date)], lines 533-573. *)
Definition transaction_archive_old_mutations (conn : conn) (cutoff_date : date)
  : prog txE Z :=
  try_except
    (count_to_delete <- count_older conn cutoff_date ;;
     if (count_to_delete =? 0)%nat then Ret 0%Z
     else
       deleted_count <- execute conn (Delete (older_than cutoff_date)) ;;
       Ret (Z.of_nat deleted_count))
    (except_psycopg2 (fun _ => Ret (-1)%Z)).

(** What [run_archive_test_with_rollback] prints: the count before, the
    count inside the transaction after the delete (when it gets there), the
    count after the rollback (when that query does not raise). *)
Record archive_report : Type := mkReport {
  initial_count : Z;
  count_after_delete : option nat;
  count_after_rollback : option nat
}.

(** [run_archive_test_with_rollback(cutoff_date)], lines 576-639.  The
    function returns nothing; the model returns what it prints.  The inner
    [try_except] keeps [initial_count] for the [finally] block when a later
    statement raises, as the local variable does. *)
Definition run_archive_test_with_rollback (cutoff_date : date)
  : prog txE archive_report :=
  conn <- get_connection false (Some ReadCommitted) ;;
  seen <- try_except
    (initial_count <- count_older conn cutoff_date ;;
     try_except
       (if (initial_count =? 0)%nat then Ret (Z.of_nat initial_count, None)
        else
          deleted_count <- transaction_archive_old_mutations conn cutoff_date ;;
          if (0 <=? deleted_count)%Z then
            count_after_delete <- count_older conn cutoff_date ;;
            Ret (Z.of_nat initial_count, Some count_after_delete)
          else Ret (Z.of_nat initial_count, None))
       (except_Exception (fun _ => Ret (Z.of_nat initial_count, None))))
    (except_Exception (fun _ => Ret ((-1)%Z, None))) ;;
  (* finally: conn is set and not closed *)
  call (Rollback conn) ;;
  count_after_rollback <- try_except
    (n <- count_older conn cutoff_date ;; Ret (Some n))
    (except_Exception (fun _ => Ret None)) ;;
  call (Close conn) ;;
  Ret (mkReport (fst seen) (snd seen) count_after_rollback).

(** ** Running programs against the store *)

(** What the threads of a scenario share. *)
Record world : Type := mkWorld {
  w_store : store;
  w_parties : nat;                              (* threading.Barrier(parties) *)
  w_arrived : nat;                              (* calls of wait() so far *)
  w_results : gmap (string * string) pyval      (* (dictionary, key) *)
}.

Definition with_store (w : world) (st : store) : world :=
  mkWorld st (w_parties w) (w_arrived w) (w_results w).

(** One call; [None]: the caller is blocked (on a row lock or at the
    barrier). *)
Definition exec_op {R} (o : txE R) (w : world) : option (R * world) :=
  match o in txE R return option (R * world) with
  | Connect a l =>
      let '(c, st) := exec_connect (w_store w) a l in Some (c, with_store w st)
  | SetAutocommit c b => Some (tt, with_store w (exec_set_autocommit (w_store w) c b))
  | Execute c q =>
      match exec_stmt (w_store w) c q with
      | Some (r, st) => Some (r, with_store w st)
      | None => None
      end
  | Commit c => Some (None, with_store w (exec_commit (w_store w) c))
  | Rollback c => Some (tt, with_store w (exec_rollback (w_store w) c))
  | Close c => Some (tt, with_store w (exec_close (w_store w) c))
  | BarrierArrive =>
      Some (tt, mkWorld (w_store w) (w_parties w) (S (w_arrived w)) (w_results w))
  | BarrierAwait timeout =>
      if (w_parties w <=? w_arrived w)%nat then Some (true, w)
      else match timeout with
           | Some _ => Some (false, w)
           | None => None
           end
  | Sleep _ _ => Some (tt, w)
  | SetResult d k v =>
      Some (tt, mkWorld (w_store w) (w_parties w) (w_arrived w)
                        (<[(d, k) := v]> (w_results w)))
  end.

(** A program run alone, to its end; [None]: it blocks. *)
Fixpoint run_seq {A} (p : prog txE A) (w : world) : option (outcome A * world) :=
  match p with
  | Ret a => Some (Returned a, w)
  | Raise e => Some (Raised e, w)
  | Vis o k =>
      match exec_op o w with
      | Some (r, w') => run_seq (k r) w'
      | None => None
      end
  end.

Definition init_world (tbl : list row) : world :=
  mkWorld (init_store tbl) 0 0 ∅.


(** ** How [run_seq] goes through compound programs *)

Lemma run_seq_bind A B (p : prog txE A) (f : A -> prog txE B) w :
  run_seq (bind p f) w =
  match run_seq p w with
  | Some (Returned a, w') => run_seq (f a) w'
  | Some (Raised e, w') => Some (Raised e, w')
  | None => None
  end.
Proof.
  revert w. induction p as [a|e|R o k IH]; intros w; simpl; try reflexivity.
  destruct (exec_op o w) as [[r w']|]; [apply IH|reflexivity].
Qed.

Lemma run_seq_try_except A (p : prog txE A) h w :
  run_seq (try_except p h) w =
  match run_seq p w with
  | Some (Raised e, w') =>
      match h e with
      | Some q => run_seq q w'
      | None => Some (Raised e, w')
      end
  | other => other
  end.
Proof.
  revert w. induction p as [a|e|R o k IH]; intros w; simpl; try reflexivity.
  - destruct (h e); reflexivity.
  - destruct (exec_op o w) as [[r w']|]; [apply IH|reflexivity].
Qed.

Lemma run_seq_try_finally A (p : prog txE A) fin w :
  run_seq (try_finally p fin) w =
  match run_seq p w with
  | Some (r, w') =>
      match run_seq fin w' with
      | Some (Returned _, w'') => Some (r, w'')
      | Some (Raised e, w'') => Some (Raised e, w'')
      | None => None
      end
  | None => None
  end.
Proof.
  revert w. induction p as [a|e|R o k IH]; intros w; simpl.
  - rewrite run_seq_bind. destruct (run_seq fin w) as [[[u|e] w']|]; reflexivity.
  - rewrite run_seq_bind. destruct (run_seq fin w) as [[[u|e'] w']|]; reflexivity.
  - destruct (exec_op o w) as [[r w']|]; [apply IH|reflexivity].
Qed.

Lemma run_seq_call R (o : txE R) w :
  run_seq (call o) w =
  match exec_op o w with
  | Some (r, w') => Some (Returned r, w')
  | None => None
  end.
Proof. simpl. destruct (exec_op o w) as [[r w']|]; reflexivity. Qed.

(** ** Facts about the store *)

Lemma overlay_nil tbl : overlay [] tbl = tbl.
Proof. reflexivity. Qed.

Lemma overlay_app ws1 ws2 tbl :
  overlay (ws1 ++ ws2) tbl = overlay ws2 (overlay ws1 tbl).
Proof. unfold overlay. apply fold_left_app. Qed.

(** Deleting the rows that satisfy [p] leaves none that does. *)
Lemma overlay_delete_filter p (targets : list row) tbl :
  (forall r, In r tbl -> p r = true -> In r targets) ->
  List.filter p (overlay (map (fun r => WDelete (id r)) targets) tbl) = [].
Proof.
  revert tbl. induction targets as [|t targets IH]; intros tbl H; simpl.
  - induction tbl as [|r tbl IHt]; simpl; [reflexivity|].
    destruct (p r) eqn:Hp.
    + exfalso. exact (H r (or_introl eq_refl) Hp).
    + apply IHt. intros r' Hin. apply H. now right.
  - apply IH. intros r Hin Hp.
    apply filter_In in Hin. destruct Hin as [Hin Hid].
    destruct (H r Hin Hp) as [->|Hr]; [|exact Hr].
    rewrite Nat.eqb_refl in Hid. discriminate.
Qed.

Lemma lookup_sessions_new (l : list session) ss : (l ++ [ss]) !! length l = Some ss.
Proof.
  rewrite lookup_app_r by reflexivity.
  now rewrite Nat.sub_diag.
Qed.

Lemma insert_sessions_new (l : list session) ss ss' :
  <[length l := ss']> (l ++ [ss]) = l ++ [ss'].
Proof.
  rewrite insert_app_r_alt by reflexivity.
  now rewrite Nat.sub_diag.
Qed.

(** Nobody but connection [c] is inside a transaction. *)
Definition alone (st : store) (c : conn) : Prop :=
  forall c' ss, sessions st !! c' = Some ss -> c' <> c -> in_txn ss = false.

Lemma combine_seq_lookup (l : list session) n c ss :
  In (c, ss) (combine (seq n (length l)) l) -> n <= c /\ l !! (c - n) = Some ss.
Proof.
  revert n. induction l as [|x l IH]; intros n Hin; simpl in Hin; [contradiction|].
  destruct Hin as [Heq|Hin].
  - injection Heq as <- <-. split; [lia|]. rewrite Nat.sub_diag. reflexivity.
  - apply IH in Hin. destruct Hin as [Hle Hl]. split; [lia|].
    replace (c - n) with (S (c - S n)) by lia. exact Hl.
Qed.

Lemma locked_by_other_alone st c i : alone st c -> locked_by_other st c i = false.
Proof.
  intros H. unfold locked_by_other.
  apply not_true_is_false. intros Hex.
  apply existsb_exists in Hex. destruct Hex as [[c' ss] [Hin Hb]].
  apply andb_true_iff in Hb. destruct Hb as [Hne Hl].
  apply negb_true_iff, Nat.eqb_neq in Hne.
  unfold holds_lock in Hl. apply andb_true_iff in Hl. destruct Hl as [Ht _].
  apply combine_seq_lookup in Hin. destruct Hin as [_ Hin].
  rewrite Nat.sub_0_r in Hin.
  rewrite (H c' ss Hin Hne) in Ht. discriminate.
Qed.

Lemma check_targets_alone st c ss targets :
  alone st c -> s_isolation ss = ReadCommitted ->
  check_targets st c ss targets = Go.
Proof.
  intros Ha Hi. induction targets as [|r rest IH]; simpl; [reflexivity|].
  rewrite locked_by_other_alone by exact Ha. now rewrite Hi.
Qed.

Lemma alone_set_session st c ss : alone st c -> alone (set_session st c ss) c.
Proof.
  intros H c' ss' Hl Hne. simpl in Hl.
  rewrite list_lookup_insert_ne in Hl by congruence. eauto.
Qed.


Lemma add_writes_nil ss : add_writes [] ss = ss.
Proof. destruct ss. unfold add_writes. simpl. now rewrite app_nil_r. Qed.

Lemma set_session_twice st c a b :
  set_session (set_session st c a) c b = set_session st c b.
Proof. unfold set_session. simpl. now rewrite list_insert_insert_eq. Qed.

Lemma lookup_set_session st c ss :
  c < length (sessions st) -> sessions (set_session st c ss) !! c = Some ss.
Proof. intros H. simpl. now apply list_lookup_insert_eq. Qed.

Lemma length_set_session st c ss :
  length (sessions (set_session st c ss)) = length (sessions st).
Proof. simpl. apply length_insert. Qed.

(** A statement of an open, healthy session that does not autocommit. *)
Lemma exec_select_open st c ss p :
  sessions st !! c = Some ss -> s_closed ss = false ->
  s_status ss <> Aborted -> s_autocommit ss = false ->
  exec_stmt st c (Select p) =
  Some (inr (List.filter p (sees st (begin st ss))), set_session st c (begin st ss)).
Proof.
  intros Hl Hc Hs Ha. unfold exec_stmt. rewrite Hl, Hc.
  assert (Hb : s_autocommit (add_writes [] (begin st ss)) = false).
  { rewrite add_writes_nil. unfold begin. destruct (s_status ss); exact Ha. }
  destruct (s_status ss) eqn:E; try congruence;
    unfold finish; rewrite Hb, add_writes_nil; reflexivity.
Qed.

Lemma exec_delete_alone st c ss p :
  sessions st !! c = Some ss -> s_closed ss = false ->
  s_status ss <> Aborted -> s_autocommit ss = false ->
  s_isolation ss = ReadCommitted -> alone st c ->
  let ss' := begin st ss in
  let targets := List.filter p (sees st ss') in
  exec_stmt st c (Delete p) =
  Some (inr (length targets),
        set_session st c (add_writes (map (fun r => WDelete (id r)) targets) ss')).
Proof.
  intros Hl Hc Hs Ha Hi Hal ss' targets. unfold exec_stmt. rewrite Hl, Hc.
  assert (Hi' : s_isolation ss' = ReadCommitted).
  { unfold ss', begin. destruct (s_status ss); exact Hi. }
  assert (Hb : forall ws, s_autocommit (add_writes ws ss') = false).
  { intros ws. unfold ss', begin. destruct (s_status ss); exact Ha. }
  destruct (s_status ss) eqn:E; try congruence; fold ss'; fold targets;
    rewrite (check_targets_alone _ _ _ _ Hal Hi'); unfold finish; rewrite Hb;
    reflexivity.
Qed.

(** Every session of the store is outside a transaction. *)
Definition no_open_transaction (st : store) : bool :=
  forallb (fun ss => negb (in_txn ss)) (sessions st).

Lemma no_open_transaction_alone st c :
  no_open_transaction st = true -> alone st c.
Proof.
  intros H c' ss Hl _. unfold no_open_transaction in H.
  rewrite forallb_forall in H.
  apply negb_true_iff, H. apply list_elem_of_In.
  eapply list_elem_of_lookup_2. exact Hl.
Qed.

Lemma alone_connect st a l :
  alone st (length (sessions st)) ->
  alone (snd (exec_connect st a l)) (length (sessions st)).
Proof.
  intros H c' ss Hl Hne. simpl in Hl.
  destruct (Nat.lt_ge_cases c' (length (sessions st))) as [Hlt|Hge].
  - rewrite lookup_app_l in Hl by exact Hlt. eauto.
  - rewrite lookup_app_r in Hl by exact Hge.
    destruct (c' - length (sessions st)) as [|k] eqn:E; [lia|].
    simpl in Hl. rewrite lookup_nil in Hl. discriminate.
Qed.


Lemma check_targets_unlocked st c ss targets :
  (forall i, locked_by_other st c i = false) ->
  s_isolation ss = ReadCommitted ->
  check_targets st c ss targets = Go.
Proof.
  intros Hu Hi. induction targets as [|r rest IH]; simpl; [reflexivity|].
  now rewrite Hu, Hi.
Qed.

(** ** The record of a run *)

(** The record of a run: which calls were made and what came back that is not
    a row. *)
Inductive tx_event : Type :=
| EvConnect (c : conn)
| EvSetAutocommit (c : conn) (b : bool)
| EvExecute (c : conn) (raised : option pgerror)
| EvCommit (c : conn) (raised : option pgerror)
| EvRollback (c : conn)
| EvClose (c : conn)
| EvBarrierArrive
| EvBarrierAwait (timeout : option nat) (released : bool)
| EvSleep
| EvSetResult (dict key : string) (v : pyval).

Definition tx_ev R (o : txE R) : R -> tx_event :=
  match o in txE R return R -> tx_event with
  | Connect _ _ => fun c => EvConnect c
  | SetAutocommit c b => fun _ => EvSetAutocommit c b
  | Execute c _ => fun r => EvExecute c (match r with inl e => Some e | inr _ => None end)
  | Commit c => fun r => EvCommit c r
  | Rollback c => fun _ => EvRollback c
  | Close c => fun _ => EvClose c
  | BarrierArrive => fun _ => EvBarrierArrive
  | BarrierAwait t => fun r => EvBarrierAwait t r
  | Sleep _ _ => fun _ => EvSleep
  | SetResult d k v => fun _ => EvSetResult d k v
  end.

(** The calls a program run alone makes, each with the world it leaves. *)
Fixpoint run_seq_log {A} (p : prog txE A) (w : world) : list (tx_event * world) :=
  match p with
  | Vis o k =>
      match exec_op o w with
      | Some (r, w') => (tx_ev _ o r, w') :: run_seq_log (k r) w'
      | None => []
      end
  | _ => []
  end.

(** Session [c] is open and inside a transaction whose pending writes are
    [ws]. *)
Definition txn_pending (w : world) (c : conn) (ws : list write) : Prop :=
  exists ss, sessions (w_store w) !! c = Some ss
             /\ s_status ss = InTxn /\ s_closed ss = false /\ s_writes ss = ws.

(** No session has a write pending. *)
Definition no_pending_write (st : store) : bool :=
  forallb (fun ss => match s_writes ss with [] => true | _ => false end) (sessions st).

(** What [SELECT COUNT( * ) ... WHERE date_mutation < cutoff_date] gives
    session [c] in world [w]. *)
Definition count_seen (w : world) (c : conn) (cutoff_date : date) : option nat :=
  match sessions (w_store w) !! c with
  | Some ss => Some (length (List.filter (older_than cutoff_date)
                                         (sees (w_store w) (begin (w_store w) ss))))
  | None => None
  end.

(** C7.  On a store holding any table and for any cutoff date, the dry run
    ends normally and reports: the count before; inside the transaction,
    after the delete, the count zero (when no row is older than the cutoff
    the function returns before the archive work unit and reports no such
    count); after the rollback, the count before.  The committed table is
    the one it started from after every call and at the end, and no
    transaction is left open.  Call by call: when rows are older than the
    cutoff the calls are the connect, the count before, the count and the
    DELETE of the archive work unit, the count after it, the rollback, the
    last count and the close; after the DELETE the session is inside its
    transaction with the deletion of exactly the old rows pending and a
    count there gives zero; the count that follows changes nothing; after
    the rollback no transaction is open and a count gives the count before.
    When no row is older than the cutoff the calls are the connect, a
    count, the rollback, a count and the close, and no write is ever
    pending. *)
Theorem archive_dry_run_restores (tbl : list row) (cutoff_date : date) :
  let n := length (List.filter (older_than cutoff_date) tbl) in
  let old := List.filter (older_than cutoff_date) tbl in
  let log := run_seq_log (run_archive_test_with_rollback cutoff_date) (init_world tbl) in
  exists w',
    run_seq (run_archive_test_with_rollback cutoff_date) (init_world tbl) =
      Some (Returned (mkReport (Z.of_nat n)
                               (if (n =? 0)%nat then None else Some 0)
                               (Some n)), w')
    /\ committed (w_store w') = tbl
    /\ no_open_transaction (w_store w') = true
    /\ List.Forall (fun s => committed (w_store (snd s)) = tbl) log
    /\ (n = 0 ->
        map fst log = [EvConnect 0; EvExecute 0 None; EvRollback 0;
                       EvExecute 0 None; EvClose 0]
        /\ List.Forall (fun s => no_pending_write (w_store (snd s)) = true) log)
    /\ (n <> 0 ->
        exists w1 w2 w3 w4 w5 w6 w7 w8,
          log = [(EvConnect 0, w1); (EvExecute 0 None, w2); (EvExecute 0 None, w3);
                 (EvExecute 0 None, w4); (EvExecute 0 None, w5);
                 (EvRollback 0, w6); (EvExecute 0 None, w7); (EvClose 0, w8)]
          /\ txn_pending w2 0 [] /\ txn_pending w3 0 []
          /\ txn_pending w4 0 (map (fun r => WDelete (id r)) old)
          /\ count_seen w4 0 cutoff_date = Some 0
          /\ w5 = w4
          /\ no_open_transaction (w_store w6) = true
          /\ count_seen w6 0 cutoff_date = Some n
          /\ w8 = w').
Proof.
  intros n old log. subst old log.
  unfold run_archive_test_with_rollback, get_connection.
  cbn. fold n.
  destruct (n =? 0)%nat eqn:Hn.
  - cbn. fold n. eexists. split; [reflexivity|]. split; [reflexivity|].
    split; [reflexivity|]. split; [repeat constructor|]. split.
    + intros _. split; [reflexivity|]. repeat constructor.
    + intros H. apply Nat.eqb_eq in Hn. contradiction.
  - cbn. fold n. rewrite Hn. cbn.
    rewrite check_targets_unlocked by (intros; reflexivity).
    cbn. fold n.
    assert (Hz : (0 <=? Z.of_nat n)%Z = true) by (apply Z.leb_le; lia).
    rewrite Hz. cbn.
    change (fold_left apply_write ?ws ?t) with (overlay ws t).
    rewrite overlay_delete_filter
      by (intros r Hin Hp; apply filter_In; split; assumption).
    eexists. split; [reflexivity|]. split; [reflexivity|]. split; [reflexivity|].
    split; [repeat constructor|]. split.
    + intros H. apply Nat.eqb_neq in Hn. contradiction.
    + intros _. do 8 eexists. split; [reflexivity|].
      repeat apply conj;
        try (eexists; repeat split; reflexivity); try reflexivity.
      * unfold count_seen. cbn.
        change (fold_left apply_write ?ws ?t) with (overlay ws t).
        rewrite overlay_delete_filter
          by (intros r Hin Hp; apply filter_In; split; assumption).
        reflexivity.
      * unfold with_store, set_session, add_writes, init_world, init_store; simpl.
        rewrite ?app_nil_r. reflexivity.
Qed.


(** ** What a work unit reports when a statement fails *)

(** The store errors raised by the statements of a run, in order. *)
Definition statement_errors (tr : list tx_event) : list pgerror :=
  omap (fun e => match e with EvExecute _ (Some k) => Some k | _ => None end) tr.

Definition rolled_back (c : conn) (tr : list tx_event) : bool :=
  existsb (fun e => match e with EvRollback c' => (c' =? c)%nat | _ => false end) tr.

Definition commit_called (tr : list tx_event) : bool :=
  existsb (fun e => match e with EvCommit _ _ => true | _ => false end) tr.

(** Takes a hypothesis [runs_to ... p tr res] over a closed program apart,
    answer by answer. *)
Ltac run_cases H :=
  repeat (simpl in H;
          match type of H with
          | exists _, _ => destruct H as (? & ? & -> & H)
          | _ /\ _ => destruct H as [-> ->]
          | context [match ?r with _ => _ end] => destruct r
          end).

(** C2, as amended.  In the commune-name update and in the sale
    registration, when a statement raises a store error, whatever its kind,
    the work unit calls rollback, never commit, makes no further statement,
    and returns [False] (the update) or [None] (the registration): the kind
    is not part of what the caller gets. *)
Theorem work_unit_failure_hides_kind :
  (forall conn code_commune_ old_name new_name tr res,
     runs_to tx_ev
       (transaction_update_commune_name conn code_commune_ old_name new_name)
       tr res ->
     statement_errors tr <> [] ->
     res = Returned false /\ rolled_back conn tr = true
     /\ commit_called tr = false /\ length (statement_errors tr) = 1)
  /\
  (forall conn sale_details sale_no tr res,
     runs_to tx_ev (transaction_register_sale conn sale_details sale_no) tr res ->
     statement_errors tr <> [] ->
     res = Returned None /\ rolled_back conn tr = true
     /\ commit_called tr = false /\ length (statement_errors tr) = 1).
Proof.
  split.
  - intros conn cc old new tr res H Herr.
    unfold transaction_update_commune_name in H.
    run_cases H; simpl in *; rewrite ?Nat.eqb_refl; try congruence; auto.
  - intros conn sd no tr res H Herr.
    unfold transaction_register_sale in H.
    run_cases H; simpl in *; rewrite ?Nat.eqb_refl; try congruence; auto.
Qed.

(** Two runs of the commune-name update whose second statement fails, once
    with a serialization conflict and once with a lost connection. *)
Definition update_of_01344 : prog txE bool :=
  transaction_update_commune_name 0 "01344" (Some "Bourg") "Bourg_TX1_7".

Definition run_with_failure (k : pgerror) : list tx_event :=
  [EvExecute 0 None; EvSleep; EvExecute 0 (Some k); EvRollback 0].

Lemma runs_to_update_failure k :
  runs_to tx_ev update_of_01344 (run_with_failure k) (Returned false).
Proof.
  simpl. exists (inr []), (tl (run_with_failure k)). split; [reflexivity|].
  exists tt, (tl (tl (run_with_failure k))). split; [reflexivity|].
  exists (inl k), [EvRollback 0]. split; [reflexivity|]. simpl.
  exists tt, []. split; [reflexivity|]. split; reflexivity.
Qed.

(** The caller is handed the same value for both kinds: no function of the
    returned value tells them apart. *)
Lemma failure_kind_not_resurfaced :
  runs_to tx_ev update_of_01344 (run_with_failure SerializationFailure) (Returned false)
  /\ runs_to tx_ev update_of_01344 (run_with_failure OperationalError) (Returned false)
  /\ statement_errors (run_with_failure SerializationFailure) = [SerializationFailure]
  /\ statement_errors (run_with_failure OperationalError) = [OperationalError].
Proof.
  split; [apply runs_to_update_failure|].
  split; [apply runs_to_update_failure|].
  split; reflexivity.
Qed.

Lemma work_unit_failure_hides_kind_witness :
  runs_to tx_ev update_of_01344 (run_with_failure OperationalError) (Returned false)
  /\ rolled_back 0 (run_with_failure OperationalError) = true
  /\ commit_called (run_with_failure OperationalError) = false.
Proof.
  split; [apply runs_to_update_failure|].
  destruct (proj1 work_unit_failure_hides_kind 0 "01344" (Some "Bourg")
              "Bourg_TX1_7" (run_with_failure OperationalError) (Returned false)
              (runs_to_update_failure OperationalError))
    as (_ & Hr & Hc & _).
  - discriminate.
  - split; assumption.
Defined.


(** ** Threads

    A thread is a program; a pool is the threads started together and the
    world they share.  A schedule names, turn by turn, the thread that makes
    its next call; a turn given to a thread that has ended, or is blocked on a
    row lock or at the barrier, changes nothing. *)
Definition thread := prog txE unit.

Definition finished (t : thread) : bool :=
  match t with Vis _ _ => false | _ => true end.

Record pool : Type := mkPool {
  p_world : world;
  p_threads : list thread
}.

Definition step (i : nat) (pl : pool) : option pool :=
  match p_threads pl !! i with
  | Some (Vis o k) =>
      match exec_op o (p_world pl) with
      | Some (r, w') => Some (mkPool w' (<[i := k r]> (p_threads pl)))
      | None => None
      end
  | _ => None
  end.

Definition turn (pl : pool) (i : nat) : pool :=
  match step i pl with Some pl' => pl' | None => pl end.

Definition run (sched : list nat) (pl : pool) : pool := fold_left turn sched pl.

Definition all_done (pl : pool) : bool := forallb finished (p_threads pl).

(** ** The main thread

    Besides its own calls the main thread creates a barrier and starts
    threads and joins them: [StartJoin ws] stands for
    [t1.start(); t2.start(); t1.join(); t2.join()]. *)
Inductive mainE : Type -> Type :=
| Do {R} (o : txE R) : mainE R
| NewBarrier (parties : nat) : mainE unit
| StartJoin (workers : list thread) : mainE unit.

Fixpoint lift {A} (p : prog txE A) : prog mainE A :=
  match p with
  | Ret a => Ret a
  | Raise e => Raise e
  | Vis o k => Vis (Do o) (fun r => lift (k r))
  end.

(** One call of the main thread.  The joins of [StartJoin] return when the
    schedule given for these threads runs them all to their end; [None]
    otherwise, and when a call of the main thread blocks. *)
Definition exec_main {R X} (o : mainE R) (scheds : list (list nat)) (w : world)
  (cont : R -> list (list nat) -> world -> option X) : option X :=
  match o in mainE R return (R -> list (list nat) -> world -> option X) -> option X with
  | Do o' => fun cont =>
      match exec_op o' w with
      | Some (r, w') => cont r scheds w'
      | None => None
      end
  | NewBarrier n => fun cont =>
      cont tt scheds (mkWorld (w_store w) n 0 (w_results w))
  | StartJoin ws => fun cont =>
      match scheds with
      | [] => None
      | sched :: rest =>
          let pl := run sched (mkPool w ws) in
          if all_done pl then cont tt rest (p_world pl) else None
      end
  end cont.

Fixpoint run_main {A} (p : prog mainE A) (scheds : list (list nat)) (w : world)
  : option (outcome A * world) :=
  match p with
  | Ret a => Some (Returned a, w)
  | Raise e => Some (Raised e, w)
  | Vis o k => exec_main o scheds w (fun r scheds' w' => run_main (k r) scheds' w')
  end.


(** ** Helper queries, lines 51-62 *)

(** [get_random_mutation_id(conn)]: [OFFSET random() * COUNT( * ) LIMIT 1].
    [offset] is what the store draws. *)
Definition get_random_mutation_id (conn : conn) (offset : nat)
  : prog txE (option nat) :=
  rows <- execute conn (Select (fun _ => true)) ;;
  match nth_error rows offset with
  | Some r => Ret (Some (id r))
  | None => Ret None
  end.

Definition has_id (i : nat) (r : row) : bool := (id r =? i)%nat.

(** [get_mutation_details(conn, mutation_id)]: the row stands for the tuple
    [(id, valeur_fonciere, nom_commune)]. *)
Definition get_mutation_details (conn : conn) (mutation_id : nat)
  : prog txE (option row) :=
  rows <- execute conn (Select (has_id mutation_id)) ;;
  Ret (head rows).

(** ** Non-repeatable read, lines 135-229 *)

Definition tx1_reader (mutation_id : nat) : thread :=
  conn <- get_connection false (Some ReadCommitted) ;;
  try_finally
    (try_except
       (with_conn conn
          (rows <- execute conn (Select (has_id mutation_id)) ;;
           val1 <- fetchone_0 valeur_fonciere rows ;;
           call (SetResult "results" "tx1_read1" (py_of_num val1)) ;;
           barrier_wait None ;;
           sleep 1000 1000 ;;
           rows <- execute conn (Select (has_id mutation_id)) ;;
           val2 <- fetchone_0 valeur_fonciere rows ;;
           call (SetResult "results" "tx1_read2" (py_of_num val2)) ;;
           Ret tt))
       (except_Exception (fun _ => Ret tt)))
    (call (Close conn)).

(** [initial_details[1] + 10000] *)
Definition py_add (v : option Z) (n : Z) : prog txE Z :=
  match v with
  | Some z => Ret (z + n)%Z
  | None => Raise TypeError
  end.

Definition tx2_writer (mutation_id : nat) (initial_details : row) : thread :=
  conn <- get_connection false (Some ReadCommitted) ;;
  new_value <- py_add (valeur_fonciere initial_details) 10000 ;;
  try_finally
    (try_except
       (barrier_wait None ;;
        with_conn conn
          (execute conn (Update (has_id mutation_id)
                                (set_valeur_fonciere (Some new_value))) ;;
           Ret tt) ;;
        call (SetResult "results" "tx2_wrote" (VInt new_value)))
       (except_Exception (fun _ =>
          call (SetResult "results" "tx2_wrote" VNone))))
    (call (Close conn)).

Local Notation "'do' o" := (lift (call o)) (at level 10, o at level 9) : prog_scope.

Definition demo_non_repeatable_read (offset : nat) : prog mainE unit :=
  conn_setup <- lift (get_connection true None) ;;
  mutation_id <- lift (get_random_mutation_id conn_setup offset) ;;
  match mutation_id with
  | None | Some 0 => do (Close conn_setup)
  | Some mutation_id =>
      initial_details <- lift (get_mutation_details conn_setup mutation_id) ;;
      do (Close conn_setup) ;;
      match initial_details with
      | None => Ret tt
      | Some initial_details =>
          call (NewBarrier 2) ;;
          call (StartJoin [tx1_reader mutation_id;
                           tx2_writer mutation_id initial_details]) ;;
          (* restore *)
          conn_cleanup <- lift (get_connection true None) ;;
          try_finally
            (try_except
               (lift (execute conn_cleanup
                        (Update (has_id mutation_id)
                           (set_valeur_fonciere (valeur_fonciere initial_details)))) ;;
                Ret tt)
               (except_Exception (fun _ => Ret tt)))
            (do (Close conn_cleanup))
      end
  end.

(** ** Phantom read, lines 232-383 *)

Definition test_commune : string := "01053".
Definition test_value : Z := 9999999.

(** [code_commune = %s AND valeur_fonciere > %s] with
    [(test_commune, test_value - 1)] *)
Definition expensive_in_test_commune (r : row) : bool :=
  in_commune (Some test_commune) r
  && sql_gt (valeur_fonciere r) (Some (test_value - 1)%Z).

Definition phantom_reader (level : isolation) (results : string) : thread :=
  conn <- get_connection false (Some level) ;;
  try_finally
    (try_except
       (with_conn conn
          (rows <- execute conn (Select expensive_in_test_commune) ;;
           let count1 := length rows in
           call (SetResult results "tx1_read1" (VInt (Z.of_nat count1))) ;;
           barrier_wait None ;;
           sleep 1000 1000 ;;
           rows <- execute conn (Select expensive_in_test_commune) ;;
           let count2 := length rows in
           call (SetResult results "tx1_read2" (VInt (Z.of_nat count2))) ;;
           Ret tt))
       (except_Exception (fun _ => Ret tt)))
    (call (Close conn)).

Definition tx1_reader_rc : thread := phantom_reader ReadCommitted "results_rc".
Definition tx1_reader_rr : thread := phantom_reader RepeatableRead "results_rr".

(** The [finally] block of the inserters reads [new_id], which is set only
    when [transaction_register_sale] returns: the [try] statement hands it
    over, [None] from the [except] clause. *)
Definition phantom_inserter (results nom : string) (sale_no : nat) : thread :=
  conn <- get_connection false (Some ReadCommitted) ;;
  let sale := mkSale test_commune (2024, 1, 1) test_value nom "Maison" in
  new_id <- try_except
    (barrier_wait None ;;
     new_id <- transaction_register_sale conn sale sale_no ;;
     call (SetResult results "tx2_inserted" (VBool (bool_decide (new_id <> None)))) ;;
     Ret new_id)
    (except_Exception (fun _ =>
       call (SetResult results "tx2_inserted" (VBool false)) ;;
       Ret None)) ;;
  (* finally *)
  call (Close conn) ;;
  match new_id with
  | None | Some 0 => Ret tt
  | Some new_id =>
      conn_cleanup <- get_connection true None ;;
      try_finally
        (try_except
           (execute conn_cleanup (Delete (has_id new_id)) ;;
            Ret tt)
           (except_Exception (fun _ => Ret tt)))
        (call (Close conn_cleanup))
  end.

Definition tx2_inserter_rc : nat -> thread := phantom_inserter "results_rc" "Phantom Test".
Definition tx2_inserter_rr : nat -> thread := phantom_inserter "results_rr" "Phantom Test RR".

(** [sale_no_rc], [sale_no_rr]: the draws of [random.randint(10000, 99999)]. *)
Definition demo_phantom_read (sale_no_rc sale_no_rr : nat) : prog mainE unit :=
  call (NewBarrier 2) ;;
  call (StartJoin [tx1_reader_rc; tx2_inserter_rc sale_no_rc]) ;;
  call (NewBarrier 2) ;;
  call (StartJoin [tx1_reader_rr; tx2_inserter_rr sale_no_rr]).


(** ** Serialization failure, lines 386-498 *)

Definition test_code_commune : string := "01344".

(** The three [except] clauses of the updaters: all roll back, the first
    also records the failure. *)
Definition updater_except (conn : conn) (success_key : string)
  : exn -> option (prog txE unit) :=
  fun e =>
    if is_serialization_failure e then
      Some (call (SetResult "results" success_key (VBool false)) ;;
            call (Rollback conn))
    else Some (call (Rollback conn)).

(** [n1] is the draw of [random.randint(0,99)]. *)
Definition tx1_updater (original_name : option string) (n1 : nat) : thread :=
  conn <- get_connection false (Some RepeatableRead) ;;
  try_finally
    (try_except
       (call (SetAutocommit conn false) ;;
        barrier_wait None ;;
        success <- transaction_update_commune_name conn test_code_commune
                     original_name
                     (py_str original_name +:+ "_TX1_" +:+ str_nat n1) ;;
        call (SetResult "results" "tx1_success" (VBool success)) ;;
        if success : bool then commit conn else call (Rollback conn))
       (updater_except conn "tx1_success"))
    (call (Close conn)).

Definition tx2_updater (original_name : option string) (n2 : nat) : thread :=
  conn <- get_connection false (Some RepeatableRead) ;;
  try_finally
    (try_except
       (call (SetAutocommit conn false) ;;
        barrier_wait None ;;
        sleep 300 300 ;;
        success <- transaction_update_commune_name conn test_code_commune
                     original_name
                     (py_str original_name +:+ "_TX2_" +:+ str_nat n2) ;;
        call (SetResult "results" "tx2_success" (VBool success)) ;;
        if success : bool then commit conn else call (Rollback conn))
       (updater_except conn "tx2_success"))
    (call (Close conn)).

Definition demo_serialization_failure (n1 n2 : nat) : prog mainE unit :=
  conn_setup <- lift (get_connection true None) ;;
  original_name <- try_except
    (rows <- lift (execute conn_setup (Select (in_commune (Some test_code_commune)))) ;;
     name <- lift (fetchone_0 nom_commune rows) ;;
     Ret (Some name))
    (except_Exception (fun _ =>
       do (Close conn_setup) ;;
       Ret None)) ;;
  match original_name with
  | None => Ret tt
  | Some original_name =>
      do (Close conn_setup) ;;
      call (NewBarrier 2) ;;
      do (SetResult "results" "tx1_success" (VBool false)) ;;
      do (SetResult "results" "tx2_success" (VBool false)) ;;
      call (StartJoin [tx1_updater original_name n1;
                       tx2_updater original_name n2]) ;;
      (* restore *)
      conn_cleanup <- lift (get_connection true None) ;;
      try_finally
        (try_except
           (lift (execute conn_cleanup
                    (Update (in_commune (Some test_code_commune))
                            (set_nom_commune original_name))) ;;
            Ret tt)
           (except_Exception (fun _ => Ret tt)))
        (do (Close conn_cleanup))
  end.

(** [results['tx1_success'] != results['tx2_success']], line 483. *)
Definition outcomes_differ (w : world) : option bool :=
  match w_results w !! ("results", "tx1_success"),
        w_results w !! ("results", "tx2_success") with
  | Some a, Some b => Some (negb (py_eqb a b))
  | _, _ => None
  end.


(** ** Every schedule

    [always P pl]: [P] holds of the pool after every schedule.  For two
    threads it is enough that [P] holds now and, for each thread, that its
    turn changes nothing or leads to a pool of which [always P] holds. *)
Definition always (P : pool -> Prop) (pl : pool) : Prop :=
  forall sched, P (run sched pl).

Lemma run_cons i s pl : run (i :: s) pl = run s (turn pl i).
Proof. reflexivity. Qed.

Lemma run_app s1 s2 pl : run (s1 ++ s2) pl = run s2 (run s1 pl).
Proof. apply fold_left_app. Qed.

Lemma turn_out_of_range pl i : length (p_threads pl) <= i -> turn pl i = pl.
Proof.
  intros H. unfold turn, step. rewrite lookup_ge_None_2 by exact H. reflexivity.
Qed.

Lemma always_intro P pl :
  length (p_threads pl) = 2 -> P pl ->
  (turn pl 0 = pl \/ always P (turn pl 0)) ->
  (turn pl 1 = pl \/ always P (turn pl 1)) ->
  always P pl.
Proof.
  intros Hlen HP H0 H1 sched. induction sched as [|i rest IH]; [exact HP|].
  rewrite run_cons. destruct i as [|[|i]].
  - destruct H0 as [->|H0]; [exact IH|apply H0].
  - destruct H1 as [->|H1]; [exact IH|apply H1].
  - rewrite turn_out_of_range by lia. exact IH.
Qed.

Create Rewrite HintDb sym.

(** One turn of an explicit pool, computed; facts about the table at hand are
    in the rewrite database [sym]. *)
Ltac eval_turn :=
  unfold turn, step; cbn;
  repeat (progress autorewrite with sym; cbn);
  unfold sees, with_store, set_session, add_writes, end_txn, abort_txn; cbn;
  repeat (progress autorewrite with sym; cbn).

(** A schedule followed turn by turn. *)
Ltac run_step :=
  rewrite run_cons;
  match goal with
  | |- context [turn ?X ?i] =>
      let E := fresh "E" in
      eassert (E : turn X i = _) by (eval_turn; reflexivity);
      rewrite E; clear E
  end.

(** Depth-first search of the pools reachable from [pl], each settled once:
    [always P] of a pool is proved after that of its successors and kept as
    a hypothesis.  [tac] proves [P] of an explicit pool; [pre] runs before
    it, with the pool and the equations of its two turns, and may leave more
    facts about the pool among the hypotheses. *)
Ltac settle_turn E := first [left; rewrite E; reflexivity | right; rewrite E; assumption].

Ltac explore P pl tac pre k :=
  lazymatch goal with
  | H : always P pl |- _ => k tt
  | _ =>
    let E0 := fresh "E" in
    eassert (E0 : turn pl 0 = _) by (eval_turn; reflexivity);
    let E1 := fresh "E" in
    eassert (E1 : turn pl 1 = _) by (eval_turn; reflexivity);
    lazymatch type of E0 with _ = ?X0 =>
    lazymatch type of E1 with _ = ?X1 =>
      explore_next P pl X0 tac pre ltac:(fun _ =>
      explore_next P pl X1 tac pre ltac:(fun _ =>
        pre pl E0 E1;
        assert (always P pl)
          by (apply always_intro;
              [reflexivity | tac | settle_turn E0 | settle_turn E1]);
        clear E0 E1; k tt))
    end end
  end
with explore_next P pl X tac pre k :=
  tryif constr_eq X pl then k tt else explore P X tac pre k.

Ltac explore_all_with tac pre :=
  match goal with
  | |- always ?P ?pl => explore P pl tac pre ltac:(fun _ => idtac); assumption
  end.

Ltac explore_all tac := explore_all_with tac ltac:(fun pl E0 E1 => idtac).

(** [also D tacD] as [pre]: [always D] of the pool is recorded too, where it
    holds. *)
Ltac also D tacD pl E0 E1 :=
  try (assert (always D pl)
         by (apply always_intro;
             [reflexivity | tacD | settle_turn E0 | settle_turn E1])).

(** The same search where the facts of a scenario are applied by a tactic
    [rw] of its own, which looks for the terms it rewrites. *)
Ltac eval_turn_by rw :=
  unfold turn, step; cbn; rw;
  unfold sees, with_store, set_session, add_writes, end_txn, abort_txn; cbn; rw.

Ltac run_step_by rw :=
  rewrite run_cons;
  match goal with
  | |- context [turn ?X ?i] =>
      let E := fresh "E" in
      eassert (E : turn X i = _) by (eval_turn_by rw; reflexivity);
      rewrite E; clear E
  end.

Ltac explore_by rw P pl tac pre k :=
  lazymatch goal with
  | H : always P pl |- _ => k tt
  | _ =>
    let E0 := fresh "E" in
    eassert (E0 : turn pl 0 = _) by (eval_turn_by rw; reflexivity);
    let E1 := fresh "E" in
    eassert (E1 : turn pl 1 = _) by (eval_turn_by rw; reflexivity);
    lazymatch type of E0 with _ = ?X0 =>
    lazymatch type of E1 with _ = ?X1 =>
      explore_next_by rw P pl X0 tac pre ltac:(fun _ =>
      explore_next_by rw P pl X1 tac pre ltac:(fun _ =>
        pre pl E0 E1;
        assert (always P pl)
          by (apply always_intro;
              [reflexivity | tac | settle_turn E0 | settle_turn E1]);
        clear E0 E1; k tt))
    end end
  end
with explore_next_by rw P pl X tac pre k :=
  tryif constr_eq X pl then k tt else explore_by rw P X tac pre k.

Ltac explore_all_by rw tac pre :=
  match goal with
  | |- always ?P ?pl => explore_by rw P pl tac pre ltac:(fun _ => idtac); assumption
  end.

(** The [results] dictionary is kept with its keys in one order. *)
Lemma results_swap (k1 k2 : string * string) (a b : pyval)
  (m : gmap (string * string) pyval) :
  k1 <> k2 -> <[k1:=a]> (<[k2:=b]> m) = <[k2:=b]> (<[k1:=a]> m).
Proof. intros. by apply insert_insert_ne. Qed.

Lemma results_overwrite (k : string * string) (a b : pyval)
  (m : gmap (string * string) pyval) :
  <[k:=a]> (<[k:=b]> m) = <[k:=a]> m.
Proof. apply insert_insert_eq. Qed.


(** ** Non-repeatable read: every schedule *)

(** The table with [valeur_fonciere] of the rows keyed [i] replaced. *)
Definition with_valeur (i : nat) (r' : row) (tbl : list row) : list row :=
  map (fun x => if (id x =? i)%nat then r' else x) tbl.

Arguments set_valeur_fonciere : simpl never.
Arguments set_nom_commune : simpl never.

Lemma id_set_valeur_fonciere v r : id (set_valeur_fonciere v r) = id r.
Proof. reflexivity. Qed.

Lemma valeur_set_valeur_fonciere v r :
  valeur_fonciere (set_valeur_fonciere v r) = v.
Proof. reflexivity. Qed.

Lemma filter_has_id_replaced tbl r r' :
  List.filter (has_id (id r)) tbl = [r] -> id r' = id r ->
  List.filter (has_id (id r))
    (map (fun x => if (id x =? id r)%nat then r' else x) tbl) = [r'].
Proof.
  intros Hr Hid.
  assert (G : forall l,
    List.filter (has_id (id r))
      (map (fun x => if (id x =? id r)%nat then r' else x) l)
    = map (fun _ => r') (List.filter (has_id (id r)) l)).
  { induction l as [|a l IH]; simpl; [reflexivity|].
    unfold has_id in *. destruct (id a =? id r)%nat eqn:E; simpl.
    - rewrite Hid, Nat.eqb_refl. f_equal. apply IH.
    - rewrite E. apply IH. }
  rewrite G, Hr. reflexivity.
Qed.

#[export] Hint Rewrite id_set_valeur_fonciere valeur_set_valeur_fonciere : sym.
#[export] Hint Rewrite
  (fun a b m => @results_swap ("results", "tx1_read1") ("results", "tx1_read2")
                  a b m ltac:(discriminate))
  (fun a b m => @results_swap ("results", "tx1_read1") ("results", "tx2_wrote")
                  a b m ltac:(discriminate))
  (fun a b m => @results_swap ("results", "tx1_read2") ("results", "tx2_wrote")
                  a b m ltac:(discriminate)) : sym.

Lemma filter_all_true (tbl : list row) : List.filter (fun _ => true) tbl = tbl.
Proof. induction tbl as [|a l IH]; simpl; [reflexivity|now rewrite IH]. Qed.

(** Writing the recorded value back over the writer's update gives back the
    table. *)
Lemma with_valeur_restore tbl r v :
  List.filter (has_id (id r)) tbl = [r] ->
  with_valeur (id r) (set_valeur_fonciere (valeur_fonciere r) (set_valeur_fonciere v r))
    (with_valeur (id r) (set_valeur_fonciere v r) tbl) = tbl.
Proof.
  intros Hr. unfold with_valeur. rewrite map_map.
  assert (Hsame : set_valeur_fonciere (valeur_fonciere r) (set_valeur_fonciere v r) = r)
    by (destruct r; reflexivity).
  rewrite Hsame.
  assert (G : forall l, (forall x, In x l -> id x = id r -> x = r) ->
            map (fun x => if (id (if (id x =? id r)%nat
                                  then set_valeur_fonciere v r else x) =? id r)%nat
                          then r else if (id x =? id r)%nat
                                      then set_valeur_fonciere v r else x) l = l).
  { induction l as [|a l IH]; intros H; simpl; [reflexivity|].
    rewrite IH by (intros x Hx; apply H; now right). f_equal.
    destruct (id a =? id r)%nat eqn:E.
    - rewrite id_set_valeur_fonciere, Nat.eqb_refl. symmetry.
      apply H; [now left|now apply Nat.eqb_eq].
    - now rewrite E. }
  apply G. intros x Hx Hid.
  assert (Hin : In x (List.filter (has_id (id r)) tbl)).
  { apply filter_In. split; [exact Hx|]. unfold has_id. now apply Nat.eqb_eq. }
  rewrite Hr in Hin. destruct Hin as [<-|[]]. reflexivity.
Qed.

Section NonRepeatableRead.
(** The record under test [r], keyed uniquely, holds the value [V]. *)
Variables (tbl : list row) (r : row) (V : Z).
Hypothesis Hr : List.filter (has_id (id r)) tbl = [r].
Hypothesis HV : valeur_fonciere r = Some V.

Lemma filter_has_id_after_write v :
  List.filter (has_id (id r))
    (map (fun x => if (id x =? id r)%nat then set_valeur_fonciere v r else x) tbl)
  = [set_valeur_fonciere v r].
Proof using Hr. apply filter_has_id_replaced; [exact Hr|reflexivity]. Qed.

#[local] Hint Rewrite Hr HV filter_has_id_after_write : sym.

(** The world the two threads start in: the setup connection has made its
    two autocommitted queries and is closed, the barrier is new. *)
Definition nrr_world : world :=
  mkWorld (mkStore tbl 2 [] (S (list_max (map id tbl)))
                   [mkSession ReadCommitted true true Idle [] 0 []])
          2 0 ∅.

Definition nrr_pool : pool :=
  mkPool nrr_world [tx1_reader (id r); tx2_writer (id r) r].

(** What holds once both threads have ended. *)
Definition nrr_final (pl : pool) : Prop :=
  all_done pl = true ->
  let w := p_world pl in
  committed (w_store w) = with_valeur (id r) (set_valeur_fonciere (Some (V + 10000)%Z) r) tbl
  /\ no_open_transaction (w_store w) = true
  /\ length (sessions (w_store w)) = 3
  /\ w_results w !! ("results", "tx1_read1") = Some (VInt V)
  /\ w_results w !! ("results", "tx2_wrote") = Some (VInt (V + 10000))
  /\ (w_results w !! ("results", "tx1_read2") = Some (VInt V)
      \/ w_results w !! ("results", "tx1_read2") = Some (VInt (V + 10000))).

Ltac nrr_final_tac :=
  unfold nrr_final; cbn; intros Hd;
  first [ discriminate Hd
        | repeat split; first [reflexivity | left; reflexivity | right; reflexivity] ].

Lemma nrr_every_schedule : always nrr_final nrr_pool.
Proof using Hr HV.
  unfold nrr_pool, nrr_world, tx1_reader, tx2_writer. cbn.
  autorewrite with sym.
  explore_all nrr_final_tac.
Qed.

(** The interleaving the scenario is written for: the reader runs until it
    waits at the barrier (connect, first read, record it, arrive); the writer
    runs to its end (connect, arrive, pass, update, commit, record, close);
    the reader resumes (pass, sleep, second read, record it, commit,
    close). *)
Definition nrr_schedule : list nat := repeat 0 4 ++ repeat 1 7 ++ repeat 0 6.

Lemma nrr_schedule_run :
  all_done (run nrr_schedule nrr_pool) = true
  /\ w_results (p_world (run nrr_schedule nrr_pool)) !! ("results", "tx1_read2")
     = Some (VInt (V + 10000)).
Proof using Hr HV.
  change nrr_schedule with [0; 0; 0; 0; 1; 1; 1; 1; 1; 1; 1; 0; 0; 0; 0; 0; 0].
  unfold nrr_pool, nrr_world, tx1_reader, tx2_writer.
  do 17 run_step. split; reflexivity.
Qed.

End NonRepeatableRead.

Lemma filter_with_valeur tbl r v :
  List.filter (has_id (id r)) tbl = [r] ->
  List.filter (has_id (id r)) (with_valeur (id r) (set_valeur_fonciere v r) tbl)
  = [set_valeur_fonciere v r].
Proof. intros Hr. apply (filter_has_id_after_write tbl r Hr). Qed.

(** [results['tx1_read1'] != results['tx1_read2']]: the anomaly predicate of
    the scenario (line 181 compares the same two values). *)
Definition reads_differ (w : world) : option bool :=
  match w_results w !! ("results", "tx1_read1"),
        w_results w !! ("results", "tx1_read2") with
  | Some a, Some b => Some (negb (py_eqb a b))
  | _, _ => None
  end.

Section NonRepeatableReadDemo.
(** The store draws the record [r] (row number [offset] of the table); its
    key is unique and not 0 (a key 0 reads as "no id" at line 141); its value
    is [V]. *)
Variables (tbl : list row) (r : row) (V : Z) (offset : nat).
Hypothesis Hpick : nth_error tbl offset = Some r.
Hypothesis Hid : id r <> 0.
Hypothesis Hr : List.filter (has_id (id r)) tbl = [r].
Hypothesis HV : valeur_fonciere r = Some V.

(** Once the joins return, the restore runs and the demo ends: the table is
    the one before the scenario and the dictionary is as the threads left
    it.  If the joins do not return, nothing more happens. *)
Lemma nrr_demo_joined sched :
  let res := run_main (demo_non_repeatable_read offset) [sched] (init_world tbl) in
  (all_done (run sched (nrr_pool tbl r)) = false -> res = None)
  /\ (all_done (run sched (nrr_pool tbl r)) = true ->
      exists w', res = Some (Returned tt, w')
        /\ committed (w_store w') = tbl
        /\ no_open_transaction (w_store w') = true
        /\ w_results w' = w_results (p_world (run sched (nrr_pool tbl r)))).
Proof using All.
  unfold demo_non_repeatable_read, get_connection, get_random_mutation_id,
    get_mutation_details.
  cbn. rewrite filter_all_true, Hpick. cbn.
  destruct (id r) as [|m] eqn:E; [congruence|]. clear Hid.
  cbn. rewrite <- E in Hr |- *. rewrite Hr. cbn.
  match goal with
  | |- context [run sched (mkPool ?w ?ts)] =>
      change (mkPool w ts) with (nrr_pool tbl r)
  end.
  destruct (all_done (run sched (nrr_pool tbl r))) eqn:Hd;
    [split; [discriminate|intros _] | split; [reflexivity|discriminate]].
  destruct (nrr_every_schedule tbl r V Hr HV sched Hd) as (Hc & Hq & Hlen & _).
  set (w := p_world (run sched (nrr_pool tbl r))) in *. clearbody w.
  destruct w as [[ct ck wl nx ss] pa ar re]. cbn in Hc, Hq, Hlen.
  subst ct. destruct ss as [|s0 [|s1 [|s2 [|]]]]; try discriminate Hlen.
  cbn in Hq. unfold in_txn in Hq.
  destruct (s_status s0) eqn:E0; try discriminate Hq;
  destruct (s_status s1) eqn:E1; try discriminate Hq;
  destruct (s_status s2) eqn:E2; try discriminate Hq.
  all: cbn;
    rewrite check_targets_unlocked
      by (first [ reflexivity
                | intros i; unfold locked_by_other, holds_lock, in_txn; cbn;
                  rewrite E0, E1, E2; reflexivity ]);
    rewrite !(filter_with_valeur tbl r _ Hr); cbn;
    eexists; (split; [reflexivity|]); cbn;
    unfold in_txn; rewrite E0, E1, E2; cbn;
    (split; [exact (with_valeur_restore tbl r _ Hr)|]); auto.
Qed.

End NonRepeatableReadDemo.



(** The connection of a SELECT. *)
Definition select_conn {R} (o : txE R) : option conn :=
  match o with
  | Execute c q => match q with Select _ => Some c | _ => None end
  | _ => None
  end.

(** The next call of the reader (the first thread) is a SELECT on a session
    that is inside a transaction: its first read has begun the transaction,
    which is still open, and its second read comes next. *)
Definition next_select (t : thread) : option conn :=
  match t with Vis o _ => select_conn o | _ => None end.

Definition at_second_read (pl : pool) : bool :=
  match p_threads pl !! 0 with
  | Some t =>
      match next_select t with
      | Some c =>
          match sessions (w_store (p_world pl)) !! c with
          | Some ss => in_txn ss && negb (s_closed ss)
          | None => false
          end
      | None => false
      end
  | None => false
  end.

Section NonRepeatableReadOrder.
Variables (tbl : list row) (r : row) (V : Z).
Hypothesis Hr : List.filter (has_id (id r)) tbl = [r].
Hypothesis HV : valeur_fonciere r = Some V.

#[local] Hint Rewrite Hr HV (filter_has_id_after_write tbl r Hr) : sym.

(** The table once the writer's update is committed. *)
Definition nrr_updated : list row :=
  with_valeur (id r) (set_valeur_fonciere (Some (V + 10000)%Z) r) tbl.

Lemma nrr_updated_differs : nrr_updated <> tbl.
Proof using Hr HV.
  intros H.
  pose proof (filter_with_valeur tbl r (Some (V + 10000)%Z) Hr) as Hf.
  fold nrr_updated in Hf. rewrite H, Hr in Hf.
  injection Hf as Hf. apply (f_equal valeur_fonciere) in Hf.
  rewrite valeur_set_valeur_fonciere, HV in Hf. injection Hf as Hf. lia.
Qed.

(** Once both threads have ended, the second read recorded is [v]. *)
Definition second_read_is (v : Z) (pl : pool) : Prop :=
  all_done pl = true ->
  w_results (p_world pl) !! ("results", "tx1_read2") = Some (VInt v).

Ltac second_read_tac :=
  unfold second_read_is; cbn; intros Hd;
  first [discriminate Hd | reflexivity].

(** When the reader comes to its second read with the writer's update
    committed, that read gives the new value however the schedule goes
    on. *)
Definition read_follows_commit (pl : pool) : Prop :=
  at_second_read pl = true ->
  committed (w_store (p_world pl)) = nrr_updated ->
  always (second_read_is (V + 10000)) pl.

Ltac read_follows_tac :=
  unfold read_follows_commit; intros Hs Hc; lazy in Hs;
  first [ discriminate Hs
        | assumption
        | exfalso; exact (nrr_updated_differs (eq_sym Hc)) ].

Lemma nrr_read_follows_commit : always read_follows_commit (nrr_pool tbl r).
Proof using Hr HV.
  unfold nrr_pool, nrr_world, tx1_reader, tx2_writer. cbn.
  autorewrite with sym.
  explore_all_with read_follows_tac
    ltac:(also (second_read_is (V + 10000)) second_read_tac).
Qed.

(** In [nrr_schedule] the commit falls between the two reads: after its
    first thirteen turns the reader is at its second read and the update is
    committed. *)
Lemma nrr_schedule_commit_between :
  let pl := run (firstn 13 nrr_schedule) (nrr_pool tbl r) in
  at_second_read pl = true /\ committed (w_store (p_world pl)) = nrr_updated.
Proof using Hr HV.
  change (firstn 13 nrr_schedule) with [0; 0; 0; 0; 1; 1; 1; 1; 1; 1; 1; 0; 0].
  unfold nrr_pool, nrr_world, tx1_reader, tx2_writer.
  do 13 run_step. split; reflexivity.
Qed.

End NonRepeatableReadOrder.

(** C5.  Let the store draw a record with a unique key whose value is [V].
    [V + 10000] differs from [V].  Whenever the writer's commit falls
    between the reader's two reads, that is: under every schedule that
    brings the reader to its second read (its next call is a SELECT on its
    session, still inside the transaction its first read began) with the
    update committed, and then lets the demo end, the first read is [V],
    the writer wrote [V + 10000], the second read is [V + 10000] and the
    anomaly predicate is true.  The grace delay of the reader is what
    brings this order about; the model takes the order as the hypothesis.
    The interleaving the scenario is written for ([nrr_schedule]) is such a
    schedule and the demo ends under it.  Under any schedule that lets the
    demo end, the first read is [V] and the second is [V] or
    [V + 10000]. *)
Theorem non_repeatable_read_at_read_committed
  (tbl : list row) (r : row) (V : Z) (offset : nat) :
  nth_error tbl offset = Some r ->
  id r <> 0 ->
  List.filter (has_id (id r)) tbl = [r] ->
  valeur_fonciere r = Some V ->
  (V + 10000 <> V)%Z
  /\ (forall s1 s2 w',
        at_second_read (run s1 (nrr_pool tbl r)) = true ->
        committed (w_store (p_world (run s1 (nrr_pool tbl r)))) = nrr_updated tbl r V ->
        run_main (demo_non_repeatable_read offset) [s1 ++ s2] (init_world tbl)
          = Some (Returned tt, w') ->
        w_results w' !! ("results", "tx1_read1") = Some (VInt V)
        /\ w_results w' !! ("results", "tx2_wrote") = Some (VInt (V + 10000))
        /\ w_results w' !! ("results", "tx1_read2") = Some (VInt (V + 10000))
        /\ reads_differ w' = Some true)
  /\ (exists s1 s2,
        nrr_schedule = s1 ++ s2
        /\ at_second_read (run s1 (nrr_pool tbl r)) = true
        /\ committed (w_store (p_world (run s1 (nrr_pool tbl r)))) = nrr_updated tbl r V)
  /\ (exists w',
        run_main (demo_non_repeatable_read offset) [nrr_schedule] (init_world tbl)
          = Some (Returned tt, w')
        /\ w_results w' !! ("results", "tx1_read1") = Some (VInt V)
        /\ w_results w' !! ("results", "tx2_wrote") = Some (VInt (V + 10000))
        /\ w_results w' !! ("results", "tx1_read2") = Some (VInt (V + 10000))
        /\ reads_differ w' = Some true)
  /\ (forall sched w',
        run_main (demo_non_repeatable_read offset) [sched] (init_world tbl)
          = Some (Returned tt, w') ->
        w_results w' !! ("results", "tx1_read1") = Some (VInt V)
        /\ (w_results w' !! ("results", "tx1_read2") = Some (VInt V)
            \/ w_results w' !! ("results", "tx1_read2") = Some (VInt (V + 10000)))).
Proof.
  intros Hpick Hid Hr HV.
  assert (Hjoin : forall sched w',
    run_main (demo_non_repeatable_read offset) [sched] (init_world tbl)
      = Some (Returned tt, w') ->
    all_done (run sched (nrr_pool tbl r)) = true
    /\ w_results w' = w_results (p_world (run sched (nrr_pool tbl r)))).
  { intros sched w' Hres.
    destruct (nrr_demo_joined tbl r V offset Hpick Hid Hr HV sched) as [Hh Hj].
    destruct (all_done (run sched (nrr_pool tbl r))) eqn:Hd.
    - destruct (Hj eq_refl) as (w'' & Hres' & _ & _ & Hre).
      cbv zeta in Hres'. rewrite Hres in Hres'. injection Hres' as <-.
      split; [reflexivity|exact Hre].
    - specialize (Hh eq_refl). cbv zeta in Hh. congruence. }
  assert (Hafter : forall s1 s2 w',
    at_second_read (run s1 (nrr_pool tbl r)) = true ->
    committed (w_store (p_world (run s1 (nrr_pool tbl r)))) = nrr_updated tbl r V ->
    run_main (demo_non_repeatable_read offset) [s1 ++ s2] (init_world tbl)
      = Some (Returned tt, w') ->
    w_results w' !! ("results", "tx1_read1") = Some (VInt V)
    /\ w_results w' !! ("results", "tx2_wrote") = Some (VInt (V + 10000))
    /\ w_results w' !! ("results", "tx1_read2") = Some (VInt (V + 10000))
    /\ reads_differ w' = Some true).
  { intros s1 s2 w' Hs Hc Hres.
    destruct (Hjoin _ _ Hres) as [Hd Hre].
    destruct (nrr_every_schedule tbl r V Hr HV (s1 ++ s2) Hd)
      as (_ & _ & _ & H1 & Hw & _).
    pose proof (nrr_read_follows_commit tbl r V Hr HV s1 Hs Hc s2) as H2.
    rewrite <- run_app in H2. specialize (H2 Hd).
    rewrite Hre. repeat split; try assumption.
    unfold reads_differ. rewrite Hre, H1, H2. cbn.
    f_equal. apply negb_true_iff, Z.eqb_neq. lia. }
  destruct (nrr_schedule_commit_between tbl r V Hr HV) as [Hs Hc].
  split; [lia|]. split; [exact Hafter|]. split; [|split].
  - exists (firstn 13 nrr_schedule), (skipn 13 nrr_schedule).
    split; [reflexivity|]. split; assumption.
  - destruct (nrr_schedule_run tbl r V Hr HV) as [Hd _].
    destruct (nrr_demo_joined tbl r V offset Hpick Hid Hr HV nrr_schedule)
      as [_ Hj].
    destruct (Hj Hd) as (w' & Hres & _).
    exists w'. split; [exact Hres|].
    apply (Hafter (firstn 13 nrr_schedule) (skipn 13 nrr_schedule) w' Hs Hc).
    exact Hres.
  - intros sched w' Hres.
    destruct (Hjoin _ _ Hres) as [Hd Hre]. rewrite Hre.
    destruct (nrr_every_schedule tbl r V Hr HV sched Hd)
      as (_ & _ & _ & H1 & _ & H2).
    split; assumption.
Qed.

(** A table of two records; the first has the value 100000. *)
Definition row_1 : row :=
  mkRow 1 (Some "2017-1") (Some (2017, 3, 1)) (Some "Vente") (Some 100000%Z)
        (Some "51200.0") (Some "01344") (Some "Bourg") (Some "Maison").

Definition row_2 : row :=
  mkRow 2 (Some "2018-7") (Some (2018, 6, 2)) (Some "Vente") None
        (Some "51200.0") (Some "01344") (Some "Bourg-en-Bresse") (Some "Maison").

Lemma non_repeatable_read_at_read_committed_witness :
  at_second_read (run (firstn 13 nrr_schedule) (nrr_pool [row_1; row_2] row_1)) = true
  /\ exists w',
       run_main (demo_non_repeatable_read 0) [nrr_schedule] (init_world [row_1; row_2])
         = Some (Returned tt, w')
       /\ w_results w' !! ("results", "tx1_read2") = Some (VInt 110000)
       /\ reads_differ w' = Some true.
Proof.
  assert (Hs : at_second_read
                 (run (firstn 13 nrr_schedule) (nrr_pool [row_1; row_2] row_1)) = true)
    by (vm_compute; reflexivity).
  assert (Hc : committed (w_store (p_world
                 (run (firstn 13 nrr_schedule) (nrr_pool [row_1; row_2] row_1))))
               = nrr_updated [row_1; row_2] row_1 100000)
    by (vm_compute; reflexivity).
  split; [exact Hs|].
  destruct (non_repeatable_read_at_read_committed [row_1; row_2] row_1 100000 0
              eq_refl ltac:(discriminate) eq_refl eq_refl)
    as (_ & Hall & _ & (w' & Hres & _) & _).
  exists w'. split; [exact Hres|].
  destruct (Hall (firstn 13 nrr_schedule) (skipn 13 nrr_schedule) w' Hs Hc Hres)
    as (_ & _ & H2 & Hd).
  split; assumption.
Defined.

(** The dry run on the example table: the first record is older than 2018
    and its deletion is pending after the fourth call. *)
Lemma archive_dry_run_restores_witness :
  length (List.filter (older_than (2018, 1, 1)) [row_1; row_2]) <> 0
  /\ exists w4,
       run_seq_log (run_archive_test_with_rollback (2018, 1, 1))
                   (init_world [row_1; row_2]) !! 3 = Some (EvExecute 0 None, w4)
       /\ txn_pending w4 0 [WDelete 1]
       /\ count_seen w4 0 (2018, 1, 1) = Some 0.
Proof.
  assert (Hn : length (List.filter (older_than (2018, 1, 1)) [row_1; row_2]) <> 0)
    by (simpl; discriminate).
  split; [exact Hn|].
  destruct (archive_dry_run_restores [row_1; row_2] (2018, 1, 1))
    as (w' & _ & _ & _ & _ & _ & H).
  destruct (H Hn) as (w1 & w2 & w3 & w4 & w5 & w6 & w7 & w8 & Hlog & _ & _ & Hp & Hc & _).
  exists w4. rewrite Hlog. split; [reflexivity|]. split; assumption.
Defined.


(** ** A missed rendezvous *)

(** [threading.Barrier.wait()] called without a timeout. *)
Definition is_untimed_wait {R} (o : txE R) : bool :=
  match o with BarrierAwait None => true | _ => false end.

(** The thread's next call is a barrier wait without timeout. *)
Definition at_untimed_wait (t : thread) : bool :=
  match t with Vis o _ => is_untimed_wait o | _ => false end.

Definition raised_barrier_error (t : thread) : bool :=
  match t with Raise BrokenBarrierError => true | _ => false end.

(** The sessions the threads of a scenario opened: all but the setup
    session, which is the first. *)
Definition thread_sessions (pl : pool) : list session :=
  tail (sessions (w_store (p_world pl))).

(** The reader has not ended, no thread has closed its session, no thread
    has ended with [BrokenBarrierError] and nothing but the reader's first
    read (of a NULL) is recorded. *)
Definition reader_stuck (pl : pool) : Prop :=
  all_done pl = false
  /\ (exists t, p_threads pl !! 0 = Some t /\ finished t = false)
  /\ forallb (fun ss => negb (s_closed ss)) (thread_sessions pl) = true
  /\ existsb raised_barrier_error (p_threads pl) = false
  /\ (w_results (p_world pl) = ∅
      \/ w_results (p_world pl) = <[("results", "tx1_read1") := VNone]> ∅).

(** The reader runs to its wait (connect, first read, record it, arrive)
    and the writer to its [TypeError] (connect, then the addition). *)
Definition missed_schedule : list nat := [0; 0; 0; 0; 1].

(** A pool of two threads in which no thread can make a call stays as it
    is. *)
Lemma run_stuck pl :
  length (p_threads pl) = 2 -> turn pl 0 = pl -> turn pl 1 = pl ->
  forall s, run s pl = pl.
Proof.
  intros Hlen H0 H1 s. induction s as [|i s IH]; [reflexivity|].
  rewrite run_cons. destruct i as [|[|i]].
  - now rewrite H0.
  - now rewrite H1.
  - rewrite turn_out_of_range by lia. exact IH.
Qed.

Section MissedRendezvous.
(** The store draws a record whose value is NULL: the writer dies in
    [initial_details[1] + 10000], before the barrier. *)
Variables (tbl : list row) (r : row) (offset : nat).
Hypothesis Hpick : nth_error tbl offset = Some r.
Hypothesis Hid : id r <> 0.
Hypothesis Hr : List.filter (has_id (id r)) tbl = [r].
Hypothesis HV : valeur_fonciere r = None.

#[local] Hint Rewrite Hr HV : sym.

Definition not_joined (pl : pool) : Prop := all_done pl = false.

Lemma nrr_never_joined : always not_joined (nrr_pool tbl r).
Proof using Hr HV.
  unfold nrr_pool, nrr_world, tx1_reader, tx2_writer. cbn.
  autorewrite with sym.
  explore_all ltac:(reflexivity).
Qed.

Ltac reader_stuck_tac :=
  unfold reader_stuck, thread_sessions; cbn;
  repeat apply conj;
  first [ reflexivity | eexists; split; reflexivity
        | left; reflexivity | right; reflexivity ].

Lemma nrr_reader_stuck : always reader_stuck (nrr_pool tbl r).
Proof using Hr HV.
  unfold nrr_pool, nrr_world, tx1_reader, tx2_writer. cbn.
  autorewrite with sym.
  explore_all reader_stuck_tac.
Qed.

(** After [missed_schedule] the reader is at its untimed wait inside its
    open transaction, the writer has ended with [TypeError], and no turn
    changes anything. *)
Lemma nrr_missed_pool :
  let pl := run missed_schedule (nrr_pool tbl r) in
  (exists t ss,
     p_threads pl = [t; Raise TypeError]
     /\ at_untimed_wait t = true
     /\ sessions (w_store (p_world pl)) !! 1 = Some ss
     /\ s_closed ss = false /\ s_status ss = InTxn)
  /\ forall s, run s pl = pl.
Proof using Hr HV.
  unfold missed_schedule, nrr_pool, nrr_world, tx1_reader, tx2_writer.
  do 5 run_step. cbn. split.
  - do 2 eexists. repeat apply conj; reflexivity.
  - apply run_stuck; reflexivity.
Qed.

End MissedRendezvous.

Lemma nrr_demo_hangs (tbl : list row) (r : row) (offset : nat) scheds :
  nth_error tbl offset = Some r ->
  id r <> 0 ->
  List.filter (has_id (id r)) tbl = [r] ->
  valeur_fonciere r = None ->
  run_main (demo_non_repeatable_read offset) scheds (init_world tbl) = None.
Proof.
  intros Hpick Hid Hr HV.
  pose proof (nrr_never_joined tbl r Hr HV) as Hnj.
  unfold demo_non_repeatable_read, get_connection, get_random_mutation_id,
    get_mutation_details.
  cbn. rewrite filter_all_true, Hpick. cbn.
  destruct (id r) as [|m] eqn:E; [congruence|]. clear Hid.
  cbn. rewrite <- E in Hr |- *. rewrite Hr. cbn.
  destruct scheds as [|sched rest]; [reflexivity|].
  match goal with
  | |- context [run sched (mkPool ?w ?ts)] =>
      change (mkPool w ts) with (nrr_pool tbl r)
  end.
  now rewrite (Hnj sched).
Qed.


(** No barrier wait of a program carries a timeout. *)
Fixpoint waits_without_timeout {A} (p : prog txE A) : Prop :=
  match p with
  | Ret _ | Raise _ => True
  | Vis o k =>
      match o with
      | BarrierAwait (Some _) => False
      | _ => True
      end
      /\ forall r, waits_without_timeout (k r)
  end.

Ltac no_timeout_tac :=
  repeat (cbn; intros;
          match goal with
          | |- _ /\ _ => split
          | |- True => exact I
          | |- context [match sql_avg ?l with _ => _ end] => destruct (sql_avg l)
          | |- context [match valeur_fonciere ?x with _ => _ end] =>
              destruct (valeur_fonciere x)
          | |- context [match ?x with _ => _ end] => is_var x; destruct x
          end).

Lemma scenario_waits_without_timeout
  (mutation_id : nat) (initial_details : row) (original_name : option string)
  (n : nat) :
  waits_without_timeout (tx1_reader mutation_id)
  /\ waits_without_timeout (tx2_writer mutation_id initial_details)
  /\ waits_without_timeout tx1_reader_rc
  /\ waits_without_timeout tx1_reader_rr
  /\ waits_without_timeout (tx2_inserter_rc n)
  /\ waits_without_timeout (tx2_inserter_rr n)
  /\ waits_without_timeout (tx1_updater original_name n)
  /\ waits_without_timeout (tx2_updater original_name n).
Proof.
  unfold tx1_reader, tx2_writer, tx1_reader_rc, tx1_reader_rr, tx2_inserter_rc,
    tx2_inserter_rr, phantom_reader, phantom_inserter, tx1_updater, tx2_updater,
    transaction_register_sale, transaction_update_commune_name, py_add,
    fetchone_0, updater_except.
  repeat split; no_timeout_tac.
Qed.

(** An untimed wait makes no step while fewer parties than the barrier's
    have arrived, and a step it makes answers "released". *)
Lemma untimed_wait_blocks (w : world) :
  (w_arrived w < w_parties w -> exec_op (BarrierAwait None) w = None)
  /\ (forall b w', exec_op (BarrierAwait None) w = Some (b, w') -> b = true /\ w' = w).
Proof.
  unfold exec_op. destruct (Nat.leb_spec (w_parties w) (w_arrived w)).
  - split; [lia|]. intros b w' E. injection E as <- <-. auto.
  - split; [reflexivity|]. discriminate.
Qed.

(** C3, as amended.  No barrier wait of the eight scenario threads carries
    a timeout.  When one party never arrives (here: the record drawn for the
    non-repeatable-read scenario has a NULL value, so the writer dies with a
    [TypeError] before its wait), then under every schedule and at every
    moment: the threads have not all ended, the reader has not ended, no
    thread has closed its session, no thread has ended with
    [BrokenBarrierError], and nothing is recorded but the reader's first
    read.  Once the reader has reached its wait and the writer has died
    ([missed_schedule]), the reader's next call is the untimed wait, its
    session is open inside its transaction, and no schedule changes the pool
    any more.  The joins never return: the demo does not get to its
    restore, whatever the schedules. *)
Theorem missed_rendezvous_blocks_forever
  (tbl : list row) (r : row) (offset : nat) :
  nth_error tbl offset = Some r ->
  id r <> 0 ->
  List.filter (has_id (id r)) tbl = [r] ->
  valeur_fonciere r = None ->
  (forall mutation_id initial_details original_name n,
     waits_without_timeout (tx1_reader mutation_id)
     /\ waits_without_timeout (tx2_writer mutation_id initial_details)
     /\ waits_without_timeout tx1_reader_rc
     /\ waits_without_timeout tx1_reader_rr
     /\ waits_without_timeout (tx2_inserter_rc n)
     /\ waits_without_timeout (tx2_inserter_rr n)
     /\ waits_without_timeout (tx1_updater original_name n)
     /\ waits_without_timeout (tx2_updater original_name n))
  /\ (forall sched, reader_stuck (run sched (nrr_pool tbl r)))
  /\ (let pl := run missed_schedule (nrr_pool tbl r) in
      (exists t ss,
         p_threads pl = [t; Raise TypeError]
         /\ at_untimed_wait t = true
         /\ sessions (w_store (p_world pl)) !! 1 = Some ss
         /\ s_closed ss = false /\ s_status ss = InTxn)
      /\ forall s, run (missed_schedule ++ s) (nrr_pool tbl r) = pl)
  /\ (forall scheds,
        run_main (demo_non_repeatable_read offset) scheds (init_world tbl) = None).
Proof.
  intros Hpick Hid Hr HV. split; [|split; [|split]].
  - exact scenario_waits_without_timeout.
  - exact (nrr_reader_stuck tbl r Hr HV).
  - destruct (nrr_missed_pool tbl r Hr HV) as [Hp Hs].
    split; [exact Hp|]. intros s. rewrite run_app. apply Hs.
  - intros scheds. now apply (nrr_demo_hangs tbl r offset).
Qed.

(** The second record of the example table has no value. *)
Lemma missed_rendezvous_example :
  valeur_fonciere row_2 = None
  /\ (forall scheds,
        run_main (demo_non_repeatable_read 1) scheds (init_world [row_1; row_2])
        = None).
Proof.
  split; [reflexivity|]. intros scheds.
  now apply (nrr_demo_hangs [row_1; row_2] row_2 1).
Qed.

Lemma missed_rendezvous_blocks_forever_witness :
  nth_error [row_1; row_2] 1 = Some row_2
  /\ (forall sched, all_done (run sched (nrr_pool [row_1; row_2] row_2)) = false)
  /\ (forall scheds,
        run_main (demo_non_repeatable_read 1) scheds (init_world [row_1; row_2])
        = None).
Proof.
  split; [reflexivity|].
  destruct (missed_rendezvous_blocks_forever [row_1; row_2] row_2 1
              eq_refl ltac:(discriminate) eq_refl eq_refl)
    as (_ & Hstuck & _ & Hmain).
  split; [|exact Hmain].
  intros sched. exact (proj1 (Hstuck sched)).
Defined.


(** ** Serialization failure: every schedule *)

Lemma id_set_nom_commune n r : id (set_nom_commune n r) = id r.
Proof. reflexivity. Qed.

Lemma check_targets_wait st c ss t0 ts :
  locked_by_other st c (id t0) = true -> check_targets st c ss (t0 :: ts) = Wait.
Proof. intros H. simpl. now rewrite H. Qed.

Lemma check_targets_conflict st c ss t0 ts :
  locked_by_other st c (id t0) = false -> s_isolation ss = RepeatableRead ->
  written_since st (s_snap_clock ss) (id t0) = true ->
  check_targets st c ss (t0 :: ts) = Conflict.
Proof. intros H1 H2 H3. simpl. now rewrite H1, H2, H3. Qed.

Lemma check_targets_go st c ss targets :
  (forall i, locked_by_other st c i = false) ->
  (forall i, written_since st (s_snap_clock ss) i = false) ->
  check_targets st c ss targets = Go.
Proof.
  intros H1 H2. induction targets as [|r rest IH]; simpl; [reflexivity|].
  rewrite H1, H2, IH. now destruct (s_isolation ss).
Qed.


Lemma append_neq (s suffix : string) : suffix <> "" -> s +:+ suffix <> s.
Proof.
  intros Hs. induction s as [|a s IH]; simpl; [exact Hs|].
  intros H. injection H as H. exact (IH H).
Qed.

(** After an update that takes every row satisfying [p] to one that does
    not, no row satisfies [p]. *)
Lemma overlay_update_filter p f (targets : list row) tbl :
  (forall r, p (f r) = false) -> (forall r, id (f r) = id r) ->
  (forall r, In r tbl -> p r = true -> In r targets) ->
  List.filter p (overlay (map (fun r => WUpdate (f r)) targets) tbl) = [].
Proof.
  intros Hp Hid. revert tbl.
  induction targets as [|t targets IH]; intros tbl H; simpl.
  - induction tbl as [|r tbl IHt]; simpl; [reflexivity|].
    destruct (p r) eqn:E.
    + exfalso. exact (H r (or_introl eq_refl) E).
    + apply IHt. intros r' Hin. apply H. now right.
  - apply IH. intros r Hin Hr.
    apply in_map_iff in Hin. destruct Hin as (x & Hx & Hin).
    rewrite Hid in Hx.
    destruct (id x =? id t)%nat eqn:E.
    + subst r. rewrite Hp in Hr. discriminate.
    + subst r. destruct (H x Hin Hr) as [->|Ht]; [|exact Ht].
      rewrite Nat.eqb_refl in E. discriminate.
Qed.

Section SerializationFailure.
(** The name recorded by the setup is [name]; the rows of the commune that
    carry it are [t0 :: ts]. *)
Variables (tbl : list row) (name : string) (n1 n2 : nat) (t0 : row) (ts : list row).
Hypothesis Htargets :
  List.filter (commune_named test_code_commune (Some name)) tbl = t0 :: ts.



Lemma ser_check_wait st c ss :
  locked_by_other st c (id t0) = true ->
  check_targets st c ss (List.filter (commune_named test_code_commune (Some name)) tbl) = Wait.
Proof using Htargets. rewrite Htargets. apply check_targets_wait. Qed.

Lemma ser_check_conflict st c ss :
  locked_by_other st c (id t0) = false -> s_isolation ss = RepeatableRead ->
  written_since st (s_snap_clock ss) (id t0) = true ->
  check_targets st c ss (List.filter (commune_named test_code_commune (Some name)) tbl) = Conflict.
Proof using Htargets. rewrite Htargets. apply check_targets_conflict. Qed.

Ltac ser_side :=
  cbn; rewrite ?Htargets; cbn; rewrite ?id_set_nom_commune, ?Nat.eqb_refl;
  reflexivity.



(** The table once the update to [name +:+ suffix] is committed. *)
Definition renamed (suffix : string) : list row :=
  overlay (map (fun r => WUpdate (set_nom_commune (Some (name +:+ suffix)) r))
               (List.filter (commune_named test_code_commune (Some name)) tbl)) tbl.

Lemma filter_renamed suffix :
  suffix <> "" ->
  List.filter (commune_named test_code_commune (Some name))
    (fold_left apply_write
       (map (fun r => WUpdate (set_nom_commune (Some (name +:+ suffix)) r))
            (List.filter (commune_named test_code_commune (Some name)) tbl)) tbl) = [].
Proof.
  intros Hs. apply overlay_update_filter.
  - intros r. unfold commune_named. apply andb_false_iff. right.
    unfold sql_eq_str, set_nom_commune. cbn.
    apply String.eqb_neq, append_neq, Hs.
  - reflexivity.
  - intros r Hin Hr. apply filter_In. split; assumption.
Qed.

(** The facts of the scenario, applied where their terms occur. *)
Ltac ser_rw :=
  repeat match goal with
  | |- context [check_targets _ _ _ _] =>
      progress (first [ rewrite check_targets_go by (intros; reflexivity)
                      | rewrite ser_check_wait by ser_side
                      | rewrite ser_check_conflict by ser_side ]); cbn
  | |- context [List.filter _ (fold_left apply_write _ _)] =>
      rewrite filter_renamed by discriminate; cbn
  | |- context [<[("results", "tx1_success") := _]>
                  (<[("results", "tx2_success") := _]> _)] =>
      rewrite (fun a b m =>
                 @results_swap ("results", "tx1_success") ("results", "tx2_success")
                               a b m ltac:(discriminate)); cbn
  | |- context [<[?k := _]> (<[?k := _]> _)] =>
      rewrite results_overwrite; cbn
  end.

Definition ser_world : world :=
  mkWorld (mkStore tbl 1 [] (S (list_max (map id tbl)))
                   [mkSession ReadCommitted true true Idle [] 0 []])
          2 0
          (<[("results", "tx2_success") := VBool false]>
             (<[("results", "tx1_success") := VBool false]> ∅)).

Definition ser_pool : pool :=
  mkPool ser_world [tx1_updater (Some name) n1; tx2_updater (Some name) n2].


Definition ser_final (pl : pool) : Prop :=
  all_done pl = true ->
  let w := p_world pl in
  let res k := w_results w !! ("results", k) in
  no_open_transaction (w_store w) = true
  /\ length (sessions (w_store w)) = 3
  /\ ((res "tx1_success" = Some (VBool true) /\ res "tx2_success" = Some (VBool false)
       /\ committed (w_store w) = renamed ("_TX1_" +:+ str_nat n1))
      \/ (res "tx1_success" = Some (VBool false) /\ res "tx2_success" = Some (VBool true)
          /\ committed (w_store w) = renamed ("_TX2_" +:+ str_nat n2))
      \/ (res "tx1_success" = Some (VBool true) /\ res "tx2_success" = Some (VBool true)
          /\ (committed (w_store w) = renamed ("_TX1_" +:+ str_nat n1)
              \/ committed (w_store w) = renamed ("_TX2_" +:+ str_nat n2)))).

Ltac ser_final_tac :=
  unfold ser_final; cbn; intros Hd;
  first [ discriminate Hd
        | split; [reflexivity|]; split; [reflexivity|];
          first [ left; repeat split; reflexivity
                | right; left; repeat split; reflexivity
                | right; right; split; [reflexivity|]; split; [reflexivity|];
                  first [left; reflexivity | right; reflexivity] ] ].


Definition overlapping (pl : pool) : bool :=
  match sessions (w_store (p_world pl)) with
  | [_; s1; s2] => in_txn s1 && in_txn s2
  | _ => false
  end.

Definition ser_differ (pl : pool) : Prop :=
  all_done pl = true -> outcomes_differ (p_world pl) = Some true.

Definition ser_inv (pl : pool) : Prop :=
  ser_final pl /\ (overlapping pl = true -> always ser_differ pl).

Ltac ser_differ_tac :=
  unfold ser_differ; cbn; intros Hd; first [discriminate Hd | reflexivity].

Ltac ser_inv_tac :=
  split; [ser_final_tac
         | intros Hov; first [assumption | exfalso; revert Hov; lazy; discriminate]].

Lemma ser_every_schedule : always ser_inv ser_pool.
Proof using Htargets.
  unfold ser_pool, ser_world, tx1_updater, tx2_updater. cbn.
  explore_all_by ser_rw ser_inv_tac
    ltac:(fun pl E0 E1 => also ser_differ ser_differ_tac pl E0 E1).
Qed.


(** The interleaving the stagger is written for.  Both updaters connect and
    pass the barrier; tx1 makes its first statement; tx2 sleeps its 0.3 s and
    makes its first statement: both transactions are open ([ser_overlap]).
    Then tx1 updates, commits and ends, and tx2's update fails. *)
Definition ser_overlap : list nat :=
  repeat 0 3 ++ repeat 1 4 ++ repeat 0 2 ++ repeat 1 2.

Definition ser_schedule : list nat := ser_overlap ++ repeat 0 6 ++ repeat 1 6.

(** tx1's simulated work is over before tx2's stagger: tx1 runs to its end,
    then tx2 makes its first statement. *)
Definition ser_sequential : list nat :=
  repeat 0 3 ++ repeat 1 3 ++ repeat 0 8 ++ repeat 1 9.

Lemma ser_schedule_run :
  overlapping (run ser_overlap ser_pool) = true
  /\ all_done (run ser_schedule ser_pool) = true
  /\ w_results (p_world (run ser_schedule ser_pool)) !! ("results", "tx1_success")
     = Some (VBool true)
  /\ w_results (p_world (run ser_schedule ser_pool)) !! ("results", "tx2_success")
     = Some (VBool false).
Proof using Htargets.
  split.
  - change ser_overlap with [0; 0; 0; 1; 1; 1; 1; 0; 0; 1; 1].
    unfold ser_pool, ser_world, tx1_updater, tx2_updater.
    do 11 (run_step_by ser_rw). reflexivity.
  - change ser_schedule
      with [0; 0; 0; 1; 1; 1; 1; 0; 0; 1; 1; 0; 0; 0; 0; 0; 0; 1; 1; 1; 1; 1; 1].
    unfold ser_pool, ser_world, tx1_updater, tx2_updater.
    do 23 (run_step_by ser_rw). repeat split; reflexivity.
Qed.

Lemma ser_sequential_run :
  all_done (run ser_sequential ser_pool) = true
  /\ w_results (p_world (run ser_sequential ser_pool)) !! ("results", "tx1_success")
     = Some (VBool true)
  /\ w_results (p_world (run ser_sequential ser_pool)) !! ("results", "tx2_success")
     = Some (VBool true).
Proof using Htargets.
  change ser_sequential
    with [0; 0; 0; 1; 1; 1; 0; 0; 0; 0; 0; 0; 0; 0; 1; 1; 1; 1; 1; 1; 1; 1; 1].
  unfold ser_pool, ser_world, tx1_updater, tx2_updater.
  do 23 (run_step_by ser_rw). repeat split; reflexivity.
Qed.

End SerializationFailure.

(** The recorded name written back to every row of the commune. *)
Definition restored_names (name : option string) (T : list row) : list row :=
  overlay (map (fun r => WUpdate (set_nom_commune name r))
               (List.filter (in_commune (Some test_code_commune)) T)) T.

Section SerializationDemo.
(** The commune under test has rows; the first one, whose name the setup
    records, is named [name]. *)
Variables (tbl : list row) (r0 : row) (rest : list row) (name : string) (n1 n2 : nat).
Hypothesis Hcommune :
  List.filter (in_commune (Some test_code_commune)) tbl = r0 :: rest.
Hypothesis Hname : nom_commune r0 = Some name.

Lemma ser_targets :
  exists t0 ts,
    List.filter (commune_named test_code_commune (Some name)) tbl = t0 :: ts.
Proof using Hcommune Hname.
  assert (Hin : In r0 (List.filter (commune_named test_code_commune (Some name)) tbl)).
  { assert (H0 : In r0 (List.filter (in_commune (Some test_code_commune)) tbl))
      by (rewrite Hcommune; now left).
    apply filter_In in H0. destruct H0 as [Hin Hc].
    apply filter_In. split; [exact Hin|].
    unfold commune_named. rewrite Hc, Hname. cbn. apply String.eqb_refl. }
  destruct (List.filter (commune_named test_code_commune (Some name)) tbl)
    as [|t0 ts]; [destruct Hin|eauto].
Qed.

Lemma ser_demo_joined sched :
  let pl := run sched (ser_pool tbl name n1 n2) in
  let res := run_main (demo_serialization_failure n1 n2) [sched] (init_world tbl) in
  (all_done pl = false -> res = None)
  /\ (all_done pl = true ->
      exists w', res = Some (Returned tt, w')
        /\ committed (w_store w')
           = restored_names (Some name) (committed (w_store (p_world pl)))
        /\ w_results w' = w_results (p_world pl)).
Proof using All.
  destruct ser_targets as (t0 & ts & Ht).
  unfold demo_serialization_failure, get_connection.
  cbn. rewrite Hcommune. cbn. rewrite Hname. cbn.
  match goal with
  | |- context [run sched (mkPool ?w ?ths)] =>
      change (mkPool w ths) with (ser_pool tbl name n1 n2)
  end.
  destruct (all_done (run sched (ser_pool tbl name n1 n2))) eqn:Hd;
    [split; [discriminate|intros _] | split; [reflexivity|discriminate]].
  destruct (ser_every_schedule tbl name n1 n2 t0 ts Ht sched) as [Hf _].
  destruct (Hf Hd) as (Hq & Hlen & _).
  set (w := p_world (run sched (ser_pool tbl name n1 n2))) in *. clearbody w.
  destruct w as [[ct ck wl nx ss] pa ar re]. cbn in Hq, Hlen.
  destruct ss as [|s0 [|s1 [|s2 [|]]]]; try discriminate Hlen.
  cbn in Hq. unfold in_txn in Hq.
  destruct (s_status s0) eqn:E0; try discriminate Hq;
  destruct (s_status s1) eqn:E1; try discriminate Hq;
  destruct (s_status s2) eqn:E2; try discriminate Hq.
  all: cbn;
    rewrite check_targets_unlocked
      by (first [ reflexivity
                | intros i; unfold locked_by_other, holds_lock, in_txn; cbn;
                  rewrite E0, E1, E2; reflexivity ]);
    cbn; eexists; split; [reflexivity|]; split; reflexivity.
Qed.

End SerializationDemo.

(** X1.  Let the commune under test have rows, the first of them
    named [name].  Whatever the schedule, when the demo ends the two
    updaters have not both failed, and the table the joins leave is the one
    a single updater's update makes: tx1 succeeded and tx2 failed, with
    tx1's names committed; or tx2 succeeded and tx1 failed, with tx2's names
    committed; or both report success, with the names of one of them
    committed.  If at some moment both transactions are open, the demo ends
    with [results['tx1_success'] != results['tx2_success']].  Under
    [ser_schedule] tx1 succeeds and tx2 fails; under [ser_sequential], where
    tx1 ends before tx2's first statement, both report success and the
    outcomes do not differ. *)
Theorem serialization_failure_outcomes
  (tbl : list row) (r0 : row) (rest : list row) (name : string) (n1 n2 : nat) :
  List.filter (in_commune (Some test_code_commune)) tbl = r0 :: rest ->
  nom_commune r0 = Some name ->
  let demo scheds := run_main (demo_serialization_failure n1 n2) scheds (init_world tbl) in
  let pl := ser_pool tbl name n1 n2 in
  (forall sched w', demo [sched] = Some (Returned tt, w') ->
     let res k := w_results w' !! ("results", k) in
     let joined := committed (w_store (p_world (run sched pl))) in
     (res "tx1_success" = Some (VBool true) /\ res "tx2_success" = Some (VBool false)
      /\ joined = renamed tbl name ("_TX1_" +:+ str_nat n1))
     \/ (res "tx1_success" = Some (VBool false) /\ res "tx2_success" = Some (VBool true)
         /\ joined = renamed tbl name ("_TX2_" +:+ str_nat n2))
     \/ (res "tx1_success" = Some (VBool true) /\ res "tx2_success" = Some (VBool true)
         /\ (joined = renamed tbl name ("_TX1_" +:+ str_nat n1)
             \/ joined = renamed tbl name ("_TX2_" +:+ str_nat n2))))
  /\ (forall s1 s2 w',
        overlapping (run s1 pl) = true ->
        demo [s1 ++ s2] = Some (Returned tt, w') ->
        outcomes_differ w' = Some true)
  /\ (exists w', demo [ser_schedule] = Some (Returned tt, w')
        /\ w_results w' !! ("results", "tx1_success") = Some (VBool true)
        /\ w_results w' !! ("results", "tx2_success") = Some (VBool false)
        /\ outcomes_differ w' = Some true)
  /\ (exists w', demo [ser_sequential] = Some (Returned tt, w')
        /\ w_results w' !! ("results", "tx1_success") = Some (VBool true)
        /\ w_results w' !! ("results", "tx2_success") = Some (VBool true)
        /\ outcomes_differ w' = Some false).
Proof.
  intros Hcommune Hname demo pl. subst demo pl. cbv beta.
  destruct (ser_targets tbl r0 rest name Hcommune Hname) as (t0 & ts & Ht).
  pose proof (ser_every_schedule tbl name n1 n2 t0 ts Ht) as Hall.
  pose proof (ser_demo_joined tbl r0 rest name n1 n2 Hcommune Hname) as Hjoin.
  cbv zeta in Hjoin.
  set (pl := ser_pool tbl name n1 n2) in *.
  set (demo := run_main (demo_serialization_failure n1 n2)) in *.
  assert (Hback : forall sched w',
            demo [sched] (init_world tbl) = Some (Returned tt, w') ->
            all_done (run sched pl) = true
            /\ w_results w' = w_results (p_world (run sched pl))).
  { intros sched w' Hres. destruct (Hjoin sched) as [Hh Hj].
    destruct (all_done (run sched pl)) eqn:Hd.
    - destruct (Hj eq_refl) as (w'' & Hres' & _ & Hre).
      rewrite Hres in Hres'. injection Hres' as <-. split; [reflexivity|exact Hre].
    - specialize (Hh eq_refl). congruence. }
  assert (Hforth : forall sched, all_done (run sched pl) = true ->
            exists w', demo [sched] (init_world tbl) = Some (Returned tt, w')
                       /\ w_results w' = w_results (p_world (run sched pl))).
  { intros sched Hd. destruct (Hjoin sched) as [_ Hj].
    destruct (Hj Hd) as (w' & Hres & _ & Hre). exists w'. split; assumption. }
  split; [|split; [|split]].
  - intros sched w' Hres res joined. destruct (Hback sched w' Hres) as [Hd Hre].
    destruct (Hall sched) as [Hf _]. destruct (Hf Hd) as (_ & _ & Hcases).
    unfold res. rewrite Hre. exact Hcases.
  - intros s1 s2 w' Hov Hres. destruct (Hback _ _ Hres) as [Hd Hre].
    destruct (Hall s1) as [_ Ho]. specialize (Ho Hov s2).
    fold pl in Ho. rewrite <- run_app in Ho. specialize (Ho Hd).
    unfold outcomes_differ in *. rewrite Hre. exact Ho.
  - destruct (ser_schedule_run tbl name n1 n2 t0 ts Ht) as (_ & Hd & H1 & H2).
    destruct (Hforth _ Hd) as (w' & Hres & Hre). exists w'.
    unfold outcomes_differ. rewrite Hre.
    fold pl in H1, H2. rewrite H1, H2.
    repeat split; try assumption; reflexivity.
  - destruct (ser_sequential_run tbl name n1 n2 t0 ts Ht) as (Hd & H1 & H2).
    destruct (Hforth _ Hd) as (w' & Hres & Hre). exists w'.
    unfold outcomes_differ. rewrite Hre.
    fold pl in H1, H2. rewrite H1, H2.
    repeat split; try assumption; reflexivity.
Qed.

(** On the table of two records, with tx1 done before tx2 starts, both
    updaters report success: the outcomes do not differ. *)
Lemma both_updaters_succeed :
  exists w',
    run_main (demo_serialization_failure 7 8) [ser_sequential]
             (init_world [row_1; row_2]) = Some (Returned tt, w')
    /\ w_results w' !! ("results", "tx1_success") = Some (VBool true)
    /\ w_results w' !! ("results", "tx2_success") = Some (VBool true)
    /\ outcomes_differ w' = Some false.
Proof.
  eexists. split; [vm_compute; reflexivity|].
  repeat split; vm_compute; reflexivity.
Qed.

Lemma serialization_failure_outcomes_witness :
  exists w',
    run_main (demo_serialization_failure 7 8) [ser_schedule]
             (init_world [row_1; row_2]) = Some (Returned tt, w')
    /\ outcomes_differ w' = Some true.
Proof.
  destruct (serialization_failure_outcomes [row_1; row_2] row_1 [row_2] "Bourg" 7 8
              eq_refl eq_refl)
    as (_ & _ & (w' & Hres & _ & _ & Hd) & _).
  exists w'. split; assumption.
Defined.

(** C1, as amended.  Let the commune under test have rows, the first of
    them named [name].  Whenever the two transactions overlap, that is:
    under every schedule at some moment of which both sessions are inside
    their transaction, and which lets the demo end, exactly one updater
    reports success and the other reports failure:
    [results['tx1_success'] != results['tx2_success']]; no transaction is
    left open, and the table the joins leave is the one the successful
    updater's UPDATE alone makes of the initial table, so no write of the
    other is in it.  [ser_schedule] is such a schedule.  The barrier and the
    stagger do not make the transactions overlap: under [ser_sequential],
    where tx1 ends before tx2's first statement, both updaters report
    success and the outcomes do not differ. *)
Theorem serialization_conflict_needs_overlap
  (tbl : list row) (r0 : row) (rest : list row) (name : string) (n1 n2 : nat) :
  List.filter (in_commune (Some test_code_commune)) tbl = r0 :: rest ->
  nom_commune r0 = Some name ->
  let demo scheds := run_main (demo_serialization_failure n1 n2) scheds (init_world tbl) in
  let pl := ser_pool tbl name n1 n2 in
  (forall s1 s2 w',
     overlapping (run s1 pl) = true ->
     demo [s1 ++ s2] = Some (Returned tt, w') ->
     let res k := w_results w' !! ("results", k) in
     let joined := w_store (p_world (run (s1 ++ s2) pl)) in
     outcomes_differ w' = Some true
     /\ no_open_transaction joined = true
     /\ ((res "tx1_success" = Some (VBool true) /\ res "tx2_success" = Some (VBool false)
          /\ committed joined = renamed tbl name ("_TX1_" +:+ str_nat n1))
         \/ (res "tx1_success" = Some (VBool false) /\ res "tx2_success" = Some (VBool true)
             /\ committed joined = renamed tbl name ("_TX2_" +:+ str_nat n2))))
  /\ (exists s2 w',
        ser_schedule = ser_overlap ++ s2
        /\ overlapping (run ser_overlap pl) = true
        /\ demo [ser_schedule] = Some (Returned tt, w')
        /\ w_results w' !! ("results", "tx1_success") = Some (VBool true)
        /\ w_results w' !! ("results", "tx2_success") = Some (VBool false))
  /\ (exists w', demo [ser_sequential] = Some (Returned tt, w')
        /\ w_results w' !! ("results", "tx1_success") = Some (VBool true)
        /\ w_results w' !! ("results", "tx2_success") = Some (VBool true)
        /\ outcomes_differ w' = Some false).
Proof.
  intros Hcommune Hname demo pl. subst demo pl. cbv beta.
  destruct (ser_targets tbl r0 rest name Hcommune Hname) as (t0 & ts & Ht).
  pose proof (ser_every_schedule tbl name n1 n2 t0 ts Ht) as Hall.
  pose proof (ser_demo_joined tbl r0 rest name n1 n2 Hcommune Hname) as Hjoin.
  cbv zeta in Hjoin.
  set (pl := ser_pool tbl name n1 n2) in *.
  set (demo := run_main (demo_serialization_failure n1 n2)) in *.
  assert (Hback : forall sched w',
            demo [sched] (init_world tbl) = Some (Returned tt, w') ->
            all_done (run sched pl) = true
            /\ w_results w' = w_results (p_world (run sched pl))).
  { intros sched w' Hres. destruct (Hjoin sched) as [Hh Hj].
    destruct (all_done (run sched pl)) eqn:Hd.
    - destruct (Hj eq_refl) as (w'' & Hres' & _ & Hre).
      rewrite Hres in Hres'. injection Hres' as <-. split; [reflexivity|exact Hre].
    - specialize (Hh eq_refl). congruence. }
  assert (Hforth : forall sched, all_done (run sched pl) = true ->
            exists w', demo [sched] (init_world tbl) = Some (Returned tt, w')
                       /\ w_results w' = w_results (p_world (run sched pl))).
  { intros sched Hd. destruct (Hjoin sched) as [_ Hj].
    destruct (Hj Hd) as (w' & Hres & _ & Hre). exists w'. split; assumption. }
  split; [|split].
  - intros s1 s2 w' Hov Hres res joined. destruct (Hback _ _ Hres) as [Hd Hre].
    destruct (Hall s1) as [_ Ho]. specialize (Ho Hov s2).
    fold pl in Ho. rewrite <- run_app in Ho. specialize (Ho Hd).
    destruct (Hall (s1 ++ s2)) as [Hf _]. destruct (Hf Hd) as (Hq & _ & Hcases).
    assert (Hdiff : outcomes_differ w' = Some true)
      by (unfold outcomes_differ in *; rewrite Hre; exact Ho).
    split; [exact Hdiff|]. split; [exact Hq|].
    unfold res. rewrite Hre.
    destruct Hcases as [H|[H|(H1 & H2 & _)]]; [left; exact H|right; exact H|].
    exfalso. unfold outcomes_differ in Ho. cbv zeta in H1, H2.
    fold pl in H1, H2. rewrite H1, H2 in Ho. discriminate Ho.
  - destruct (ser_schedule_run tbl name n1 n2 t0 ts Ht) as (Hov & Hd & H1 & H2).
    destruct (Hforth _ Hd) as (w' & Hres & Hre).
    eexists. exists w'. split; [reflexivity|]. split; [exact Hov|].
    split; [exact Hres|]. rewrite Hre. split; assumption.
  - destruct (ser_sequential_run tbl name n1 n2 t0 ts Ht) as (Hd & H1 & H2).
    destruct (Hforth _ Hd) as (w' & Hres & Hre). exists w'.
    unfold outcomes_differ. rewrite Hre.
    fold pl in H1, H2. rewrite H1, H2.
    repeat split; try assumption; reflexivity.
Qed.

Lemma serialization_conflict_needs_overlap_witness :
  exists w',
    run_main (demo_serialization_failure 7 8) [ser_schedule]
             (init_world [row_1; row_2]) = Some (Returned tt, w')
    /\ outcomes_differ w' = Some true.
Proof.
  destruct (serialization_conflict_needs_overlap [row_1; row_2] row_1 [row_2] "Bourg" 7 8
              eq_refl eq_refl)
    as (Hall & (s2 & w' & Hs & Hov & Hres & _) & _).
  exists w'. split; [exact Hres|].
  pose proof Hres as Hres'. rewrite Hs in Hres'.
  exact (proj1 (Hall ser_overlap s2 w' Hov Hres')).
Defined.


(** ** Writing the recorded name back *)

Lemma same_key_same_row (T : list row) x y :
  List.NoDup (map id T) -> In x T -> In y T -> id x = id y -> x = y.
Proof.
  induction T as [|a T IH]; intros Hnd Hx Hy Hid; [destruct Hx|].
  simpl in Hnd. apply List.NoDup_cons_iff in Hnd. destruct Hnd as [Hna Hnd].
  destruct Hx as [->|Hx], Hy as [->|Hy]; auto.
  - exfalso. apply Hna. rewrite Hid. now apply in_map.
  - exfalso. apply Hna. rewrite <- Hid. now apply in_map.
Qed.

(** On a table with unique keys, updating the rows [L] of the table one by
    one is updating each row whose key is among those of [L]. *)
Lemma overlay_updates f (L T : list row) :
  (forall r, id (f r) = id r) ->
  List.NoDup (map id T) -> List.NoDup (map id L) -> (forall r, In r L -> In r T) ->
  overlay (map (fun r => WUpdate (f r)) L) T
  = map (fun x => if existsb (fun r => (id r =? id x)%nat) L then f x else x) T.
Proof.
  intros Hid. revert T.
  induction L as [|a L IH]; intros T HT HL Hsub; simpl.
  - symmetry. apply map_id.
  - apply List.NoDup_cons_iff in HL. destruct HL as [Ha HL].
    set (T1 := map (fun x => if (id x =? id (f a))%nat then f a else x) T).
    assert (Hids : map id T1 = map id T).
    { unfold T1. rewrite map_map. apply map_ext. intros x.
      destruct (id x =? id (f a))%nat eqn:E; [|reflexivity].
      apply Nat.eqb_eq in E. now rewrite E. }
    change (fold_left apply_write ?ws ?t) with (overlay ws t).
    rewrite IH.
    + unfold T1. rewrite map_map. apply map_ext_in. intros x Hx.
      rewrite Hid.
      destruct (id x =? id a)%nat eqn:E.
      * apply Nat.eqb_eq in E.
        assert (x = a)
          by (apply (same_key_same_row T); auto; apply Hsub; now left).
        subst x. rewrite Nat.eqb_refl. simpl.
        destruct (existsb (fun r => (id r =? id (f a))%nat) L) eqn:Ex; [|reflexivity].
        exfalso. apply Ha. apply existsb_exists in Ex.
        destruct Ex as (r & Hr & Er). apply Nat.eqb_eq in Er.
        rewrite Hid in Er. rewrite <- Er. now apply in_map.
      * rewrite Nat.eqb_sym, E. reflexivity.
    + now rewrite Hids.
    + exact HL.
    + intros r Hr. unfold T1. apply in_map_iff. exists r. split.
      * rewrite Hid. destruct (id r =? id a)%nat eqn:E; [|reflexivity].
        exfalso. apply Ha. apply Nat.eqb_eq in E. rewrite <- E. now apply in_map.
      * apply Hsub. now right.
Qed.

Lemma NoDup_keys_filter p (T : list row) :
  List.NoDup (map id T) -> List.NoDup (map id (List.filter p T)).
Proof.
  induction T as [|a T IH]; simpl; intros H; [constructor|].
  apply List.NoDup_cons_iff in H. destruct H as [Ha H].
  destruct (p a); simpl; [|now apply IH].
  constructor; [|now apply IH].
  intros Hin. apply Ha. apply in_map_iff in Hin. destruct Hin as (x & Hx & Hin).
  apply filter_In in Hin. rewrite <- Hx. apply in_map. tauto.
Qed.

(** [UPDATE ... SET f WHERE p] on a table with unique keys. *)
Lemma overlay_update_where p f (T : list row) :
  (forall r, id (f r) = id r) -> List.NoDup (map id T) ->
  overlay (map (fun r => WUpdate (f r)) (List.filter p T)) T
  = map (fun x => if p x then f x else x) T.
Proof.
  intros Hid HT. rewrite overlay_updates; auto.
  - apply map_ext_in. intros x Hx.
    destruct (p x) eqn:Hp.
    + assert (E : existsb (fun r => (id r =? id x)%nat) (List.filter p T) = true).
      { apply existsb_exists. exists x. split.
        - apply filter_In. now split.
        - apply Nat.eqb_refl. }
      now rewrite E.
    + destruct (existsb (fun r => (id r =? id x)%nat) (List.filter p T)) eqn:E;
        [|reflexivity].
      apply existsb_exists in E. destruct E as (r & Hr & Er).
      apply filter_In in Hr. destruct Hr as [Hr Hpr]. apply Nat.eqb_eq in Er.
      assert (r = x) by (apply (same_key_same_row T); auto).
      subst r. congruence.
  - now apply NoDup_keys_filter.
  - intros r Hr. apply filter_In in Hr. tauto.
Qed.

(** On a table with unique keys, writing the recorded name back over an
    updater's names leaves every row of the commune with the recorded name
    and the other rows as they were. *)
Lemma restored_renamed (tbl : list row) (name suffix : string) :
  List.NoDup (map id tbl) ->
  restored_names (Some name) (renamed tbl name suffix)
  = map (fun x => if in_commune (Some test_code_commune) x
                  then set_nom_commune (Some name) x else x) tbl.
Proof.
  intros Hnd. unfold restored_names, renamed.
  rewrite (overlay_update_where _ _ tbl) by (auto using id_set_nom_commune).
  rewrite overlay_update_where.
  - rewrite map_map. apply map_ext. intros x.
    destruct (commune_named test_code_commune (Some name) x) eqn:Hq;
      [|reflexivity].
    unfold commune_named in Hq. apply andb_true_iff in Hq. destruct Hq as [Hc _].
    change (in_commune (Some test_code_commune)
              (set_nom_commune (Some (name +:+ suffix)) x))
      with (in_commune (Some test_code_commune) x).
    rewrite Hc. now destruct x.
  - apply id_set_nom_commune.
  - rewrite map_map.
    erewrite map_ext; [exact Hnd|].
    intros x. cbn. now destruct (commune_named test_code_commune (Some name) x).
Qed.

(** X2.  Let the commune under test have rows, the first of them named
    [name], and let keys be unique.  Whatever the schedule, when the
    serialization-failure demo ends every row of the commune carries the
    recorded name [name], also the rows that carried another name before,
    and every other row is as it was.  So the table is the one before the
    demo exactly when every row of the commune carried the recorded name. *)
Theorem serialization_demo_writes_name_back
  (tbl : list row) (r0 : row) (rest : list row) (name : string) (n1 n2 : nat)
  (sched : list nat) (w' : world) :
  List.filter (in_commune (Some test_code_commune)) tbl = r0 :: rest ->
  nom_commune r0 = Some name ->
  List.NoDup (map id tbl) ->
  run_main (demo_serialization_failure n1 n2) [sched] (init_world tbl)
    = Some (Returned tt, w') ->
  committed (w_store w')
  = map (fun x => if in_commune (Some test_code_commune) x
                  then set_nom_commune (Some name) x else x) tbl
  /\ (committed (w_store w') = tbl <->
      forall r, In r tbl -> in_commune (Some test_code_commune) r = true ->
                nom_commune r = Some name).
Proof.
  intros Hcommune Hname Hnd Hres.
  destruct (ser_targets tbl r0 rest name Hcommune Hname) as (t0 & ts & Ht).
  destruct (ser_demo_joined tbl r0 rest name n1 n2 Hcommune Hname sched) as [Hh Hj].
  cbv zeta in Hh, Hj.
  destruct (all_done (run sched (ser_pool tbl name n1 n2))) eqn:Hd;
    [|specialize (Hh eq_refl); congruence].
  destruct (Hj eq_refl) as (w'' & Hres' & Hc & _).
  rewrite Hres in Hres'. injection Hres' as <-.
  destruct (ser_every_schedule tbl name n1 n2 t0 ts Ht sched) as [Hf _].
  assert (Hw : committed (w_store w')
               = map (fun x => if in_commune (Some test_code_commune) x
                               then set_nom_commune (Some name) x else x) tbl).
  { destruct (Hf Hd) as (_ & _ & [(_ & _ & E)|[(_ & _ & E)|(_ & _ & [E|E])]]);
      rewrite Hc, E; now apply restored_renamed. }
  split; [exact Hw|]. rewrite Hw. split.
  - intros Heq r Hin Hc'.
    assert (Hx : forall l : list row,
              map (fun x => if in_commune (Some test_code_commune) x
                            then set_nom_commune (Some name) x else x) l = l ->
              In r l -> nom_commune r = Some name).
    { induction l as [|a l IH]; intros Hl Hr; [destruct Hr|].
      simpl in Hl. injection Hl as Ha Hl. destruct Hr as [->|Hr]; [|auto].
      rewrite Hc' in Ha. rewrite <- Ha. reflexivity. }
    now apply Hx with tbl.
  - intros Hall. rewrite <- (map_id tbl) at 2. apply map_ext_in. intros x Hx.
    destruct (in_commune (Some test_code_commune) x) eqn:Hc'; [|reflexivity].
    specialize (Hall x Hx Hc'). destruct x; cbn in *. now subst.
Qed.

Lemma serialization_demo_writes_name_back_witness :
  exists w',
    run_main (demo_serialization_failure 7 8) [ser_schedule]
             (init_world [row_1; row_2]) = Some (Returned tt, w')
    /\ committed (w_store w') = [row_1; set_nom_commune (Some "Bourg") row_2].
Proof.
  assert (H : { w' | run_main (demo_serialization_failure 7 8) [ser_schedule]
                              (init_world [row_1; row_2]) = Some (Returned tt, w') })
    by (eexists; vm_compute; reflexivity).
  destruct H as [w' H]. exists w'. split; [exact H|].
  assert (Hnd : List.NoDup (map id [row_1; row_2])).
  { repeat constructor; simpl; intuition discriminate. }
  exact (proj1 (serialization_demo_writes_name_back
                  [row_1; row_2] row_1 [row_2] "Bourg" 7 8 ser_schedule w'
                  eq_refl eq_refl Hnd H)).
Defined.


(** X3.  Let the store draw a record with a unique key that is not 0 and
    whose value is not NULL.  Whatever the schedule of the reader and the
    writer, when the non-repeatable-read demo ends the table is the one
    before the demo and no transaction is left open. *)
Theorem non_repeatable_read_demo_restores
  (tbl : list row) (r : row) (V : Z) (offset : nat) (sched : list nat) (w' : world) :
  nth_error tbl offset = Some r ->
  id r <> 0 ->
  List.filter (has_id (id r)) tbl = [r] ->
  valeur_fonciere r = Some V ->
  run_main (demo_non_repeatable_read offset) [sched] (init_world tbl)
    = Some (Returned tt, w') ->
  committed (w_store w') = tbl /\ no_open_transaction (w_store w') = true.
Proof.
  intros Hpick Hid Hr HV Hres.
  destruct (nrr_demo_joined tbl r V offset Hpick Hid Hr HV sched) as [Hh Hj].
  cbv zeta in Hh, Hj.
  destruct (all_done (run sched (nrr_pool tbl r))) eqn:Hd;
    [|specialize (Hh eq_refl); congruence].
  destruct (Hj eq_refl) as (w'' & Hres' & Hc & Hq & _).
  rewrite Hres in Hres'. injection Hres' as <-. split; assumption.
Qed.

Lemma non_repeatable_read_demo_restores_witness :
  exists w',
    run_main (demo_non_repeatable_read 0) [nrr_schedule] (init_world [row_1; row_2])
      = Some (Returned tt, w')
    /\ committed (w_store w') = [row_1; row_2].
Proof.
  assert (H : { w' | run_main (demo_non_repeatable_read 0) [nrr_schedule]
                              (init_world [row_1; row_2]) = Some (Returned tt, w') })
    by (eexists; vm_compute; reflexivity).
  destruct H as [w' H]. exists w'. split; [exact H|].
  exact (proj1 (non_repeatable_read_demo_restores [row_1; row_2] row_1 100000 0
                  nrr_schedule w' eq_refl ltac:(discriminate) eq_refl eq_refl H)).
Defined.

(** X4.  When the table is empty (the store has no row to draw) or the
    record drawn has the key 0, which line 141 reads as no key, the
    non-repeatable-read demo ends at once: it starts no thread (no schedule
    is consumed and nothing is recorded in [results]), the table is
    untouched and the setup connection, the only one, is closed. *)
Theorem non_repeatable_read_demo_without_record
  (tbl : list row) (offset : nat) (scheds : list (list nat)) :
  match nth_error tbl offset with
  | None => True
  | Some r => id r = 0
  end ->
  exists w',
    run_main (demo_non_repeatable_read offset) scheds (init_world tbl)
      = Some (Returned tt, w')
    /\ committed (w_store w') = tbl
    /\ w_results w' = ∅
    /\ map s_closed (sessions (w_store w')) = [true].
Proof.
  intros H.
  unfold demo_non_repeatable_read, get_connection, get_random_mutation_id.
  cbn. rewrite filter_all_true.
  destruct (nth_error tbl offset) as [r|]; cbn.
  - rewrite H. cbn. eexists. repeat split; reflexivity.
  - eexists. repeat split; reflexivity.
Qed.

Lemma non_repeatable_read_demo_without_record_witness :
  exists w',
    run_main (demo_non_repeatable_read 0) [] (init_world [])
      = Some (Returned tt, w')
    /\ committed (w_store w') = [].
Proof.
  destruct (non_repeatable_read_demo_without_record [] 0 [] I)
    as (w' & H & Hc & _).
  exists w'. split; assumption.
Defined.


(** ** Work units run alone *)

(** A session that has just connected to a store where nobody else is. *)
Definition connect_then {A} (level : isolation) (work : conn -> prog txE A)
  : prog txE A :=
  conn <- get_connection false (Some level) ;; work conn.

(** X5.  Run alone on a freshly connected session, at either isolation
    level, on a table with unique keys, the commune-name work unit returns
    [True] and has committed by itself: the rows of the commune that carried
    the old name carry the new one, every other row is as it was, and no
    transaction is left open.  It returns [True] also when no row matched;
    with the old name NULL no row ever matches and the table is unchanged. *)
Theorem update_commune_name_alone
  (tbl : list row) (level : isolation) (code : string) (old_name : option string)
  (new_name : string) :
  List.NoDup (map id tbl) ->
  exists w',
    run_seq (connect_then level (fun conn =>
               transaction_update_commune_name conn code old_name new_name))
            (init_world tbl) = Some (Returned true, w')
    /\ committed (w_store w')
       = map (fun x => if commune_named code old_name x
                       then set_nom_commune (Some new_name) x else x) tbl
    /\ no_open_transaction (w_store w') = true
    /\ (old_name = None -> committed (w_store w') = tbl).
Proof.
  intros Hnd. unfold connect_then, transaction_update_commune_name, get_connection.
  destruct level; cbn;
    (rewrite check_targets_go by (intros; reflexivity)); cbn;
    (eexists; split; [reflexivity|]); cbn;
    change (fold_left apply_write ?ws ?t) with (overlay ws t);
    rewrite overlay_update_where by (auto using id_set_nom_commune);
    (split; [reflexivity|]; split; [reflexivity|]);
    intros ->; cbn; rewrite <- (map_id tbl) at 2; apply map_ext; intros x;
    unfold commune_named, sql_eq_str; cbn;
    destruct (nom_commune x); now rewrite andb_false_r.
Qed.

Lemma update_commune_name_alone_witness :
  exists w',
    run_seq (connect_then RepeatableRead (fun conn =>
               transaction_update_commune_name conn "01344" (Some "Bourg") "Bourg-en-Bresse"))
            (init_world [row_1; row_2]) = Some (Returned true, w')
    /\ committed (w_store w')
       = [set_nom_commune (Some "Bourg-en-Bresse") row_1; row_2].
Proof.
  assert (Hnd : List.NoDup (map id [row_1; row_2])).
  { repeat constructor; simpl; intuition discriminate. }
  destruct (update_commune_name_alone [row_1; row_2] RepeatableRead "01344"
              (Some "Bourg") "Bourg-en-Bresse" Hnd) as (w' & H & Hc & _).
  exists w'. split; [exact H|exact Hc].
Defined.

(** The row [transaction_register_sale] inserts under the key [i]. *)
Definition sale_row (sale_details : sale) (sale_no : nat) (i : nat) : row :=
  mkRow i (Some ("SALE-" +:+ str_nat sale_no))
        (Some (sale_date_mutation sale_details)) (Some "Vente")
        (Some (sale_valeur_fonciere sale_details)) None
        (Some (sale_code_commune sale_details))
        (Some (sale_nom_commune sale_details))
        (Some (sale_type_local sale_details)).

Lemma keys_below_sequence (tbl : list row) r :
  In r tbl -> id r < S (list_max (map id tbl)).
Proof.
  intros Hin. apply Nat.lt_succ_r.
  assert (H : Forall (fun k => k <= list_max (map id tbl)) (map id tbl))
    by (apply list_max_le; reflexivity).
  rewrite List.Forall_forall in H. apply H. now apply in_map.
Qed.

(** X6.  Run alone on a freshly connected session, the sale work unit
    depends on the average price of the commune.  If some record of the
    commune has a value, it returns the key the store gave the new row, has
    committed by itself, and the table is the old one followed by one row
    that carries the sale's details and a key no old row has.  If the
    commune has no record with a value (the average is NULL), the formatted
    print raises [TypeError], which the function does not catch: it goes on
    to the caller, nothing is inserted and the transaction is rolled
    back. *)
Theorem register_sale_alone
  (tbl : list row) (level : isolation) (sale_details : sale) (sale_no : nat) :
  let work := connect_then level (fun conn =>
                transaction_register_sale conn sale_details sale_no) in
  let priced := sql_avg (map valeur_fonciere
                  (List.filter (in_commune (Some (sale_code_commune sale_details))) tbl)) in
  let new_id := S (list_max (map id tbl)) in
  (priced <> None ->
     exists w', run_seq work (init_world tbl) = Some (Returned (Some new_id), w')
       /\ committed (w_store w') = tbl ++ [sale_row sale_details sale_no new_id]
       /\ (forall r, In r tbl -> id r <> new_id)
       /\ no_open_transaction (w_store w') = true)
  /\ (priced = None ->
     exists w', run_seq work (init_world tbl) = Some (Raised TypeError, w')
       /\ committed (w_store w') = tbl
       /\ no_open_transaction (w_store w') = true).
Proof.
  intros work priced new_id. subst work.
  unfold connect_then, transaction_register_sale, get_connection.
  split; intros Hp.
  - destruct priced as [a|] eqn:E; [clear Hp|congruence]. subst priced.
    destruct level; cbn; rewrite E; cbn;
      (eexists; split; [reflexivity|]); cbn;
      (split; [reflexivity|]); (split; [|reflexivity]);
      intros r Hin Heq; apply keys_below_sequence in Hin;
      unfold new_id in Heq; lia.
  - subst priced.
    destruct level; cbn; rewrite Hp; cbn;
      eexists; (split; [reflexivity|]); cbn; split; reflexivity.
Qed.

(** A second table: a record of commune 01053 with a value. *)
Definition row_3 : row :=
  mkRow 3 (Some "2019-4") (Some (2019, 2, 11)) (Some "Vente") (Some 250000%Z)
        (Some "1000.0") (Some "01053") (Some "Bourg-en-Bresse") (Some "Appartement").

Definition a_sale : sale := mkSale "01053" (2024, 1, 1) 9999999 "Phantom Test" "Maison".

Lemma register_sale_alone_witness :
  (exists w',
     run_seq (connect_then ReadCommitted (fun conn =>
                transaction_register_sale conn a_sale 12345))
             (init_world [row_1; row_3]) = Some (Returned (Some 4), w')
     /\ committed (w_store w') = [row_1; row_3; sale_row a_sale 12345 4])
  /\ (exists w',
     run_seq (connect_then ReadCommitted (fun conn =>
                transaction_register_sale conn a_sale 12345))
             (init_world [row_1; row_2]) = Some (Raised TypeError, w')
     /\ committed (w_store w') = [row_1; row_2]).
Proof.
  split.
  - destruct (proj1 (register_sale_alone [row_1; row_3] ReadCommitted a_sale 12345))
      as (w' & H & Hc & _); [discriminate|].
    exists w'. split; [exact H|exact Hc].
  - destruct (proj2 (register_sale_alone [row_1; row_2] ReadCommitted a_sale 12345))
      as (w' & H & Hc & _); [reflexivity|].
    exists w'. split; [exact H|exact Hc].
Defined.

(** Deleting the rows that satisfy [p], on a table with unique keys. *)
Lemma overlay_delete_where p (T : list row) :
  List.NoDup (map id T) ->
  overlay (map (fun r => WDelete (id r)) (List.filter p T)) T
  = List.filter (fun x => negb (p x)) T.
Proof.
  intros Hnd.
  assert (G : forall (L T' : list row),
    (forall x, In x T' -> In x T) -> (forall r, In r L -> In r T) ->
    overlay (map (fun r => WDelete (id r)) L) T'
    = List.filter (fun x => negb (existsb (fun r => (id r =? id x)%nat) L)) T').
  { induction L as [|a L IH]; intros T' HT' HL; simpl.
    - induction T' as [|x T' IHT]; simpl; [reflexivity|].
      f_equal. apply IHT. intros y Hy. apply HT'. now right.
    - change (fold_left apply_write ?ws ?t) with (overlay ws t).
      rewrite IH.
      + clear. induction T' as [|x T' IHT]; simpl; [reflexivity|].
        rewrite (Nat.eqb_sym (id a) (id x)).
        destruct (id x =? id a)%nat; simpl; [exact IHT|].
        destruct (existsb _ L); simpl; [exact IHT|now rewrite IHT].
      + intros x Hx. apply filter_In in Hx. apply HT'. tauto.
      + intros r Hr. apply HL. now right. }
  rewrite G; auto; [|intros r Hr; apply filter_In in Hr; tauto].
  apply filter_ext_in. intros x Hx. f_equal.
  destruct (p x) eqn:Hp.
  - apply existsb_exists. exists x. split; [|apply Nat.eqb_refl].
    apply filter_In. now split.
  - destruct (existsb (fun r => (id r =? id x)%nat) (List.filter p T)) eqn:E;
      [|reflexivity].
    apply existsb_exists in E. destruct E as (r & Hr & Er).
    apply filter_In in Hr. destruct Hr as [Hr Hpr]. apply Nat.eqb_eq in Er.
    assert (r = x) by (apply (same_key_same_row T); auto).
    subst r. congruence.
Qed.

(** X7.  The archive work unit does not commit.  Run alone on a freshly
    connected read-committed session it returns the number of rows older
    than the cutoff and leaves the committed table as it was: the deletions
    are pending in the caller's transaction.  When the caller then commits,
    on a table with unique keys, exactly the rows older than the cutoff are
    gone. *)
Theorem archive_old_mutations_pending (tbl : list row) (cutoff_date : date) :
  let n := length (List.filter (older_than cutoff_date) tbl) in
  (exists w',
     run_seq (connect_then ReadCommitted (fun conn =>
                transaction_archive_old_mutations conn cutoff_date))
             (init_world tbl) = Some (Returned (Z.of_nat n), w')
     /\ committed (w_store w') = tbl)
  /\ (List.NoDup (map id tbl) ->
      exists w',
        run_seq (connect_then ReadCommitted (fun conn =>
                   deleted_count <- transaction_archive_old_mutations conn cutoff_date ;;
                   commit conn ;;
                   Ret deleted_count))
                (init_world tbl) = Some (Returned (Z.of_nat n), w')
        /\ committed (w_store w')
           = List.filter (fun r => negb (older_than cutoff_date r)) tbl
        /\ no_open_transaction (w_store w') = true).
Proof.
  intros n. unfold connect_then, transaction_archive_old_mutations, count_older,
    get_connection.
  split; [|intros Hnd].
  - cbn. fold n. destruct (n =? 0)%nat eqn:Hn.
    + apply Nat.eqb_eq in Hn. rewrite Hn. cbn. eexists. split; reflexivity.
    + cbn. rewrite check_targets_go by (intros; reflexivity).
      cbn. fold n. eexists. split; reflexivity.
  - cbn. fold n. destruct (n =? 0)%nat eqn:Hn.
    + apply Nat.eqb_eq in Hn. rewrite Hn. cbn.
      eexists. split; [reflexivity|]. cbn. split; [|reflexivity].
      symmetry. unfold n in Hn. apply length_zero_iff_nil in Hn.
      clear -Hn. induction tbl as [|a l IH]; simpl in *; [reflexivity|].
      destruct (older_than cutoff_date a); [discriminate|].
      simpl. f_equal. now apply IH.
    + cbn. rewrite check_targets_go by (intros; reflexivity).
      cbn. fold n. eexists. split; [reflexivity|]. cbn.
      change (fold_left apply_write ?ws ?t) with (overlay ws t).
      rewrite overlay_delete_where by exact Hnd. split; reflexivity.
Qed.

Lemma archive_old_mutations_pending_witness :
  exists w',
    run_seq (connect_then ReadCommitted (fun conn =>
               deleted_count <- transaction_archive_old_mutations conn (2018, 1, 1) ;;
               commit conn ;;
               Ret deleted_count))
            (init_world [row_1; row_2]) = Some (Returned 1%Z, w')
    /\ committed (w_store w') = [row_2].
Proof.
  assert (Hnd : List.NoDup (map id [row_1; row_2])).
  { repeat constructor; simpl; intuition discriminate. }
  destruct (proj2 (archive_old_mutations_pending [row_1; row_2] (2018, 1, 1)) Hnd)
    as (w' & H & Hc & _).
  exists w'. split; [exact H|exact Hc].
Defined.

(** ** Bulk price adjustment, lines 500-531 *)

(** [MIN(valeur_fonciere)]: NULL when no value is present. *)
Definition sql_min (vs : list (option Z)) : option Z :=
  match omap (fun v => v) vs with
  | [] => None
  | x :: l => Some (fold_right Z.min x l)
  end.

Definition in_postal_code (code : string) (r : row) : bool :=
  sql_eq_str (code_postal r) (Some code).

(** [code_postal = %s AND valeur_fonciere IS NOT NULL AND valeur_fonciere > 0] *)
Definition adjustable (code : string) (r : row) : bool :=
  in_postal_code code r && sql_gt (valeur_fonciere r) (Some 0%Z).

Section BulkPriceAdjustment.
(** [percentage_change] is a Python float and the product
    [valeur_fonciere * (1 + percentage_change / 100.0)] is computed and
    stored by the store: the float type and the product stay parameters. *)
Variable float : Type.
Variable adjusted : float -> Z -> Z.

Definition adjust_valeur (percentage_change : float) (r : row) : row :=
  set_valeur_fonciere (option_map (adjusted percentage_change) (valeur_fonciere r)) r.

(** [transaction_bulk_price_adjustment(conn, code_postal, percentage_change)].
    [min_val, max_val = cur.fetchone()] are NULL together, and the formatted
    print of a NULL raises [TypeError]. *)
Definition transaction_bulk_price_adjustment (conn : conn) (code_postal_ : string)
  (percentage_change : float) : prog txE Z :=
  try_except
    (with_conn conn
       (updated_count <- execute conn
          (Update (adjustable code_postal_) (adjust_valeur percentage_change)) ;;
        (if (0 <? updated_count)%nat then
           rows <- execute conn (Select (in_postal_code code_postal_)) ;;
           match sql_min (map valeur_fonciere rows) with
           | None => Raise TypeError
           | Some min_val => Ret tt
           end
         else Ret tt) ;;
        Ret (Z.of_nat updated_count)))
    (except_psycopg2 (fun _ => Ret (-1)%Z)).

Lemma sql_min_present (rows : list row) r :
  In r rows -> valeur_fonciere r <> None ->
  sql_min (map valeur_fonciere rows) <> None.
Proof.
  intros Hin Hv. unfold sql_min.
  destruct (omap (fun v => v) (map valeur_fonciere rows)) as [|x l] eqn:E;
    [|discriminate].
  exfalso. induction rows as [|a rows IH]; [destruct Hin|].
  simpl in E. destruct (valeur_fonciere a) as [v|] eqn:Ea; simpl in E;
    [discriminate|].
  destruct Hin as [->|Hin]; [congruence|auto].
Qed.

(** X8.  Run alone on a freshly connected read-committed session, on a
    table with unique keys, the bulk adjustment returns the number of rows
    of the postal code whose value is present and positive, and has
    committed by itself: those rows carry the adjusted value, and every
    other row (another postal code, a NULL value, a value that is not
    positive) is as it was.  It does not raise: when rows were updated the
    minimum it prints is not NULL. *)
Theorem bulk_price_adjustment_alone
  (tbl : list row) (code_postal_ : string) (percentage_change : float) :
  List.NoDup (map id tbl) ->
  let n := length (List.filter (adjustable code_postal_) tbl) in
  exists w',
    run_seq (connect_then ReadCommitted (fun conn =>
               transaction_bulk_price_adjustment conn code_postal_ percentage_change))
            (init_world tbl) = Some (Returned (Z.of_nat n), w')
    /\ committed (w_store w')
       = map (fun x => if adjustable code_postal_ x
                       then adjust_valeur percentage_change x else x) tbl
    /\ no_open_transaction (w_store w') = true.
Proof.
  intros Hnd n. subst n.
  unfold connect_then, transaction_bulk_price_adjustment, get_connection.
  cbn. rewrite check_targets_go by (intros; reflexivity).
  cbn.
  assert (Hid : forall r, id (adjust_valeur percentage_change r) = id r)
    by reflexivity.
  destruct (length (List.filter (adjustable code_postal_) tbl)) as [|k] eqn:Hn; cbn.
  - eexists. split; [reflexivity|]. cbn.
    change (fold_left apply_write ?ws ?t) with (overlay ws t).
    rewrite overlay_update_where by assumption. split; reflexivity.
  - change (fold_left apply_write ?ws ?t) with (overlay ws t).
    rewrite overlay_update_where by assumption.
    match goal with
    | |- context [sql_min ?vs] => destruct (sql_min vs) as [m|] eqn:Em
    end.
    + cbn. eexists. split; [reflexivity|]. cbn. rewrite app_nil_r.
      change (fold_left apply_write ?ws ?t) with (overlay ws t).
      rewrite overlay_update_where by assumption. split; reflexivity.
    + exfalso.
      destruct (List.filter (adjustable code_postal_) tbl) as [|t l] eqn:Ef;
        [discriminate Hn|].
      assert (Ht : In t (List.filter (adjustable code_postal_) tbl))
        by (rewrite Ef; now left).
      apply filter_In in Ht. destruct Ht as [Ht Ha].
      revert Em. apply (sql_min_present _ (adjust_valeur percentage_change t)).
      * apply filter_In. split.
        -- apply in_map_iff. exists t. now rewrite Ha.
        -- unfold adjustable in Ha. apply andb_true_iff in Ha. tauto.
      * unfold adjustable, sql_gt in Ha. apply andb_true_iff in Ha.
        destruct Ha as [_ Ha]. unfold adjust_valeur, set_valeur_fonciere. cbn.
        destruct (valeur_fonciere t); discriminate.
Qed.

End BulkPriceAdjustment.

(** Five percent more, in whole units. *)
Definition five_percent_more (_ : unit) (v : Z) : Z := (v * 105 / 100)%Z.

Lemma bulk_price_adjustment_alone_witness :
  exists w',
    run_seq (connect_then ReadCommitted (fun conn =>
               transaction_bulk_price_adjustment unit five_percent_more conn "51200.0" tt))
            (init_world [row_1; row_2]) = Some (Returned 1%Z, w')
    /\ committed (w_store w')
       = [set_valeur_fonciere (Some 105000%Z) row_1; row_2].
Proof.
  assert (Hnd : List.NoDup (map id [row_1; row_2])).
  { repeat constructor; simpl; intuition discriminate. }
  destruct (bulk_price_adjustment_alone unit five_percent_more [row_1; row_2] "51200.0" tt Hnd)
    as (w' & H & Hc & _).
  exists w'. split; [exact H|exact Hc].
Defined.

(** X9.  Whatever the store answers, the archive work unit never raises,
    never commits and never rolls back: it returns [-1] exactly when one of
    its statements failed, leaving the failed transaction to its caller, and
    the deleted count otherwise; it makes one statement (the count) when no
    row is older than the cutoff and at most two otherwise. *)
Theorem archive_leaves_transaction_to_caller
  (conn : conn) (cutoff_date : date) (tr : list tx_event) (res : outcome Z) :
  runs_to tx_ev (transaction_archive_old_mutations conn cutoff_date) tr res ->
  commit_called tr = false
  /\ rolled_back conn tr = false
  /\ (exists z, res = Returned z /\ (z = (-1)%Z <-> statement_errors tr <> []))
  /\ length tr <= 2.
Proof.
  intros H. unfold transaction_archive_old_mutations, count_older in H.
  simpl in H. destruct H as (r & tr' & -> & H).
  destruct r as [e|rows]; simpl in H.
  - destruct H as [-> ->]. simpl. repeat split; auto.
    exists (-1)%Z. split; [reflexivity|]. split; [discriminate|reflexivity].
  - destruct (length rows =? 0)%nat eqn:E; simpl in H.
    + destruct H as [-> ->]. simpl. repeat split; auto.
      exists 0%Z. split; [reflexivity|]. split; [discriminate|congruence].
    + destruct H as (r & tr'' & -> & H). destruct r as [e|n]; simpl in H;
        destruct H as [-> ->]; simpl; repeat split; auto.
      * exists (-1)%Z. split; [reflexivity|]. split; [discriminate|reflexivity].
      * exists (Z.of_nat n). split; [reflexivity|]. split; [lia|congruence].
Qed.

Lemma archive_leaves_transaction_to_caller_witness :
  runs_to tx_ev (transaction_archive_old_mutations 0 (2018, 1, 1))
          [EvExecute 0 None; EvExecute 0 (Some OperationalError)] (Returned (-1)%Z)
  /\ rolled_back 0 [EvExecute 0 None; EvExecute 0 (Some OperationalError)] = false.
Proof.
  assert (H : runs_to tx_ev (transaction_archive_old_mutations 0 (2018, 1, 1))
                [EvExecute 0 None; EvExecute 0 (Some OperationalError)]
                (Returned (-1)%Z)).
  { simpl. exists (inr [row_1]), [EvExecute 0 (Some OperationalError)].
    split; [reflexivity|]. simpl.
    exists (inl OperationalError), []. split; [reflexivity|]. split; reflexivity. }
  split; [exact H|].
  exact (proj1 (proj2 (archive_leaves_transaction_to_caller 0 (2018, 1, 1) _ _ H))).
Defined.

(** ** Phantom read: every schedule *)

Lemma filter_has_new_id (tbl : list row) (r : row) (k : nat) :
  (forall x, In x tbl -> id x < k) -> id r = k ->
  List.filter (has_id k) (tbl ++ [r]) = [r].
Proof.
  intros Hk Hr. rewrite List.filter_app. simpl. unfold has_id at 2. rewrite Hr, Nat.eqb_refl.
  replace (List.filter (has_id k) tbl) with (@nil row); [reflexivity|].
  symmetry. induction tbl as [|x l IH]; simpl; [reflexivity|].
  unfold has_id at 1. destruct (id x =? k)%nat eqn:E.
  - apply Nat.eqb_eq in E. specialize (Hk x (or_introl eq_refl)). lia.
  - apply IH. intros y Hy. apply Hk. now right.
Qed.

Lemma delete_new_row (tbl : list row) (r : row) (k : nat) :
  (forall x, In x tbl -> id x < k) -> id r = k ->
  List.filter (fun x => negb (id x =? k)%nat) (tbl ++ [r]) = tbl.
Proof.
  intros Hk Hr. rewrite List.filter_app. simpl. rewrite Hr, Nat.eqb_refl. simpl.
  rewrite app_nil_r. induction tbl as [|x l IH]; simpl; [reflexivity|].
  destruct (id x =? k)%nat eqn:E; simpl.
  - apply Nat.eqb_eq in E. specialize (Hk x (or_introl eq_refl)). lia.
  - f_equal. apply IH. intros y Hy. apply Hk. now right.
Qed.

Lemma count_with_new_row (p : row -> bool) (tbl : list row) (r : row) :
  p r = true -> length (List.filter p (tbl ++ [r])) = S (length (List.filter p tbl)).
Proof.
  intros Hp. rewrite List.filter_app, length_app. simpl. rewrite Hp. simpl. lia.
Qed.

Lemma keys_below_next (tbl : list row) x : In x tbl -> id x < S (list_max (map id tbl)).
Proof. apply keys_below_sequence. Qed.

Lemma keys_below_second (tbl : list row) x :
  In x tbl -> id x < S (S (list_max (map id tbl))).
Proof. intros H. apply keys_below_sequence in H. lia. Qed.

(** The inserter (the second thread) has ended. *)
Definition inserter_done (pl : pool) : bool :=
  match p_threads pl !! 1 with
  | Some t => finished t
  | None => false
  end.

Section Phantom.
(** Some record of the test commune has a value: the average the inserter
    prints is not NULL. *)
Variables (tbl : list row) (avg : Z * nat).
Hypothesis Havg :
  sql_avg (map valeur_fonciere (List.filter (in_commune (Some test_commune)) tbl))
  = Some avg.

Ltac phantom_rw :=
  repeat match goal with
  | |- context [sql_avg (map valeur_fonciere
                   (List.filter (in_commune (Some test_commune)) tbl))] =>
      rewrite Havg; cbn
  | |- context [List.filter (has_id ?k) (tbl ++ [?r])] =>
      rewrite (filter_has_new_id tbl r k)
        by (first [reflexivity | apply keys_below_next | apply keys_below_second]);
      cbn
  | |- context [List.filter (fun x => negb (id x =? ?k)%nat) (tbl ++ [?r])] =>
      rewrite (delete_new_row tbl r k)
        by (first [reflexivity | apply keys_below_next | apply keys_below_second]);
      cbn
  | |- context [length (List.filter expensive_in_test_commune (tbl ++ [_]))] =>
      rewrite count_with_new_row by reflexivity; cbn
  | |- context [<[(?d, "tx1_read2") := _]> (<[(?d, "tx2_inserted") := _]> _)] =>
      rewrite (fun a b m =>
                 @results_swap (d, "tx1_read2") (d, "tx2_inserted")
                               a b m ltac:(discriminate)); cbn
  end.

Variable sale_no : nat.

Let count : nat := length (List.filter expensive_in_test_commune tbl).

(** A session after [conn.close()]. *)
Definition closed_session (autocommit : bool) : session :=
  mkSession ReadCommitted autocommit true Idle [] 0 [].

(** *** The reader at read-committed *)

Definition phantom_world_rc : world := mkWorld (init_store tbl) 2 0 ∅.

Definition phantom_pool_rc : pool :=
  mkPool phantom_world_rc [tx1_reader_rc; tx2_inserter_rc sale_no].

(** What holds once both threads have ended. *)
Definition phantom_final_rc (pl : pool) : Prop :=
  all_done pl = true ->
  let w := p_world pl in
  committed (w_store w) = tbl
  /\ next_id (w_store w) = S (S (list_max (map id tbl)))
  /\ sessions (w_store w)
     = [closed_session false; closed_session false; closed_session true]
  /\ w_results w !! ("results_rc", "tx2_inserted") = Some (VBool true)
  /\ w_results w !! ("results_rc", "tx1_read1") = Some (VInt (Z.of_nat count))
  /\ (w_results w !! ("results_rc", "tx1_read2") = Some (VInt (Z.of_nat count))
      \/ w_results w !! ("results_rc", "tx1_read2") = Some (VInt (Z.of_nat (S count)))).

Ltac phantom_final_rc_tac :=
  unfold phantom_final_rc; cbn; intros Hd;
  first [ discriminate Hd
        | repeat split; first [reflexivity | left; reflexivity | right; reflexivity] ].

Lemma phantom_every_schedule_rc : always phantom_final_rc phantom_pool_rc.
Proof using Havg.
  unfold phantom_pool_rc, phantom_world_rc, init_store, tx1_reader_rc, tx2_inserter_rc,
    phantom_reader, phantom_inserter, transaction_register_sale. cbn.
  explore_all_by phantom_rw phantom_final_rc_tac ltac:(fun pl E0 E1 => idtac).
Qed.

(** *** The reader at repeatable-read

    The second half starts where the first ended: the table as it was, three
    closed sessions, the sequence one further; how many commits there were,
    what they wrote and what [results_rc] holds does not matter. *)
Variables (ck : nat) (wl : list (nat * nat)) (res : gmap (string * string) pyval).

Definition phantom_world_rr : world :=
  mkWorld (mkStore tbl ck wl (S (S (list_max (map id tbl))))
                   [closed_session false; closed_session false; closed_session true])
          2 0 res.

Definition phantom_pool_rr : pool :=
  mkPool phantom_world_rr [tx1_reader_rr; tx2_inserter_rr sale_no].

Definition phantom_final_rr (pl : pool) : Prop :=
  all_done pl = true ->
  let w := p_world pl in
  committed (w_store w) = tbl
  /\ no_open_transaction (w_store w) = true
  /\ w_results w !! ("results_rr", "tx2_inserted") = Some (VBool true)
  /\ w_results w !! ("results_rr", "tx1_read1") = Some (VInt (Z.of_nat count))
  /\ w_results w !! ("results_rr", "tx1_read2") = Some (VInt (Z.of_nat count))
  /\ (forall k, w_results w !! ("results_rc", k) = res !! ("results_rc", k)).

Ltac phantom_final_rr_tac :=
  unfold phantom_final_rr; cbn; intros Hd;
  first [ discriminate Hd
        | repeat split; intros;
          repeat first [ rewrite lookup_insert_eq | rewrite lookup_insert_ne by discriminate ];
          reflexivity ].

Lemma phantom_every_schedule_rr : always phantom_final_rr phantom_pool_rr.
Proof using Havg.
  unfold phantom_pool_rr, phantom_world_rr, closed_session, tx1_reader_rr,
    tx2_inserter_rr, phantom_reader, phantom_inserter, transaction_register_sale. cbn.
  explore_all_by phantom_rw phantom_final_rr_tac ltac:(fun pl E0 E1 => idtac).
Qed.

(** The interleaving the delays are written for: the reader counts and
    waits at the barrier (4 turns); the inserter runs to its end while the
    reader sleeps: connect, barrier, average, sleep, insert, commit, record,
    close, and the cleanup: connect, delete, close (12 turns); the reader
    counts again and ends (6 turns). *)
Definition phantom_hidden : list nat := repeat 0 4 ++ repeat 1 12 ++ repeat 0 6.

(** The second count falls between the inserter's commit (7 turns) and its
    cleanup. *)
Definition phantom_seen : list nat := repeat 0 4 ++ repeat 1 7 ++ repeat 0 6 ++ repeat 1 5.

Lemma phantom_hidden_run_rc :
  all_done (run phantom_hidden phantom_pool_rc) = true
  /\ w_results (p_world (run phantom_hidden phantom_pool_rc))
       !! ("results_rc", "tx1_read2")
     = Some (VInt (Z.of_nat (length (List.filter expensive_in_test_commune tbl)))).
Proof using Havg.
  change phantom_hidden
    with [0; 0; 0; 0; 1; 1; 1; 1; 1; 1; 1; 1; 1; 1; 1; 1; 0; 0; 0; 0; 0; 0].
  unfold phantom_pool_rc, phantom_world_rc, init_store, tx1_reader_rc, tx2_inserter_rc,
    phantom_reader, phantom_inserter, transaction_register_sale.
  do 22 (run_step_by phantom_rw). split; reflexivity.
Qed.

Lemma phantom_seen_run_rc :
  all_done (run phantom_seen phantom_pool_rc) = true
  /\ w_results (p_world (run phantom_seen phantom_pool_rc))
       !! ("results_rc", "tx1_read2")
     = Some (VInt (Z.of_nat (S (length (List.filter expensive_in_test_commune tbl))))).
Proof using Havg.
  change phantom_seen
    with [0; 0; 0; 0; 1; 1; 1; 1; 1; 1; 1; 0; 0; 0; 0; 0; 0; 1; 1; 1; 1; 1].
  unfold phantom_pool_rc, phantom_world_rc, init_store, tx1_reader_rc, tx2_inserter_rc,
    phantom_reader, phantom_inserter, transaction_register_sale.
  do 22 (run_step_by phantom_rw). split; reflexivity.
Qed.

Lemma phantom_hidden_run_rr :
  all_done (run phantom_hidden phantom_pool_rr) = true.
Proof using Havg.
  change phantom_hidden
    with [0; 0; 0; 0; 1; 1; 1; 1; 1; 1; 1; 1; 1; 1; 1; 1; 0; 0; 0; 0; 0; 0].
  unfold phantom_pool_rr, phantom_world_rr, closed_session, tx1_reader_rr,
    tx2_inserter_rr, phantom_reader, phantom_inserter, transaction_register_sale.
  do 22 (run_step_by phantom_rw). reflexivity.
Qed.

(** *** The order of the second count and the cleanup *)

(** Once both threads have ended, the second count recorded is [n]. *)
Definition second_count_is (n : nat) (pl : pool) : Prop :=
  all_done pl = true ->
  w_results (p_world pl) !! ("results_rc", "tx1_read2") = Some (VInt (Z.of_nat n)).

Ltac second_count_tac :=
  unfold second_count_is; cbn; intros Hd;
  first [discriminate Hd | reflexivity].

(** The number of committed rows the reader's predicate selects. *)
Definition committed_count (pl : pool) : nat :=
  length (List.filter expensive_in_test_commune (committed (w_store (p_world pl)))).

(** When the reader makes its second count while the committed table holds
    one more row of its predicate, it counts one more, however the schedule
    goes on; when it comes to its second count after the inserter has
    ended, it counts the same number again. *)
Definition count_follows_table (pl : pool) : Prop :=
  at_second_read pl = true ->
  (committed_count pl = S (length (List.filter expensive_in_test_commune tbl)) ->
   always (second_count_is (S (length (List.filter expensive_in_test_commune tbl))))
          (turn pl 0))
  /\ (inserter_done pl = true ->
      always (second_count_is (length (List.filter expensive_in_test_commune tbl))) pl).

Ltac count_follows_tac :=
  unfold count_follows_table; intros Hs; lazy in Hs;
  first
    [ discriminate Hs
    | split;
      [ intros Hc;
        first [ match goal with
                | E : turn ?pl 0 = _ |- always _ (turn ?pl 0) => rewrite E; assumption
                end
              | exfalso; revert Hc; unfold committed_count;
                cbn; phantom_rw; clear; intros Hc; lia ]
      | intros Hi; lazy in Hi; first [discriminate Hi | assumption] ] ].

Lemma phantom_count_follows_table :
  always count_follows_table phantom_pool_rc.
Proof using Havg.
  unfold phantom_pool_rc, phantom_world_rc, init_store, tx1_reader_rc, tx2_inserter_rc,
    phantom_reader, phantom_inserter, transaction_register_sale. cbn.
  explore_all_by phantom_rw count_follows_tac
    ltac:(fun pl E0 E1 =>
            also (second_count_is (S (length (List.filter expensive_in_test_commune tbl))))
                 second_count_tac pl E0 E1;
            also (second_count_is (length (List.filter expensive_in_test_commune tbl)))
                 second_count_tac pl E0 E1).
Qed.

(** In [phantom_seen] the reader makes its second count (its fourteenth
    turn) while the inserted row is committed; in [phantom_hidden] it comes
    to its second count after the inserter has ended. *)
Lemma phantom_seen_row_in_place :
  let pl := run (firstn 13 phantom_seen) phantom_pool_rc in
  at_second_read pl = true
  /\ committed_count pl = S (length (List.filter expensive_in_test_commune tbl)).
Proof using Havg.
  change (firstn 13 phantom_seen) with [0; 0; 0; 0; 1; 1; 1; 1; 1; 1; 1; 0; 0].
  unfold phantom_pool_rc, phantom_world_rc, init_store, tx1_reader_rc, tx2_inserter_rc,
    phantom_reader, phantom_inserter, transaction_register_sale.
  do 13 (run_step_by phantom_rw). split; [reflexivity|].
  unfold committed_count. cbn. phantom_rw. reflexivity.
Qed.

Lemma phantom_hidden_inserter_done :
  let pl := run (firstn 18 phantom_hidden) phantom_pool_rc in
  at_second_read pl = true /\ inserter_done pl = true.
Proof using Havg.
  change (firstn 18 phantom_hidden)
    with [0; 0; 0; 0; 1; 1; 1; 1; 1; 1; 1; 1; 1; 1; 1; 1; 0; 0].
  unfold phantom_pool_rc, phantom_world_rc, init_store, tx1_reader_rc, tx2_inserter_rc,
    phantom_reader, phantom_inserter, transaction_register_sale.
  do 18 (run_step_by phantom_rw). split; reflexivity.
Qed.

End Phantom.

Lemma phantom_demo_joined (tbl : list row) (avg : Z * nat) (n1 n2 : nat) (s1 s2 : list nat) :
  sql_avg (map valeur_fonciere (List.filter (in_commune (Some test_commune)) tbl))
  = Some avg ->
  let pl1 := run s1 (phantom_pool_rc tbl n1) in
  let w1 := p_world pl1 in
  let pl2 := run s2 (phantom_pool_rr tbl n2 (clock (w_store w1)) (wlog (w_store w1))
                                     (w_results w1)) in
  run_main (demo_phantom_read n1 n2) [s1; s2] (init_world tbl)
  = if all_done pl1
    then if all_done pl2 then Some (Returned tt, p_world pl2) else None
    else None.
Proof.
  intros Havg. cbn zeta.
  unfold demo_phantom_read.
  cbn -[tx1_reader_rc tx2_inserter_rc tx1_reader_rr tx2_inserter_rr run all_done].
  change (mkPool (mkWorld (init_store tbl) 2 0 ∅) [tx1_reader_rc; tx2_inserter_rc n1])
    with (phantom_pool_rc tbl n1).
  destruct (all_done (run s1 (phantom_pool_rc tbl n1))) eqn:Hd1; [|reflexivity].
  destruct (phantom_every_schedule_rc tbl avg Havg n1 s1 Hd1) as (Hc & Hn & Hs & _).
  set (w1 := p_world (run s1 (phantom_pool_rc tbl n1))) in *. clearbody w1.
  destruct w1 as [[ct ck wl nx ss] pa ar re]. cbn in Hc, Hn, Hs. subst ct nx ss.
  cbn -[tx1_reader_rc tx2_inserter_rc tx1_reader_rr tx2_inserter_rr run all_done].
  change (mkPool _ [tx1_reader_rr; tx2_inserter_rr n2])
    with (phantom_pool_rr tbl n2 ck wl re).
  destruct (all_done (run s2 (phantom_pool_rr tbl n2 ck wl re))); reflexivity.
Qed.

Section PhantomWithoutAverage.
(** No record of the test commune has a value: [AVG] is NULL. *)
Variable tbl : list row.
Hypothesis Hnull :
  sql_avg (map valeur_fonciere (List.filter (in_commune (Some test_commune)) tbl))
  = None.

Ltac null_rw :=
  repeat match goal with
  | |- context [sql_avg (map valeur_fonciere
                   (List.filter (in_commune (Some test_commune)) tbl))] =>
      rewrite Hnull; cbn
  | |- context [<[(?d, "tx1_read2") := _]> (<[(?d, "tx2_inserted") := _]> _)] =>
      rewrite (fun a b m =>
                 @results_swap (d, "tx1_read2") (d, "tx2_inserted")
                               a b m ltac:(discriminate)); cbn
  end.

Variable sale_no : nat.

Definition null_final_rc (pl : pool) : Prop :=
  all_done pl = true ->
  let w := p_world pl in
  committed (w_store w) = tbl
  /\ next_id (w_store w) = S (list_max (map id tbl))
  /\ sessions (w_store w) = [closed_session false; closed_session false]
  /\ w_results w !! ("results_rc", "tx2_inserted") = Some (VBool false)
  /\ w_results w !! ("results_rc", "tx1_read1")
     = Some (VInt (Z.of_nat (length (List.filter expensive_in_test_commune tbl))))
  /\ w_results w !! ("results_rc", "tx1_read2")
     = Some (VInt (Z.of_nat (length (List.filter expensive_in_test_commune tbl)))).

Ltac null_final_rc_tac :=
  unfold null_final_rc; cbn; intros Hd;
  first [discriminate Hd | repeat split; reflexivity].

Lemma null_every_schedule_rc : always null_final_rc (phantom_pool_rc tbl sale_no).
Proof using Hnull.
  unfold phantom_pool_rc, phantom_world_rc, init_store, tx1_reader_rc, tx2_inserter_rc,
    phantom_reader, phantom_inserter, transaction_register_sale. cbn.
  explore_all_by null_rw null_final_rc_tac ltac:(fun pl E0 E1 => idtac).
Qed.

Variables (ck : nat) (wl : list (nat * nat)) (res : gmap (string * string) pyval).

Definition null_pool_rr : pool :=
  mkPool (mkWorld (mkStore tbl ck wl (S (list_max (map id tbl)))
                     [closed_session false; closed_session false]) 2 0 res)
         [tx1_reader_rr; tx2_inserter_rr sale_no].

Definition null_final_rr (pl : pool) : Prop :=
  all_done pl = true ->
  let w := p_world pl in
  committed (w_store w) = tbl
  /\ no_open_transaction (w_store w) = true
  /\ w_results w !! ("results_rr", "tx2_inserted") = Some (VBool false)
  /\ w_results w !! ("results_rr", "tx1_read1")
     = Some (VInt (Z.of_nat (length (List.filter expensive_in_test_commune tbl))))
  /\ w_results w !! ("results_rr", "tx1_read2")
     = Some (VInt (Z.of_nat (length (List.filter expensive_in_test_commune tbl))))
  /\ (forall k, w_results w !! ("results_rc", k) = res !! ("results_rc", k)).

Ltac null_final_rr_tac :=
  unfold null_final_rr; cbn; intros Hd;
  first [ discriminate Hd
        | repeat split; intros;
          repeat first [rewrite lookup_insert_eq | rewrite lookup_insert_ne by discriminate];
          reflexivity ].

Lemma null_every_schedule_rr : always null_final_rr null_pool_rr.
Proof using Hnull.
  unfold null_pool_rr, closed_session, tx1_reader_rr, tx2_inserter_rr,
    phantom_reader, phantom_inserter, transaction_register_sale. cbn.
  explore_all_by null_rw null_final_rr_tac ltac:(fun pl E0 E1 => idtac).
Qed.

(** The reader to the barrier, the inserter to its end, the reader to its
    end. *)
Definition null_schedule : list nat := repeat 0 4 ++ repeat 1 7 ++ repeat 0 6.

Lemma null_schedule_run_rc :
  all_done (run null_schedule (phantom_pool_rc tbl sale_no)) = true.
Proof using Hnull.
  change null_schedule with [0; 0; 0; 0; 1; 1; 1; 1; 1; 1; 1; 0; 0; 0; 0; 0; 0].
  unfold phantom_pool_rc, phantom_world_rc, init_store, tx1_reader_rc, tx2_inserter_rc,
    phantom_reader, phantom_inserter, transaction_register_sale.
  do 17 (run_step_by null_rw). reflexivity.
Qed.

Lemma null_schedule_run_rr :
  all_done (run null_schedule null_pool_rr) = true.
Proof using Hnull.
  change null_schedule with [0; 0; 0; 0; 1; 1; 1; 1; 1; 1; 1; 0; 0; 0; 0; 0; 0].
  unfold null_pool_rr, closed_session, tx1_reader_rr, tx2_inserter_rr,
    phantom_reader, phantom_inserter, transaction_register_sale.
  do 17 (run_step_by null_rw). reflexivity.
Qed.

End PhantomWithoutAverage.

Lemma null_demo_joined (tbl : list row) (n1 n2 : nat) (s1 s2 : list nat) :
  sql_avg (map valeur_fonciere (List.filter (in_commune (Some test_commune)) tbl))
  = None ->
  let pl1 := run s1 (phantom_pool_rc tbl n1) in
  let w1 := p_world pl1 in
  let pl2 := run s2 (null_pool_rr tbl n2 (clock (w_store w1)) (wlog (w_store w1))
                                  (w_results w1)) in
  run_main (demo_phantom_read n1 n2) [s1; s2] (init_world tbl)
  = if all_done pl1
    then if all_done pl2 then Some (Returned tt, p_world pl2) else None
    else None.
Proof.
  intros Hnull. cbn zeta.
  unfold demo_phantom_read.
  cbn -[tx1_reader_rc tx2_inserter_rc tx1_reader_rr tx2_inserter_rr run all_done].
  change (mkPool (mkWorld (init_store tbl) 2 0 ∅) [tx1_reader_rc; tx2_inserter_rc n1])
    with (phantom_pool_rc tbl n1).
  destruct (all_done (run s1 (phantom_pool_rc tbl n1))) eqn:Hd1; [|reflexivity].
  destruct (null_every_schedule_rc tbl Hnull n1 s1 Hd1) as (Hc & Hn & Hs & _).
  set (w1 := p_world (run s1 (phantom_pool_rc tbl n1))) in *. clearbody w1.
  destruct w1 as [[ct ck wl nx ss] pa ar re]. cbn in Hc, Hn, Hs. subst ct nx ss.
  cbn -[tx1_reader_rc tx2_inserter_rc tx1_reader_rr tx2_inserter_rr run all_done].
  change (mkPool _ [tx1_reader_rr; tx2_inserter_rr n2])
    with (null_pool_rr tbl n2 ck wl re).
  destruct (all_done (run s2 (null_pool_rr tbl n2 ck wl re))); reflexivity.
Qed.


Lemma phantom_demo_runs (tbl : list row) (avg : Z * nat) (n1 n2 : nat) :
  sql_avg (map valeur_fonciere (List.filter (in_commune (Some test_commune)) tbl))
  = Some avg ->
  let demo scheds := run_main (demo_phantom_read n1 n2) scheds (init_world tbl) in
  let count := length (List.filter expensive_in_test_commune tbl) in
  (exists w', demo [phantom_seen; phantom_hidden] = Some (Returned tt, w')
     /\ w_results w' !! ("results_rc", "tx1_read2")
        = Some (VInt (Z.of_nat (S count))))
  /\ (exists w', demo [phantom_hidden; phantom_hidden] = Some (Returned tt, w')
        /\ w_results w' !! ("results_rc", "tx1_read2")
           = Some (VInt (Z.of_nat count))).
Proof.
  intros Havg demo count. subst demo count. cbv beta.
  pose proof (phantom_demo_joined tbl avg n1 n2) as Hjoin. cbv zeta in Hjoin.
  split.
  - destruct (phantom_seen_run_rc tbl avg Havg n1) as [Hd1 H2].
    rewrite (Hjoin phantom_seen phantom_hidden Havg), Hd1.
    rewrite (phantom_hidden_run_rr tbl avg Havg n2).
    eexists; split; [reflexivity|].
    match goal with
    | |- w_results (p_world (run ?s (phantom_pool_rr _ _ ?ck ?wl ?res))) !! _ = _ =>
        destruct (phantom_every_schedule_rr tbl avg Havg n2 ck wl res s
                    (phantom_hidden_run_rr tbl avg Havg n2 ck wl res))
          as (_ & _ & _ & _ & _ & Hsame)
    end.
    cbv zeta in Hsame. rewrite Hsame. exact H2.
  - destruct (phantom_hidden_run_rc tbl avg Havg n1) as [Hd1 H2].
    rewrite (Hjoin phantom_hidden phantom_hidden Havg), Hd1.
    rewrite (phantom_hidden_run_rr tbl avg Havg n2).
    eexists; split; [reflexivity|].
    match goal with
    | |- w_results (p_world (run ?s (phantom_pool_rr _ _ ?ck ?wl ?res))) !! _ = _ =>
        destruct (phantom_every_schedule_rr tbl avg Havg n2 ck wl res s
                    (phantom_hidden_run_rr tbl avg Havg n2 ck wl res))
          as (_ & _ & _ & _ & _ & Hsame)
    end.
    cbv zeta in Hsame. rewrite Hsame. exact H2.
Qed.

Lemma null_demo_runs (tbl : list row) (n1 n2 : nat) :
  sql_avg (map valeur_fonciere (List.filter (in_commune (Some test_commune)) tbl))
  = None ->
  exists w',
    run_main (demo_phantom_read n1 n2) [null_schedule; null_schedule] (init_world tbl)
    = Some (Returned tt, w').
Proof.
  intros Hnull.
  rewrite (null_demo_joined tbl n1 n2 null_schedule null_schedule Hnull).
  rewrite (null_schedule_run_rc tbl Hnull n1), (null_schedule_run_rr tbl Hnull n2).
  eexists; reflexivity.
Qed.

(** X12.  Let some record of commune 01053 have a value.  Whatever the two
    schedules, when the phantom-read demo ends the inserters of both parts
    report [tx2_inserted = True], both first counts are the number of
    records of the commune above [test_value - 1], the second count under
    REPEATABLE READ is that number again, and the second count under READ
    COMMITTED is that number or one more.  It is one more under
    [phantom_seen], where the second count comes after the inserter's commit
    and before its cleanup, and the same number under [phantom_hidden],
    where the inserter also deletes its row while the reader sleeps. *)
Theorem phantom_read_counts (tbl : list row) (avg : Z * nat) (n1 n2 : nat) :
  sql_avg (map valeur_fonciere (List.filter (in_commune (Some test_commune)) tbl))
  = Some avg ->
  let demo scheds := run_main (demo_phantom_read n1 n2) scheds (init_world tbl) in
  let count := length (List.filter expensive_in_test_commune tbl) in
  (forall s1 s2 w', demo [s1; s2] = Some (Returned tt, w') ->
     let rc k := w_results w' !! ("results_rc", k) in
     let rr k := w_results w' !! ("results_rr", k) in
     rc "tx2_inserted" = Some (VBool true)
     /\ rc "tx1_read1" = Some (VInt (Z.of_nat count))
     /\ (rc "tx1_read2" = Some (VInt (Z.of_nat count))
         \/ rc "tx1_read2" = Some (VInt (Z.of_nat (S count))))
     /\ rr "tx2_inserted" = Some (VBool true)
     /\ rr "tx1_read1" = Some (VInt (Z.of_nat count))
     /\ rr "tx1_read2" = Some (VInt (Z.of_nat count)))
  /\ (exists w', demo [phantom_seen; phantom_hidden] = Some (Returned tt, w')
        /\ w_results w' !! ("results_rc", "tx1_read2")
           = Some (VInt (Z.of_nat (S count))))
  /\ (exists w', demo [phantom_hidden; phantom_hidden] = Some (Returned tt, w')
        /\ w_results w' !! ("results_rc", "tx1_read2")
           = Some (VInt (Z.of_nat count))).
Proof.
  intros Havg demo count. subst demo count. cbv beta.
  pose proof (phantom_demo_joined tbl avg n1 n2) as Hjoin. cbv zeta in Hjoin.
  split; [|split].
  - intros s1 s2 w' Hres rc rr. rewrite (Hjoin s1 s2 Havg) in Hres.
    destruct (all_done (run s1 (phantom_pool_rc tbl n1))) eqn:Hd1; [|discriminate].
    match type of Hres with
    | (if all_done ?pl then _ else _) = _ => destruct (all_done pl) eqn:Hd2; [|discriminate]
    end.
    injection Hres as <-.
    destruct (phantom_every_schedule_rc tbl avg Havg n1 s1 Hd1)
      as (_ & _ & _ & Hi & H1 & H2).
    destruct (phantom_every_schedule_rr tbl avg Havg n2 _ _ _ s2 Hd2)
      as (_ & _ & Hi' & H1' & H2' & Hsame).
    cbv zeta in Hsame. unfold rc, rr. rewrite !Hsame.
    repeat split; assumption.
  - exact (proj1 (phantom_demo_runs tbl avg n1 n2 Havg)).
  - exact (proj2 (phantom_demo_runs tbl avg n1 n2 Havg)).
Qed.

Lemma phantom_read_counts_witness :
  sql_avg (map valeur_fonciere
             (List.filter (in_commune (Some test_commune)) [row_1; row_3]))
  = Some (250000%Z, 1)
  /\ exists w',
       run_main (demo_phantom_read 12345 54321) [phantom_seen; phantom_hidden]
                (init_world [row_1; row_3]) = Some (Returned tt, w')
       /\ w_results w' !! ("results_rc", "tx1_read2") = Some (VInt 1).
Proof.
  split; [reflexivity|].
  exact (proj1 (proj2 (phantom_read_counts [row_1; row_3] (250000%Z, 1) 12345 54321
                         eq_refl))).
Defined.




(** X13.  Whatever the table and the two schedules, when the phantom-read
    demo ends the table is the one it started with and no transaction is
    open: what the inserters add they delete again by its key. *)
Theorem phantom_demo_restores_table (tbl : list row) (n1 n2 : nat)
  (s1 s2 : list nat) (w' : world) :
  run_main (demo_phantom_read n1 n2) [s1; s2] (init_world tbl)
  = Some (Returned tt, w') ->
  committed (w_store w') = tbl /\ no_open_transaction (w_store w') = true.
Proof.
  intros Hres.
  destruct (sql_avg (map valeur_fonciere
              (List.filter (in_commune (Some test_commune)) tbl))) as [avg|] eqn:Havg.
  - rewrite (phantom_demo_joined tbl avg n1 n2 s1 s2 Havg) in Hres.
    destruct (all_done (run s1 (phantom_pool_rc tbl n1))) eqn:Hd1; [|discriminate].
    match type of Hres with
    | (if all_done ?pl then _ else _) = _ => destruct (all_done pl) eqn:Hd2; [|discriminate]
    end.
    injection Hres as <-.
    destruct (phantom_every_schedule_rr tbl avg Havg n2 _ _ _ s2 Hd2) as (Hc & Hq & _).
    split; assumption.
  - rewrite (null_demo_joined tbl n1 n2 s1 s2 Havg) in Hres.
    destruct (all_done (run s1 (phantom_pool_rc tbl n1))) eqn:Hd1; [|discriminate].
    match type of Hres with
    | (if all_done ?pl then _ else _) = _ => destruct (all_done pl) eqn:Hd2; [|discriminate]
    end.
    injection Hres as <-.
    destruct (null_every_schedule_rr tbl Havg n2 _ _ _ s2 Hd2) as (Hc & Hq & _).
    split; assumption.
Qed.

Lemma phantom_demo_restores_table_witness :
  exists w',
    run_main (demo_phantom_read 12345 54321) [phantom_seen; phantom_hidden]
             (init_world [row_1; row_3]) = Some (Returned tt, w')
    /\ committed (w_store w') = [row_1; row_3]
    /\ no_open_transaction (w_store w') = true.
Proof.
  destruct (proj1 (phantom_demo_runs [row_1; row_3] (250000%Z, 1) 12345 54321 eq_refl))
    as (w' & Hres & _).
  exists w'. split; [exact Hres|].
  exact (phantom_demo_restores_table [row_1; row_3] 12345 54321
           phantom_seen phantom_hidden w' Hres).
Defined.

(** X14.  Let no record of commune 01053 have a value, so that the average
    the sale registration formats is NULL.  Whatever the two schedules, when
    the phantom-read demo ends both inserters report [tx2_inserted = False]
    and the two counts of each reader are equal: the [TypeError] of the
    format string leaves [transaction_register_sale] before its insert.  The
    demo does end, under [null_schedule] for both parts. *)
Theorem phantom_demo_without_priced_sale (tbl : list row) (n1 n2 : nat) :
  sql_avg (map valeur_fonciere (List.filter (in_commune (Some test_commune)) tbl))
  = None ->
  let demo scheds := run_main (demo_phantom_read n1 n2) scheds (init_world tbl) in
  let count := length (List.filter expensive_in_test_commune tbl) in
  (forall s1 s2 w', demo [s1; s2] = Some (Returned tt, w') ->
     let rc k := w_results w' !! ("results_rc", k) in
     let rr k := w_results w' !! ("results_rr", k) in
     rc "tx2_inserted" = Some (VBool false)
     /\ rc "tx1_read1" = Some (VInt (Z.of_nat count))
     /\ rc "tx1_read2" = Some (VInt (Z.of_nat count))
     /\ rr "tx2_inserted" = Some (VBool false)
     /\ rr "tx1_read1" = Some (VInt (Z.of_nat count))
     /\ rr "tx1_read2" = Some (VInt (Z.of_nat count)))
  /\ (exists w', demo [null_schedule; null_schedule] = Some (Returned tt, w')).
Proof.
  intros Hnull demo count. subst demo count. cbv beta.
  split; [|exact (null_demo_runs tbl n1 n2 Hnull)].
  intros s1 s2 w' Hres rc rr.
  rewrite (null_demo_joined tbl n1 n2 s1 s2 Hnull) in Hres.
  destruct (all_done (run s1 (phantom_pool_rc tbl n1))) eqn:Hd1; [|discriminate].
  match type of Hres with
  | (if all_done ?pl then _ else _) = _ => destruct (all_done pl) eqn:Hd2; [|discriminate]
  end.
  injection Hres as <-.
  destruct (null_every_schedule_rc tbl Hnull n1 s1 Hd1) as (_ & _ & _ & Hi & H1 & H2).
  destruct (null_every_schedule_rr tbl Hnull n2 _ _ _ s2 Hd2)
    as (_ & _ & Hi' & H1' & H2' & Hsame).
  cbv zeta in Hsame. unfold rc, rr. rewrite !Hsame.
  repeat split; assumption.
Qed.

Lemma phantom_demo_without_priced_sale_witness :
  sql_avg (map valeur_fonciere
             (List.filter (in_commune (Some test_commune)) [row_1; row_2])) = None
  /\ exists w',
       run_main (demo_phantom_read 12345 54321) [null_schedule; null_schedule]
                (init_world [row_1; row_2]) = Some (Returned tt, w').
Proof.
  split; [reflexivity|].
  exact (proj2 (phantom_demo_without_priced_sale [row_1; row_2] 12345 54321 eq_refl)).
Defined.

(** ** Failing statements: the dry run and the threads of the scenarios *)

Definition is_statement (c : conn) (e : tx_event) : bool :=
  match e with EvExecute c' _ => (c' =? c)%nat | _ => false end.

(** Picks, in a goal about a run of the dry run, the statements made before
    the rollback and the answer to the count made after it. *)
Ltac dry_run_parts :=
  match goal with
  | |- exists c report pre r, Returned ?rep = _ /\ (EvConnect ?x :: ?rest) = _ /\ _ =>
      let pre := eval cbn in (firstn (length rest - 3) rest) in
      let r := eval cbn in (match nth_error rest (length rest - 2) with
                            | Some (EvExecute _ r) => r
                            | _ => None
                            end) in
      exists x, rep, pre, r
  end.


(** Answers the next call of a run with [r]. *)
Ltac answer r := exists r; eexists; split; [reflexivity|]; simpl.

(** The delete of the archive work unit fails. *)
Definition dry_run_delete_fails : list tx_event :=
  [EvConnect 0; EvExecute 0 None; EvExecute 0 None; EvExecute 0 (Some OperationalError);
   EvRollback 0; EvExecute 0 None; EvClose 0].

Lemma runs_to_dry_run_delete_fails :
  runs_to tx_ev (run_archive_test_with_rollback (2018, 1, 1)) dry_run_delete_fails
          (Returned (mkReport 1 None (Some 1))).
Proof.
  unfold dry_run_delete_fails. simpl.
  answer 0. answer (@inr pgerror _ [row_1]). answer (@inr pgerror _ [row_1]).
  answer (@inl pgerror nat OperationalError). answer tt.
  answer (@inr pgerror _ [row_1]). answer tt. split; reflexivity.
Qed.


(** The connections a run has opened and not closed, latest first. *)
Fixpoint left_open (tr : list tx_event) (open : list conn) : list conn :=
  match tr with
  | [] => open
  | EvConnect c :: tr' => left_open tr' (c :: open)
  | EvClose c :: tr' => left_open tr' (List.filter (fun c' => negb (c' =? c)%nat) open)
  | _ :: tr' => left_open tr' open
  end.

(** As [run_cases], taking a store error apart before the clause that
    looks at its kind. *)
Ltac thread_cases H :=
  repeat (simpl in H;
          match type of H with
          | exists _, _ => destruct H as (? & ? & -> & H)
          | _ /\ _ => destruct H as [-> ->]
          | context [match ?r with _ => _ end] => is_var r; destruct r
          | context [match ?r with _ => _ end] => destruct r
          end).

Ltac closes_all H :=
  thread_cases H;
  repeat match goal with x : unit |- _ => destruct x end;
  simpl; rewrite ?Nat.eqb_refl; simpl; split; reflexivity.

(** After the calls recorded in [tr], the next call of [p] is a barrier
    wait without timeout. *)
Fixpoint waiting_after {A} (p : prog txE A) (tr : list tx_event) : Prop :=
  match p with
  | Vis o k =>
      (tr = [] /\ is_untimed_wait o = true)
      \/ exists r tr', tr = tx_ev _ o r :: tr' /\ waiting_after (k r) tr'
  | _ => False
  end.

Ltac waits_cases H :=
  repeat (simpl in H;
          match type of H with
          | False => destruct H
          | _ \/ _ => destruct H as [H|H]
          | _ /\ false = true => destruct H as [_ H]; discriminate H
          | _ /\ true = true => destruct H as [-> _]
          | exists _, _ => destruct H as (? & ? & -> & H)
          | context [match ?r with _ => _ end] => is_var r; destruct r
          | context [match ?r with _ => _ end] => destruct r
          end).

Ltac waits_open H :=
  waits_cases H; simpl; rewrite ?Nat.eqb_refl; simpl; eexists; reflexivity.

(** X16.  Whatever the statements and the commits raise and whatever rows
    come back: every run of a thread of the three scenarios that ends, ends
    normally with every connection it opened closed (the two readers, the
    inserters with their cleanup connection, the two updaters); and a
    thread that has come to its [barrier.wait()] holds exactly one open
    connection.  That wait has no timeout: it makes no step while fewer
    parties than the barrier's have arrived, and a step it makes answers
    "released"; so a thread whose partner never arrives does not end and
    its connection stays open.  The writer of the non-repeatable-read
    scenario behaves like the others when the record drawn has a value;
    when the value is NULL it raises [TypeError] right after connecting,
    before its [try] and before its wait, and leaves its connection
    open. *)
Theorem threads_close_their_connections :
  ((forall mutation_id tr res,
     runs_to tx_ev (tx1_reader mutation_id) tr res ->
     res = Returned tt /\ left_open tr [] = [])
  /\ (forall mutation_id initial_details tr res,
        runs_to tx_ev (tx2_writer mutation_id initial_details) tr res ->
        match valeur_fonciere initial_details with
        | Some _ => res = Returned tt /\ left_open tr [] = []
        | None => res = Raised TypeError
                  /\ exists c, tr = [EvConnect c] /\ left_open tr [] = [c]
        end)
  /\ (forall level results tr res,
        runs_to tx_ev (phantom_reader level results) tr res ->
        res = Returned tt /\ left_open tr [] = [])
  /\ (forall results nom sale_no tr res,
        runs_to tx_ev (phantom_inserter results nom sale_no) tr res ->
        res = Returned tt /\ left_open tr [] = [])
  /\ (forall original_name n1 tr res,
        runs_to tx_ev (tx1_updater original_name n1) tr res ->
        res = Returned tt /\ left_open tr [] = [])
  /\ (forall original_name n2 tr res,
        runs_to tx_ev (tx2_updater original_name n2) tr res ->
        res = Returned tt /\ left_open tr [] = []))
  /\ ((forall mutation_id tr,
         waiting_after (tx1_reader mutation_id) tr ->
         exists c, left_open tr [] = [c])
      /\ (forall mutation_id initial_details tr,
            waiting_after (tx2_writer mutation_id initial_details) tr ->
            valeur_fonciere initial_details <> None
            /\ exists c, left_open tr [] = [c])
      /\ (forall level results tr,
            waiting_after (phantom_reader level results) tr ->
            exists c, left_open tr [] = [c])
      /\ (forall results nom sale_no tr,
            waiting_after (phantom_inserter results nom sale_no) tr ->
            exists c, left_open tr [] = [c])
      /\ (forall original_name n1 tr,
            waiting_after (tx1_updater original_name n1) tr ->
            exists c, left_open tr [] = [c])
      /\ (forall original_name n2 tr,
            waiting_after (tx2_updater original_name n2) tr ->
            exists c, left_open tr [] = [c]))
  /\ (forall w,
        (w_arrived w < w_parties w -> exec_op (BarrierAwait None) w = None)
        /\ (forall b w', exec_op (BarrierAwait None) w = Some (b, w') ->
                         b = true /\ w' = w)).
Proof.
  split; [|split]; [repeat apply conj | repeat apply conj | exact untimed_wait_blocks].
  - intros mutation_id tr res H. unfold tx1_reader, fetchone_0 in H. closes_all H.
  - intros mutation_id initial_details tr res. unfold tx2_writer, py_add.
    destruct (valeur_fonciere initial_details); intros H.
    + closes_all H.
    + thread_cases H. split; [reflexivity|]. eexists; split; reflexivity.
  - intros level results tr res H. unfold phantom_reader in H. closes_all H.
  - intros results nom sale_no tr res H.
    unfold phantom_inserter, transaction_register_sale in H. closes_all H.
  - intros original_name n1 tr res H.
    unfold tx1_updater, transaction_update_commune_name, updater_except in H.
    closes_all H.
  - intros original_name n2 tr res H.
    unfold tx2_updater, transaction_update_commune_name, updater_except in H.
    closes_all H.
  - intros mutation_id tr H. unfold tx1_reader, fetchone_0 in H. waits_open H.
  - intros mutation_id initial_details tr. unfold tx2_writer, py_add.
    destruct (valeur_fonciere initial_details); intros H.
    + split; [discriminate|]. waits_open H.
    + waits_cases H.
  - intros level results tr H. unfold phantom_reader in H. waits_open H.
  - intros results nom sale_no tr H.
    unfold phantom_inserter, transaction_register_sale in H. waits_open H.
  - intros original_name n1 tr H.
    unfold tx1_updater, transaction_update_commune_name, updater_except in H.
    waits_open H.
  - intros original_name n2 tr H.
    unfold tx2_updater, transaction_update_commune_name, updater_except in H.
    waits_open H.
Qed.

(** The reader after its connect, its first read, the record of it and its
    arrival at the barrier; the writer dying on a NULL value. *)
Definition reader_at_wait : list tx_event :=
  [EvConnect 1; EvExecute 1 None; EvSetResult "results" "tx1_read1" (VInt 100000);
   EvBarrierArrive].

Lemma waiting_after_reader_at_wait : waiting_after (tx1_reader 1) reader_at_wait.
Proof.
  unfold reader_at_wait. simpl.
  right. exists 1. eexists. split; [reflexivity|]. simpl.
  right. exists (@inr pgerror _ [row_1]). eexists. split; [reflexivity|]. simpl.
  right. exists tt. eexists. split; [reflexivity|]. simpl.
  right. exists tt. eexists. split; [reflexivity|]. simpl.
  left. split; reflexivity.
Qed.

Lemma threads_close_their_connections_witness :
  valeur_fonciere row_2 = None
  /\ runs_to tx_ev (tx2_writer 2 row_2) [EvConnect 0] (Raised TypeError)
  /\ left_open [EvConnect 0] [] = [0]
  /\ waiting_after (tx1_reader 1) reader_at_wait
  /\ exists c, left_open reader_at_wait [] = [c].
Proof.
  assert (H : runs_to tx_ev (tx2_writer 2 row_2) [EvConnect 0] (Raised TypeError)).
  { simpl. answer 0. split; reflexivity. }
  split; [reflexivity|]. split; [exact H|].
  destruct threads_close_their_connections as ((_ & Hw & _) & (Hr & _) & _).
  split.
  - destruct (Hw 2 row_2 _ _ H) as (_ & c & Hc & Ho).
    injection Hc as <-. exact Ho.
  - split; [exact waiting_after_reader_at_wait|].
    exact (Hr 1 reader_at_wait waiting_after_reader_at_wait).
Defined.

(** The values a run stores under [results[key]], in order. *)
Definition recorded (key : string) (tr : list tx_event) : list pyval :=
  omap (fun e => match e with
                 | EvSetResult d k v =>
                     if String.eqb d "results" && String.eqb k key then Some v else None
                 | _ => None
                 end) tr.

(** [results[key]] after the run: the dictionary is built with [False]
    under both keys, line 403. *)
Definition final_success (key : string) (tr : list tx_event) : pyval :=
  List.last (recorded key tr) (VBool false).

Definition commit_succeeded (tr : list tx_event) : bool :=
  existsb (fun e => match e with EvCommit _ None => true | _ => false end) tr.

Definition rollback_called (tr : list tx_event) : bool :=
  existsb (fun e => match e with EvRollback _ => true | _ => false end) tr.

Ltac reports H :=
  thread_cases H; cbn;
  (split; [intros Hx; first [reflexivity | discriminate Hx]
          |intros Hx; first [now contradiction Hx | repeat split; reflexivity]]).

(** X17.  Whatever the statements and the commits raise and whether or not
    the barrier releases, an updater of the serialization scenario leaves
    [True] under its key of [results] only if a commit succeeded on its
    connection; and when one of its statements raises a store error, of
    whatever kind, it leaves [False], calls rollback and never calls
    commit. *)
Theorem updater_reports_success_only_when_committed :
  (forall original_name n1 tr res,
     runs_to tx_ev (tx1_updater original_name n1) tr res ->
     (final_success "tx1_success" tr = VBool true -> commit_succeeded tr = true)
     /\ (statement_errors tr <> [] ->
         final_success "tx1_success" tr = VBool false
         /\ rollback_called tr = true /\ commit_called tr = false))
  /\ (forall original_name n2 tr res,
        runs_to tx_ev (tx2_updater original_name n2) tr res ->
        (final_success "tx2_success" tr = VBool true -> commit_succeeded tr = true)
        /\ (statement_errors tr <> [] ->
            final_success "tx2_success" tr = VBool false
            /\ rollback_called tr = true /\ commit_called tr = false)).
Proof.
  split.
  - intros original_name n1 tr res H.
    unfold tx1_updater, transaction_update_commune_name, updater_except in H.
    reports H.
  - intros original_name n2 tr res H.
    unfold tx2_updater, transaction_update_commune_name, updater_except in H.
    reports H.
Qed.

(** The update of tx1 meets a serialization failure. *)
Definition updater_conflict : list tx_event :=
  [EvConnect 0; EvSetAutocommit 0 false; EvBarrierArrive; EvBarrierAwait None true;
   EvExecute 0 None; EvSleep; EvExecute 0 (Some SerializationFailure); EvRollback 0;
   EvSetResult "results" "tx1_success" (VBool false); EvRollback 0; EvClose 0].

Lemma runs_to_updater_conflict :
  runs_to tx_ev (tx1_updater (Some "Bourg") 7) updater_conflict (Returned tt).
Proof.
  unfold updater_conflict. simpl.
  answer 0. answer tt. answer tt. answer true. answer (@inr pgerror _ [row_1]).
  answer tt. answer (@inl pgerror nat SerializationFailure). answer tt. answer tt.
  answer tt. answer tt. split; reflexivity.
Qed.

Lemma updater_reports_success_only_when_committed_witness :
  statement_errors updater_conflict = [SerializationFailure]
  /\ final_success "tx1_success" updater_conflict = VBool false
  /\ rollback_called updater_conflict = true
  /\ commit_called updater_conflict = false.
Proof.
  split; [reflexivity|].
  apply (proj1 updater_reports_success_only_when_committed (Some "Bourg") 7
           updater_conflict (Returned tt) runs_to_updater_conflict).
  discriminate.
Defined.

(** X20.  When the table has no record of commune 01344, the
    serialization demo ends at once: [fetchone()[0]] raises [TypeError] on
    [None], the [except] clause closes the setup connection and returns.
    No thread is started (no schedule is consumed), nothing is recorded in
    [results] and the table is untouched. *)
Theorem serialization_demo_without_commune
  (tbl : list row) (n1 n2 : nat) (scheds : list (list nat)) :
  List.filter (in_commune (Some test_code_commune)) tbl = [] ->
  exists w',
    run_main (demo_serialization_failure n1 n2) scheds (init_world tbl)
      = Some (Returned tt, w')
    /\ committed (w_store w') = tbl
    /\ w_results w' = ∅
    /\ map s_closed (sessions (w_store w')) = [true].
Proof.
  intros H.
  unfold demo_serialization_failure, get_connection.
  cbn. rewrite H. cbn. eexists. repeat split; reflexivity.
Qed.

Lemma serialization_demo_without_commune_witness :
  exists w',
    run_main (demo_serialization_failure 7 8) [] (init_world [row_3])
      = Some (Returned tt, w')
    /\ committed (w_store w') = [row_3].
Proof.
  destruct (serialization_demo_without_commune [row_3] 7 8 [] eq_refl)
    as (w' & H & Hc & _).
  exists w'. split; assumption.
Defined.

(** ** Restoring after a scenario *)

(** A statement that changes rows in place or removes them, and one that
    reads. *)
Definition is_restore {R} (o : txE R) : bool :=
  match o with
  | Execute _ q => match q with Update _ _ | Delete _ => true | _ => false end
  | _ => false
  end.

Definition is_read {R} (o : txE R) : bool :=
  match o with
  | Execute _ q => match q with Select _ => true | _ => false end
  | _ => false
  end.

(** On no path of the program does a SELECT follow an UPDATE or a DELETE:
    what was written back is not read again.  [written]: such a statement
    has been made. *)
Fixpoint no_read_back {A} (written : bool) (p : prog txE A) : Prop :=
  match p with
  | Vis o k =>
      (written = true -> is_read o = false)
      /\ forall r, no_read_back (written || is_restore o) (k r)
  | _ => True
  end.

(** The same for the main thread, whose own calls are the [Do]s. *)
Fixpoint main_no_read_back {A} (written : bool) (p : prog mainE A) : Prop :=
  match p with
  | Vis o k =>
      match o with
      | Do o' => (written = true -> is_read o' = false)
      | _ => True
      end
      /\ forall r,
           main_no_read_back
             (written || match o with Do o' => is_restore o' | _ => false end) (k r)
  | _ => True
  end.

Ltac no_read_back_tac :=
  repeat (cbn; intros;
          match goal with
          | |- _ /\ _ => split
          | |- True => exact I
          | H : false = true |- _ => discriminate H
          | |- false = false => reflexivity
          | |- context [match sql_avg ?l with _ => _ end] => destruct (sql_avg l)
          | |- context [match nth_error ?l ?n with _ => _ end] => destruct (nth_error l n)
          | |- context [match head ?l with _ => _ end] => destruct (head l)
          | |- context [id ?x] => is_var x; destruct (id x)
          | |- context [match ?x with _ => _ end] => is_var x; destruct x
          end).

Lemma restores_are_not_read_back (offset n1 n2 : nat) (results nom : string) :
  main_no_read_back false (demo_non_repeatable_read offset)
  /\ main_no_read_back false (demo_serialization_failure n1 n2)
  /\ no_read_back false (phantom_inserter results nom n1).
Proof.
  unfold demo_non_repeatable_read, demo_serialization_failure, phantom_inserter,
    transaction_register_sale, get_connection, get_random_mutation_id,
    get_mutation_details, fetchone_0.
  repeat apply conj; no_read_back_tac.
Qed.




End Transactions.


Set Implicit Arguments.

(* ================================================================== *)
(** * [src/1.1.py]: one benchmark, [run_index_test] *)
(* ================================================================== *)

Module IndexRun.
Import IndexBench.

(** What the [results] dictionary of a test holds: times, plans, and the
    text ["N/A"]. *)
Inductive value (time : Type) : Type :=
| VFloat (t : time)
| VPlan (p : option string)
| VText (s : string).
Arguments VFloat {time} t.
Arguments VPlan {time} p.
Arguments VText {time} s.

(** The entry of [QUERIES] a test runs on.  The keys that are only printed
    are left out; [None] is a key the entry does not have. *)
Record config : Type := mkConfig {
  query : string;
  cleanup_sql : option string;
  extension_sql : option string;
  index_sql : option string
}.

Section RunIndexTest.

Variable time : Type.
Variable ms_between : time -> time -> time.
Variable search_execution_time : string -> option string.
Variable float_of_string : string -> option time.
(** [a / b] on floats, [None] where Python raises [ZeroDivisionError]. *)
Variable fdiv : time -> time -> option time.

(** The calls of [run_index_test]: those of [execute_query], and
    [conn.commit()]. *)
Inductive indexE : Type -> Type :=
| Bench {R} (o : benchE time R) : indexE R
| ConnCommit (c : conn) : indexE (option pgerror).

Inductive index_event : Type :=
| EvBench (e : bench_event time)
| EvConnCommit (c : conn) (r : option pgerror).

Definition index_ev R (o : indexE R) : R -> index_event :=
  match o in indexE R return R -> index_event with
  | Bench o' => fun r => EvBench (bench_ev o' r)
  | ConnCommit c => fun r => EvConnCommit c r
  end.

Fixpoint lift_bench {A} (p : prog (benchE time) A) : prog indexE A :=
  match p with
  | Ret a => Ret a
  | Raise e => Raise e
  | Vis o k => Vis (Bench o) (fun r => lift_bench (k r))
  end.

Local Open Scope prog_scope.

Definition run_query (conn : conn) (sql : string) (analyze : bool)
  : prog indexE (option time * option string) :=
  lift_bench (execute_query ms_between search_execution_time float_of_string
                            conn sql analyze).

Definition commit (conn : conn) : prog indexE unit :=
  r <- call (ConnCommit conn) ;;
  match r with Some e => Raise (PgError e) | None => Ret tt end.

(** [f"{t:.2f}"] of a value that may be [None]. *)
Definition format_2f (t : option time) : prog indexE unit :=
  match t with Some _ => Ret tt | None => Raise TypeError end.

(** [if key in config: body(config[key])] *)
Definition when_in {A} (entry : option A) (body : A -> prog indexE unit)
  : prog indexE unit :=
  match entry with Some a => body a | None => Ret tt end.

Definition results := gmap string (value time).

(** [results['baseline_ms'] / results['indexed_ms']] *)
Definition divide (a b : value time) : prog indexE (value time) :=
  match a, b with
  | VFloat x, VFloat y =>
      match fdiv x y with Some s => Ret (VFloat s) | None => Raise ZeroDivisionError end
  | _, _ => Raise TypeError
  end.

(** [run_index_test(conn, test_name, config)], lines 109-186.  The inner
    sum says how step 3 ends: [inr] is its [return test_name, results]. *)
Definition run_index_test (conn : conn) (test_name : string) (config : config)
  : prog indexE (string * option results) :=
  when_in (cleanup_sql config) (fun q => run_query conn q false ;; commit conn) ;;
  when_in (extension_sql config) (fun q => run_query conn q false ;; commit conn) ;;
  baseline <- run_query conn (query config) true ;;
  match fst baseline with
  | None => Ret (test_name, None)
  | Some baseline_time =>
      let results : results :=
        <["baseline_plan" := VPlan (snd baseline)]>
          (<["baseline_ms" := VFloat baseline_time]> ∅) in
      step3 <- match index_sql config with
               | None => Ret (inl results)
               | Some q =>
                   created <- run_query conn q false ;;
                   commit conn ;;
                   match fst created with
                   | Some index_creation_time =>
                       let results :=
                         <["index_creation_ms" := VFloat index_creation_time]> results in
                       analyzed <- run_query conn "ANALYZE mutations_foncieres;" false ;;
                       commit conn ;;
                       format_2f (fst analyzed) ;;
                       Ret (inl results)
                   | None =>
                       when_in (cleanup_sql config)
                         (fun q => run_query conn q false ;; commit conn) ;;
                       Ret (inr results)
                   end
               end ;;
      match step3 with
      | inr results => Ret (test_name, Some results)
      | inl results =>
          indexed <- run_query conn (query config) true ;;
          let results :=
            match fst indexed with
            | Some indexed_time =>
                <["indexed_plan" := VPlan (snd indexed)]>
                  (<["indexed_ms" := VFloat indexed_time]> results)
            | None => results
            end in
          when_in (cleanup_sql config)
            (fun q => cleaned <- run_query conn q false ;;
                      commit conn ;;
                      format_2f (fst cleaned)) ;;
          speedup <- match results !! "baseline_ms", results !! "indexed_ms" with
                     | Some b, Some i => divide b i
                     | _, _ => Ret (VText "N/A")
                     end ;;
          Ret (test_name, Some (<["speedup" := speedup]> results))
      end
  end.

(** ** What a run shows *)

(** The statements sent to the store, in order, each with the error
    [cur.execute] raised on it, if any. *)
Definition statements (tr : list index_event) : list (string * option pgerror) :=
  omap (fun e => match e with
                 | EvBench (EvExecute _ q r) => Some (q, r)
                 | _ => None
                 end) tr.

Lemma statements_app tr1 tr2 :
  statements (tr1 ++ tr2) = statements tr1 ++ statements tr2.
Proof. apply omap_app. Qed.

Lemma runs_to_lift_bench A (p : prog (benchE time) A) tr res :
  runs_to index_ev (lift_bench p) tr res ->
  exists tr0, tr = map EvBench tr0 /\ runs_to (@bench_ev time) p tr0 res.
Proof.
  revert tr. induction p as [a|e|R o k IH]; simpl; intros tr H.
  - destruct H as [-> ->]. exists []. auto.
  - destruct H as [-> ->]. exists []. auto.
  - destruct H as (r & tr' & -> & H). apply IH in H.
    destruct H as (tr0 & -> & H). exists (bench_ev o r :: tr0). split; [reflexivity|].
    exists r, tr0. auto.
Qed.

(** What [execute_query] sends and what it answers. *)
Definition sent (sql : string) (analyze : bool) : string :=
  if analyze then "EXPLAIN ANALYZE " +:+ sql else sql.

Definition answers (analyze : bool) (r : option pgerror)
  (res : outcome (option time * option string)) : Prop :=
  match r with
  | Some _ => res = Returned (None, None) \/ exists e, res = Raised (PgError e)
  | None =>
      if analyze then
        res = Returned (None, None)
        \/ (exists t p, res = Returned (Some t, p))
        \/ res = Raised ValueError \/ res = Raised IndexError
        \/ (exists e, res = Raised (PgError e))
      else exists t, res = Returned (Some t, None)
  end.

Lemma run_query_spec conn sql analyze tr res :
  runs_to index_ev (run_query conn sql analyze) tr res ->
  exists r, statements tr = [(sent sql analyze, r)] /\ answers analyze r res.
Proof.
  intros H. apply runs_to_lift_bench in H. destruct H as (tr0 & -> & H).
  unfold execute_query in H. simpl in H.
  destruct H as (cur & tr1 & -> & start & tr2 & -> & r & tr3 & -> & H).
  exists r. destruct r as [e|]; simpl in H.
  - destruct H as (rb & tr4 & -> & H). destruct rb as [e'|]; simpl in H;
      destruct H as (u2 & tr5 & -> & -> & ->); (split; [reflexivity|]); simpl;
      first [left; reflexivity | right; eexists; reflexivity].
  - destruct analyze; simpl in H.
    + destruct H as (r & tr4 & -> & H). destruct r as [e|rows]; simpl in H.
      * destruct H as (rb & tr5 & -> & H). destruct rb as [e'|]; simpl in H;
          destruct H as (u2 & tr6 & -> & -> & ->); (split; [reflexivity|]); simpl;
          first [left; reflexivity | do 4 right; eexists; reflexivity].
      * destruct H as (t2 & tr5 & -> & H).
        apply runs_to_try_finally in H.
        destruct H as (tr6 & r1 & tr7 & r2 & -> & H1 & H2 & ->).
        simpl in H2. destruct H2 as (u & tr8 & -> & -> & ->).
        apply runs_to_try_except in H1.
        assert (Hb : tr6 = [] /\ ((exists t p, r1 = Returned (Some t, p))
                     \/ r1 = Raised ValueError \/ r1 = Raised IndexError)).
        { destruct H1 as [(a & H1 & ->)|(e & tr9 & H1 & H3)];
            apply runs_to_bind in H1;
            destruct H1 as [(cols & ta & tb & -> & Ha & Hb)|(e' & Ha & He)];
            apply (runs_to_first_columns ms_between float_of_string) in Ha;
            destruct Ha as [-> Ha].
          - simpl in Hb.
            destruct (search_execution_time _) as [g|];
              [destruct (float_of_string g)|]; destruct Hb as [-> Hb];
              try discriminate; injection Hb as Hb; subst; eauto.
          - discriminate.
          - simpl in Hb.
            destruct (search_execution_time _) as [g|];
              [destruct (float_of_string g)|]; destruct Hb as [-> Hb];
              try discriminate. injection Hb as Hb; subst. simpl in H3.
            destruct H3 as [-> ->]. auto.
          - destruct Ha as [[cols Ha]|Ha]; [discriminate|].
            injection He as He. injection Ha as Ha. subst. simpl in H3.
            destruct H3 as [-> ->]. auto. }
        destruct Hb as [-> Hb]. split; [reflexivity|]. simpl. tauto.
    + destruct H as (t2 & tr4 & -> & u & tr5 & -> & -> & ->).
      split; [reflexivity|]. simpl. eauto.
Qed.

Lemma commit_spec conn tr (res : outcome unit) :
  runs_to index_ev (commit conn) tr res ->
  statements tr = [] /\ (res = Returned tt \/ exists e, res = Raised (PgError e)).
Proof.
  simpl. intros (r & tr' & -> & H). destruct r as [e|]; destruct H as [-> ->];
    split; eauto.
Qed.

Lemma query_commit_spec conn sql tr (res : outcome unit) :
  runs_to index_ev (run_query conn sql false ;; commit conn) tr res ->
  exists r, statements tr = [(sql, r)]
    /\ (res = Returned tt \/ exists e, res = Raised (PgError e)).
Proof.
  intros H. apply runs_to_bind in H.
  destruct H as [(a & tr1 & tr2 & -> & H1 & H)|(e & H1 & ->)];
    apply run_query_spec in H1; destruct H1 as (r & Hs & Ha); exists r.
  - apply commit_spec in H. destruct H as [Hc H].
    rewrite statements_app, Hs, Hc. auto.
  - split; [exact Hs|]. right. destruct r; simpl in Ha.
    + destruct Ha as [Ha|[e' Ha]]; [discriminate|]. injection Ha as ->. eauto.
    + destruct Ha as [t Ha]. discriminate.
Qed.

Lemma query_commit_report_spec conn sql tr (res : outcome unit) :
  runs_to index_ev
    (done <- run_query conn sql false ;; commit conn ;; format_2f (fst done)) tr res ->
  exists r, statements tr = [(sql, r)]
    /\ ((r = None /\ res = Returned tt)
        \/ (r <> None /\ res = Raised TypeError)
        \/ exists e, res = Raised (PgError e)).
Proof.
  intros H. apply runs_to_bind in H.
  destruct H as [(a & tr1 & tr2 & -> & H1 & H)|(e & H1 & ->)];
    apply run_query_spec in H1; destruct H1 as (r & Hs & Ha); exists r.
  - apply runs_to_bind in H.
    destruct H as [(u & tr3 & tr4 & -> & H2 & H)|(e & H2 & ->)];
      apply commit_spec in H2; destruct H2 as [Hc H2].
    + rewrite !statements_app, Hs, Hc.
      destruct r; simpl in Ha.
      * destruct Ha as [Ha|[e' Ha]]; [|discriminate].
        injection Ha as Ha. subst a. simpl in H. destruct H as [-> ->].
        split; [reflexivity|]. right. left. split; [discriminate|reflexivity].
      * destruct Ha as [t Ha]. injection Ha as Ha. subst a. simpl in H.
        destruct H as [-> ->]. split; [reflexivity|]. left. auto.
    + rewrite statements_app, Hs, Hc. split; [reflexivity|]. right. right.
      destruct H2 as [H2|[e' H2]]; [discriminate|]. injection H2 as H2. subst e.
      eauto.
  - split; [exact Hs|]. right. right. destruct r; simpl in Ha.
    + destruct Ha as [Ha|[e' Ha]]; [discriminate|]. injection Ha as ->. eauto.
    + destruct Ha as [t Ha]. discriminate.
Qed.

Definition analyze_statement : string := "ANALYZE mutations_foncieres;".

(** A run of [run_index_test] on an entry that has a cleanup and an index
    statement, by how it ends. *)
Lemma run_index_test_runs (conn : conn) (test_name q cl ix : string)
  (ext : option string) (tr : list index_event)
  (res : outcome (string * option results)) :
  let setup := cl :: match ext with Some e => [e] | None => [] end in
  runs_to index_ev (run_index_test conn test_name (mkConfig q (Some cl) ext (Some ix)))
          tr res ->
  (forall n, res = Returned (n, None) ->
     n = test_name
     /\ map fst (statements tr) = setup ++ ["EXPLAIN ANALYZE " +:+ q])
  /\ (forall n rs, res = Returned (n, Some rs) ->
        n = test_name
        /\ (exists l r, statements tr = l ++ [(cl, r)])
        /\ (rs !! "index_creation_ms" <> None ->
            exists l, statements tr = l ++ [(cl, None)])
        /\ exists b, rs !! "baseline_ms" = Some (VFloat b)
           /\ match rs !! "indexed_ms" with
              | Some v => exists i s, v = VFloat i /\ fdiv b i = Some s
                                      /\ rs !! "speedup" = Some (VFloat s)
              | None => rs !! "speedup" = None
                        \/ rs !! "speedup" = Some (VText "N/A")
              end)
  /\ (res = Raised TypeError ->
        (exists l e, statements tr = l ++ [(ix, None); (analyze_statement, Some e)])
        \/ (exists l e, statements tr = l ++ [(cl, Some e)])).
Proof.
  intros setup H. unfold run_index_test in H.
  cbn [cleanup_sql extension_sql index_sql query when_in] in H.
  (* cleanup before the test *)
  apply runs_to_bind in H.
  destruct H as [(u0 & tr0 & tra & -> & H0 & H)|(e & H0 & ->)];
    apply query_commit_spec in H0; destruct H0 as (r0 & Hs0 & H0);
    [|destruct H0 as [H0|[e' H0]]; repeat split; intros; congruence].
  clear H0 u0.
  (* extension *)
  apply runs_to_bind in H.
  destruct H as [(u1 & tr1 & trb & -> & H1 & H)|(e & H1 & ->)].
  2:{ destruct ext as [x|]; simpl in H1.
      - apply query_commit_spec in H1. destruct H1 as (r1 & Hs1 & [H1|[e' H1]]);
          repeat split; intros; congruence.
      - destruct H1 as [_ H1]. discriminate. }
  assert (Hs1 : map fst (statements tr1)
                = match ext with Some e => [e] | None => [] end).
  { destruct ext as [x|]; simpl in H1.
    - apply query_commit_spec in H1. destruct H1 as (r1 & Hs1 & _). now rewrite Hs1.
    - destruct H1 as [-> _]. reflexivity. }
  clear H1 u1.
  (* baseline *)
  apply runs_to_bind in H.
  destruct H as [(base & tr2 & trc & -> & H2 & H)|(e & H2 & ->)];
    apply run_query_spec in H2; destruct H2 as (r2 & Hs2 & H2).
  2:{ destruct r2; simpl in H2;
        [destruct H2 as [H2|[e' H2]]
        |destruct H2 as [H2|[(t & p & H2)|[H2|[H2|[e' H2]]]]]];
        repeat split; intros; congruence. }
  destruct base as [[baseline_time|] baseline_plan]; cbn [fst snd] in H.
  2:{ simpl in H. destruct H as [-> ->].
      split; [|split; [intros; discriminate|intros; discriminate]].
      intros n Hn. injection Hn as <-. split; [reflexivity|].
      rewrite !statements_app, !map_app, Hs0, Hs1, Hs2. reflexivity. }
  set (rs0 := <["baseline_plan":=VPlan baseline_plan]>
                (<["baseline_ms":=VFloat baseline_time]> (∅ : results))) in *.
  (* step 3: the index *)
  apply runs_to_bind in H.
  assert (Hstep : forall X t,
    runs_to index_ev
      (created <- run_query conn ix false;;
       commit conn;;
       match created.1 with
       | Some index_creation_time =>
           analyzed <- run_query conn "ANALYZE mutations_foncieres;" false;;
           commit conn;;
           format_2f analyzed.1;;
           Ret (inl (<["index_creation_ms":=VFloat index_creation_time]> rs0))
       | None => (run_query conn cl false;; commit conn);; Ret (inr rs0)
       end) t X ->
    (exists ict, X = Returned (inl (<["index_creation_ms":=VFloat ict]> rs0))
                 /\ statements t = [(ix, None); (analyze_statement, None)])
    \/ (X = Returned (inr rs0)
        /\ exists e r, statements t = [(ix, Some e); (cl, r)])
    \/ (X = Raised TypeError
        /\ exists e, statements t = [(ix, None); (analyze_statement, Some e)])
    \/ (exists e, X = Raised (PgError e))).
  { clear H. intros X t H.
    apply runs_to_bind in H.
    destruct H as [(created & ta & tb & -> & Ha & H)|(e & Ha & ->)];
      apply run_query_spec in Ha; destruct Ha as (ri & Hsi & Ha).
    2:{ right. right. right. destruct ri; simpl in Ha;
          [destruct Ha as [Ha|Ha]; [discriminate|]
          |destruct Ha as [? Ha]; discriminate].
        destruct Ha as [e' Ha]. injection Ha as ->. eauto. }
    apply runs_to_bind in H.
    destruct H as [(u & tc & td & -> & Hc & H)|(e & Hc & ->)];
      apply commit_spec in Hc; destruct Hc as [Hsc Hc].
    2:{ destruct Hc as [Hc|[e' Hc]]; [discriminate|]. injection Hc as Hc. subst e.
        right. right. right. eauto. }
    clear Hc u.
    destruct ri as [ei|]; simpl in Ha.
    - destruct Ha as [Ha|[e' Ha]]; [|discriminate].
      injection Ha as Ha. subst created. cbn [fst] in H.
      apply runs_to_bind in H.
      destruct H as [(u & te & tf & -> & He & H)|(e & He & ->)];
        apply query_commit_spec in He; destruct He as (rc & Hse & He).
      + simpl in H. destruct H as [-> ->]. right. left. split; [reflexivity|].
        exists ei, rc. rewrite !statements_app, Hsi, Hsc, Hse. reflexivity.
      + destruct He as [He|[e' He]]; [discriminate|]. injection He as He. subst e.
        right. right. right. eauto.
    - destruct Ha as [ict Ha]. injection Ha as Ha. subst created. cbn [fst] in H.
      apply runs_to_bind in H.
      destruct H as [(analyzed & te & tf & -> & He & H)|(e & He & ->)];
        apply run_query_spec in He; destruct He as (ra & Hsa & He).
      2:{ right. right. right. destruct ra; simpl in He;
            [destruct He as [He|He]; [discriminate|]
            |destruct He as [? He]; discriminate].
          destruct He as [e' He]. injection He as ->. eauto. }
      apply runs_to_bind in H.
      destruct H as [(u & tg & th & -> & Hg & H)|(e & Hg & ->)];
        apply commit_spec in Hg; destruct Hg as [Hsg Hg].
      2:{ destruct Hg as [Hg|[e' Hg]]; [discriminate|]. injection Hg as Hg. subst e.
          right. right. right. eauto. }
      destruct ra as [ea|]; simpl in He.
      + destruct He as [He|[e' He]]; [|discriminate].
        injection He as He. subst analyzed. simpl in H. destruct H as [-> ->].
        right. right. left. split; [reflexivity|]. exists ea.
        rewrite !statements_app, Hsi, Hsc, Hsa, Hsg. reflexivity.
      + destruct He as [ta' He]. injection He as He. subst analyzed. simpl in H.
        destruct H as [-> ->]. left. exists ict. split; [reflexivity|].
        rewrite !statements_app, Hsi, Hsc, Hsa, Hsg. reflexivity. }
  assert (Hpre : map fst (statements (tr0 ++ tr1 ++ tr2))
                 = setup ++ ["EXPLAIN ANALYZE " +:+ q]).
  { rewrite !statements_app, !map_app, Hs0, Hs1, Hs2. reflexivity. }
  assert (Hb0 : rs0 !! "baseline_ms" = Some (VFloat baseline_time)) by reflexivity.
  destruct H as [(step3 & tr3 & trd & -> & H3 & H)|(e & H3 & ->)];
    apply Hstep in H3;
    destruct H3 as [(ict & E & Hs3)|[(E & e1 & r' & Hs3)|[(E & e1 & Hs3)|(e1 & E)]]];
    try discriminate.
  - (* the index is there *)
    injection E as E. subst step3.
    set (rs1 := <["index_creation_ms":=VFloat ict]> rs0) in *.
    apply runs_to_bind in H.
    destruct H as [(indexed & tr4 & tre & -> & H4 & H)|(e & H4 & ->)];
      apply run_query_spec in H4; destruct H4 as (r4 & Hs4 & H4).
    2:{ destruct r4; simpl in H4;
          [destruct H4 as [H4|[e' H4]]
          |destruct H4 as [H4|[(t & p & H4)|[H4|[H4|[e' H4]]]]]];
          repeat split; intros; congruence. }
    apply runs_to_bind in H.
    destruct H as [(u & tr5 & trf & -> & H5 & H)|(e & H5 & ->)];
      apply query_commit_report_spec in H5;
      destruct H5 as (r5 & Hs5 & [[-> E]|[[Hr5 E]|[e5 E]]]); try discriminate.
    2:{ injection E as E. subst e.
        split; [intros; discriminate|]. split; [intros; discriminate|].
        intros _. right. destruct r5 as [e5|]; [|congruence].
        exists (statements (tr0 ++ tr1 ++ tr2) ++ statements tr3 ++ statements tr4), e5.
        rewrite !statements_app, Hs5, <- !app_assoc. reflexivity. }
    2:{ injection E as E. subst e. repeat split; intros; discriminate. }
    clear E u.
    assert (Hlast : statements (tr0 ++ tr1 ++ tr2 ++ tr3 ++ tr4 ++ tr5 ++ trf)
                    = (statements (tr0 ++ tr1 ++ tr2) ++ statements tr3
                       ++ statements tr4) ++ [(cl, None)] ++ statements trf).
    { rewrite !statements_app, Hs5, <- !app_assoc. reflexivity. }
    destruct indexed as [[indexed_time|] indexed_plan]; cbn [fst snd] in H.
    + set (rs2 := <["indexed_plan":=VPlan indexed_plan]>
                    (<["indexed_ms":=VFloat indexed_time]> rs1)) in *.
      change (rs2 !! "baseline_ms") with (Some (VFloat baseline_time)) in H.
      change (rs2 !! "indexed_ms") with (Some (VFloat indexed_time)) in H.
      cbn [divide] in H.
      destruct (fdiv baseline_time indexed_time) as [s|] eqn:Ediv; simpl in H;
        destruct H as [-> ->]; [|repeat split; intros; discriminate].
      split; [intros; discriminate|]. split; [|intros; discriminate].
      intros n rs Hn. injection Hn as <- <-. split; [reflexivity|].
      rewrite Hlast, app_nil_r.
      split; [eauto|]. split; [eauto|].
      exists baseline_time. split; [reflexivity|].
      change ((<["speedup":=VFloat s]> rs2) !! "indexed_ms")
        with (Some (VFloat indexed_time)).
      exists indexed_time, s. repeat split; [exact Ediv].
    + change (rs1 !! "baseline_ms") with (Some (VFloat baseline_time)) in H.
      change (rs1 !! "indexed_ms") with (@None (value time)) in H.
      simpl in H. destruct H as [-> ->].
      split; [intros; discriminate|]. split; [|intros; discriminate].
      intros n rs Hn. injection Hn as <- <-. split; [reflexivity|].
      rewrite Hlast, app_nil_r.
      split; [eauto|]. split; [eauto|].
      exists baseline_time. split; [reflexivity|].
      change ((<["speedup":=VText "N/A"]> rs1) !! "indexed_ms")
        with (@None (value time)).
      right. reflexivity.
  - (* the index could not be created *)
    injection E as E. subst step3. simpl in H. destruct H as [-> ->].
    split; [intros; discriminate|]. split; [|intros; discriminate].
    intros n rs Hn. injection Hn as <- <-. split; [reflexivity|].
    split; [|split].
    + exists (statements (tr0 ++ tr1 ++ tr2) ++ [(ix, Some e1)]), r'.
      rewrite app_nil_r. rewrite !statements_app, Hs3, <- !app_assoc. reflexivity.
    + intros Hn. exfalso. apply Hn. reflexivity.
    + exists baseline_time. split; [exact Hb0|]. left. reflexivity.
  - (* ANALYZE failed *)
    injection E as E. subst e.
    split; [intros; discriminate|]. split; [intros; discriminate|].
    intros _. left. exists (statements (tr0 ++ tr1 ++ tr2)), e1.
    rewrite !statements_app, Hs3, <- !app_assoc. reflexivity.
  - injection E as E. subst e. repeat split; intros; discriminate.
Qed.

(** X10.  A run of [run_index_test] on an entry that has a cleanup and an
    index statement, whatever the store answers.
    - If it returns no results, the baseline measurement was the last
      statement sent: the index statement never was.
    - If it returns results, the last statement sent is the cleanup, and if
      the index had been created the cleanup raised no error.
    - If it raises [TypeError], then either the index was created, the
      [ANALYZE] that follows failed and nothing was sent after it (the index
      is left in place), or the final cleanup failed. *)
Theorem run_index_test_spec (conn : conn) (test_name q cl ix : string)
  (ext : option string) (tr : list index_event)
  (res : outcome (string * option results)) :
  let setup := cl :: match ext with Some e => [e] | None => [] end in
  runs_to index_ev (run_index_test conn test_name (mkConfig q (Some cl) ext (Some ix)))
          tr res ->
  (forall n, res = Returned (n, None) ->
     n = test_name
     /\ map fst (statements tr) = setup ++ ["EXPLAIN ANALYZE " +:+ q])
  /\ (forall n rs, res = Returned (n, Some rs) ->
        n = test_name
        /\ (exists l r, statements tr = l ++ [(cl, r)])
        /\ (rs !! "index_creation_ms" <> None ->
            exists l, statements tr = l ++ [(cl, None)]))
  /\ (res = Raised TypeError ->
        (exists l e, statements tr = l ++ [(ix, None); (analyze_statement, Some e)])
        \/ (exists l e, statements tr = l ++ [(cl, Some e)])).
Proof.
  intros setup H. apply run_index_test_runs in H. destruct H as (H1 & H2 & H3).
  split; [exact H1|]. split; [|exact H3].
  intros n rs Hn. destruct (H2 n rs Hn) as (Ha & Hb & Hc & _). auto.
Qed.

(** ** The summary table, lines 217-223 *)

(** [f"{v:<15.2f}"]: a number is formatted; a string raises [ValueError]
    and [None] raises [TypeError]. *)
Definition format_float (v : value time) : prog indexE unit :=
  match v with
  | VFloat _ => Ret tt
  | VText _ | VPlan (Some _) => Raise ValueError
  | VPlan None => Raise TypeError
  end.

(** [results.get(key, 'N/A')] *)
Definition get_or_na (rs : results) (key : string) : value time :=
  match rs !! key with Some v => v | None => VText "N/A" end.

(** One turn of the loop over [all_results.items()]; a dictionary is true
    when it is not empty. *)
Definition summary_row (rs : option results) : prog indexE unit :=
  match rs with
  | Some rs =>
      if bool_decide (rs = ∅) then Ret tt
      else
        format_float (get_or_na rs "baseline_ms") ;;
        format_float (get_or_na rs "indexed_ms") ;;
        format_float (get_or_na rs "speedup")
  | None => Ret tt
  end.

Fixpoint summary (all_results : list (string * option results)) : prog indexE unit :=
  match all_results with
  | [] => Ret tt
  | (_, rs) :: rest => summary_row rs ;; summary rest
  end.

(** X11.  Let a run of [run_index_test] (on an entry with a cleanup and an
    index statement) return results.  Their row of the summary table is
    printed when the results hold the indexed time; when they do not (the
    index could not be created, or the measurement with the index failed)
    formatting the text ["N/A"] as a number raises [ValueError], and so does
    the whole summary of any list of results they are in, provided the rows
    before them are printed. *)
Theorem summary_needs_indexed_time (conn : conn) (test_name q cl ix : string)
  (ext : option string) (tr : list index_event) (n : string) (rs : results) :
  runs_to index_ev (run_index_test conn test_name (mkConfig q (Some cl) ext (Some ix)))
          tr (Returned (n, Some rs)) ->
  (rs !! "indexed_ms" <> None -> summary_row (Some rs) = Ret tt)
  /\ (rs !! "indexed_ms" = None ->
      summary_row (Some rs) = Raise ValueError
      /\ forall before after,
           summary before = Ret tt ->
           summary (before ++ (n, Some rs) :: after) = Raise ValueError).
Proof.
  intros H. apply run_index_test_runs in H. destruct H as (_ & H & _).
  destruct (H n rs eq_refl) as (_ & _ & _ & b & Hb & Hi).
  assert (Hne : bool_decide (rs = ∅) = false).
  { apply bool_decide_eq_false. intros E.
    assert (X : (∅ : results) !! "baseline_ms" = None) by reflexivity.
    rewrite <- E in X. congruence. }
  unfold summary_row, get_or_na. rewrite Hne, Hb.
  destruct (rs !! "indexed_ms") as [v|] eqn:Ei.
  - destruct Hi as (i & s & -> & _ & ->). split; [reflexivity|]. intros; discriminate.
  - split; [congruence|]. intros _.
    assert (Hrow : (format_float (VFloat b) ;; format_float (VText "N/A") ;;
                    format_float (get_or_na rs "speedup"))%prog
                   = (Raise ValueError : prog indexE unit)) by reflexivity.
    split; [reflexivity|].
    intros before after Hbefore.
    induction before as [|[m r] before IH]; simpl.
    + unfold get_or_na. rewrite Hne, Hb, Ei. reflexivity.
    + simpl in Hbefore. destruct (summary_row r) as [[]|e|R o k]; simpl in *;
        [auto|discriminate|discriminate].
Qed.

End RunIndexTest.

Arguments EvBench {time} e.
Arguments EvConnCommit {time} c r.

(** ** Two runs, with integer clock readings *)

Definition fdiv_Z (a b : Z) : option Z :=
  if (b =? 0)%Z then None else Some (a / b)%Z.

(** A statement that goes through, one that fails, and a measurement. *)
Definition sent_ok (q : string) (t : Z) : list (index_event Z) :=
  map EvBench [EvCursor 1 7; EvNow t; EvExecute 7 q None; EvNow (t + 2)%Z; EvCurClose 7].

Definition sent_failing (q : string) (t : Z) : list (index_event Z) :=
  map EvBench [EvCursor 1 7; EvNow t; EvExecute 7 q (Some ProgrammingError);
               EvRollback 1; EvCurClose 7].

Definition measured (q : string) (t : Z) : list (index_event Z) :=
  map EvBench [EvCursor 1 7; EvNow t; EvExecute 7 ("EXPLAIN ANALYZE " +:+ q) None;
               EvFetchall 7 (inr [["Seq Scan on mutations_foncieres"]]);
               EvNow (t + 3)%Z; EvCurClose 7].

Definition committed_ok : list (index_event Z) := [EvConnCommit 1 None].

Definition a_query : string := "SELECT COUNT(*) FROM mutations_foncieres WHERE code_postal = '75015';".
Definition a_cleanup : string := "DROP INDEX IF EXISTS idx_btree_code_postal;".
Definition an_index : string :=
  "CREATE INDEX idx_btree_code_postal ON mutations_foncieres USING btree (code_postal);".

Definition a_test : prog (indexE Z) (string * option (results Z)) :=
  run_index_test ms_between_Z (fun _ => None) (fun _ => None) fdiv_Z
    1 "exact_match_postal" (mkConfig a_query (Some a_cleanup) None (Some an_index)).

(** The index is created and [ANALYZE] fails. *)
Definition run_analyze_fails : list (index_event Z) :=
  sent_ok a_cleanup 0 ++ committed_ok ++ measured a_query 10
  ++ sent_ok an_index 20 ++ committed_ok
  ++ sent_failing "ANALYZE mutations_foncieres;" 30 ++ committed_ok.

(** The index cannot be created. *)
Definition run_index_fails : list (index_event Z) :=
  sent_ok a_cleanup 0 ++ committed_ok ++ measured a_query 10
  ++ sent_failing an_index 20 ++ committed_ok
  ++ sent_ok a_cleanup 30 ++ committed_ok.

Definition baseline_only : results Z :=
  <["baseline_plan" := VPlan (Some "Seq Scan on mutations_foncieres")]>
    (<["baseline_ms" := VFloat 3000%Z]> ∅).

(** Answers the calls of a run from its record; a rollback that returned
    answered [None]. *)
Ltac answer_calls :=
  repeat (simpl;
          match goal with
          | |- exists _ _, _ /\ _ =>
              first [ eexists; eexists; split; [reflexivity|]
                    | exists None; eexists; split; [reflexivity|] ]
          | |- _ /\ _ => split; [reflexivity|]
          end);
  try reflexivity.

Lemma runs_to_analyze_fails :
  runs_to (@index_ev Z) a_test run_analyze_fails (Raised TypeError).
Proof. unfold a_test, run_index_test, run_query, execute_query. answer_calls. Qed.

Lemma runs_to_index_fails :
  runs_to (@index_ev Z) a_test run_index_fails
          (Returned ("exact_match_postal", Some baseline_only)).
Proof. unfold a_test, run_index_test, run_query, execute_query. answer_calls. Qed.

Lemma run_index_test_spec_witness :
  runs_to (@index_ev Z) a_test run_analyze_fails (Raised TypeError)
  /\ ((exists l e, statements run_analyze_fails
                   = l ++ [(an_index, None); (analyze_statement, Some e)])
      \/ (exists l e, statements run_analyze_fails = l ++ [(a_cleanup, Some e)])).
Proof.
  split; [exact runs_to_analyze_fails|].
  exact (proj2 (proj2 (run_index_test_spec runs_to_analyze_fails)) eq_refl).
Defined.

Lemma summary_needs_indexed_time_witness :
  runs_to (@index_ev Z) a_test run_index_fails
          (Returned ("exact_match_postal", Some baseline_only))
  /\ summary_row (Some baseline_only) = Raise ValueError.
Proof.
  split; [exact runs_to_index_fails|].
  exact (proj1 (proj2 (summary_needs_indexed_time runs_to_index_fails) eq_refl)).
Defined.

(** ** The script, lines 189-235 *)

Section Script.

Variable time : Type.
Variable ms_between : time -> time -> time.
Variable search_execution_time : string -> option string.
Variable float_of_string : string -> option time.
Variable fdiv : time -> time -> option time.

Local Open Scope prog_scope.

(** The calls of the script: those of [run_index_test],
    [psycopg2.connect], [cur.fetchone()], and the [conn.rollback()] and
    [conn.close()] of [db_connection], which are taken not to raise. *)
Inductive scriptE : Type -> Type :=
| InTest {R} (o : indexE time R) : scriptE R
| PgConnect : scriptE (pgerror + conn)
| Fetchone (cur : cursor) : scriptE (option pgerror)
| DbRollback (c : conn) : scriptE unit
| ConnClose (c : conn) : scriptE unit.

Inductive script_event : Type :=
| EvIndex (e : index_event time)
| EvPgConnect (r : pgerror + conn)
| EvFetchone (cur : cursor) (r : option pgerror)
| EvDbRollback (c : conn)
| EvConnClose (c : conn).

Definition script_ev R (o : scriptE R) : R -> script_event :=
  match o in scriptE R return R -> script_event with
  | InTest o' => fun r => EvIndex (index_ev o' r)
  | PgConnect => fun r => EvPgConnect r
  | Fetchone cur => fun r => EvFetchone cur r
  | DbRollback c => fun _ => EvDbRollback c
  | ConnClose c => fun _ => EvConnClose c
  end.

Fixpoint lift_index {A} (p : prog (indexE time) A) : prog scriptE A :=
  match p with
  | Ret a => Ret a
  | Raise e => Raise e
  | Vis o k => Vis (InTest o) (fun r => lift_index (k r))
  end.

Definition db_rollback (c : conn) : prog scriptE unit := call (DbRollback c).

(** How the body of a [with] statement ends; [exit()] raises [SystemExit],
    which is no [Exception]. *)
Inductive body_end : Type :=
| Completed
| Exits
| Raises (e : exn).

(** How the script goes on after the [with] statement. *)
Inductive ending : Type :=
| GoesOn              (* the block ended, or its exception was suppressed *)
| SystemExit
| RuntimeError.       (* contextlib: generator didn't yield *)

(** [with db_connection() as connection: body], lines 60-77 with the
    protocol of [contextlib.contextmanager].  The body hands over the
    globals it writes, as they are when it ends, and how it ends.
    - [psycopg2.connect] raises: the [except] clause prints, [conn] is
      [None], so neither rollback nor close is called, and the generator
      ends without having yielded: [__enter__] raises [RuntimeError].
    - The body ends: the generator goes on after [yield] with
      [conn.commit()], still inside its [try].
    - The body raises: the exception is raised at the [yield].  A
      [psycopg2.Error] is caught, the generator ends normally and the
      [with] statement suppresses the exception; anything else passes
      through the [finally] block and goes on. *)
Definition db_connection {S} (body : conn -> S -> prog scriptE (S * body_end)) (s : S)
  : prog scriptE (S * ending) :=
  r <- call PgConnect ;;
  match r with
  | inl _ => Ret (s, RuntimeError)
  | inr conn =>
      b <- body conn s ;;
      match snd b with
      | Completed =>
          c <- call (InTest (ConnCommit time conn)) ;;
          match c with Some _ => db_rollback conn | None => Ret tt end ;;
          call (ConnClose conn) ;;
          Ret (fst b, GoesOn)
      | Raises e =>
          if is_psycopg2_error e then
            db_rollback conn ;;
            call (ConnClose conn) ;;
            Ret (fst b, GoesOn)
          else
            call (ConnClose conn) ;;
            Raise e
      | Exits =>
          call (ConnClose conn) ;;
          Ret (fst b, SystemExit)
      end
  end.

Definition count_statement : string := "SELECT COUNT(*) FROM mutations_foncieres;".

(** Lines 193-204; [false] is the [exit()] of the [except] clause. *)
Definition check_table (connection : conn) : prog scriptE bool :=
  cur <- call (InTest (Bench (Cursor time connection))) ;;
  try_finally
    (try_except
       (lift_index (lift_bench (cur_execute time cur count_statement)) ;;
        r <- call (Fetchone cur) ;;
        match r with Some e => Raise (PgError e) | None => Ret true end)
       (except_psycopg2 (fun _ => Ret false)))
    (call (InTest (Bench (CurClose time cur)))).

(** [all_results], a dictionary, as its items in insertion order. *)
Definition all_results := list (string * option (results time)).

(** [all_results[test_name] = result_data] *)
Fixpoint dict_set (k : string) (v : option (results time)) (d : all_results)
  : all_results :=
  match d with
  | [] => [(k, v)]
  | (k', v') :: rest =>
      if String.eqb k' k then (k, v) :: rest else (k', v') :: dict_set k v rest
  end.

(** The loop over [QUERIES.items()], lines 207-209. *)
Fixpoint run_tests (connection : conn) (queries : list (string * config))
  (all : all_results) : prog scriptE (all_results * body_end) :=
  match queries with
  | [] => Ret (all, Completed)
  | (name, test_config) :: rest =>
      r <- try_except
             (x <- lift_index (run_index_test ms_between search_execution_time
                                 float_of_string fdiv connection name test_config) ;;
              Ret (inr x))
             (fun e => Some (Ret (inl e))) ;;
      match r with
      | inl e => Ret (all, Raises e)
      | inr (test_name, result_data) =>
          run_tests connection rest (dict_set test_name result_data all)
      end
  end.

Definition script_body (queries : list (string * config)) (connection : conn)
  (all : all_results) : prog scriptE (all_results * body_end) :=
  ok <- check_table connection ;;
  if ok : bool then run_tests connection queries all else Ret (all, Exits).

(** The script.  It returns nothing; the model returns [all_results] and
    how the script ends. *)
Definition main (queries : list (string * config))
  : prog scriptE (all_results * ending) :=
  w <- db_connection (script_body queries) [] ;;
  match snd w with
  | GoesOn => lift_index (summary (fst w)) ;; Ret w
  | SystemExit | RuntimeError => Ret w
  end.

(** ** Runs of the script *)

Lemma runs_to_lift_index A (p : prog (indexE time) A) tr res :
  runs_to script_ev (lift_index p) tr res ->
  exists tr0, tr = map EvIndex tr0 /\ runs_to (@index_ev time) p tr0 res.
Proof.
  revert tr. induction p as [a|e|R o k IH]; simpl; intros tr H.
  - destruct H as [-> ->]. exists []. auto.
  - destruct H as [-> ->]. exists []. auto.
  - destruct H as (r & tr' & -> & H). apply IH in H.
    destruct H as (tr0 & -> & H). exists (index_ev o r :: tr0). split; [reflexivity|].
    exists r, tr0. auto.
Qed.

(** Every value a program can return satisfies [P]. *)
Fixpoint returns_only {E A} (P : A -> Prop) (p : prog E A) : Prop :=
  match p with
  | Ret a => P a
  | Raise _ => True
  | Vis o k => forall r, returns_only P (k r)
  end.

Lemma returns_only_bind E A B (Q : B -> Prop) (p : prog E A) (f : A -> prog E B) :
  (forall a, returns_only Q (f a)) -> returns_only Q (bind p f).
Proof. intros H. induction p as [a|e|R o k IH]; simpl; auto. Qed.

Lemma returns_only_sound E event (ev : forall R, E R -> R -> event) A
  (P : A -> Prop) (p : prog E A) tr a :
  returns_only P p -> runs_to ev p tr (Returned a) -> P a.
Proof.
  revert tr. induction p as [x|e|R o k IH]; simpl; intros tr HP H.
  - destruct H as [_ H]. injection H as <-. exact HP.
  - destruct H as [_ H]. discriminate.
  - destruct H as (r & tr' & _ & H). eapply IH; eauto.
Qed.

(** [run_index_test] returns the name it was given. *)
Lemma run_index_test_returns_name (connection : conn) (test_name : string)
  (test_config : config) :
  returns_only (fun x => fst x = test_name)
    (run_index_test ms_between search_execution_time float_of_string fdiv
       connection test_name test_config).
Proof.
  unfold run_index_test.
  repeat (apply returns_only_bind; intros).
  destruct (fst _); [|reflexivity].
  repeat (apply returns_only_bind; intros).
  destruct a2; [|reflexivity].
  repeat (apply returns_only_bind; intros). reflexivity.
Qed.

Lemma dict_set_fresh (k : string) (v : option (results time)) (d : all_results) :
  ~ In k (map fst d) -> dict_set k v d = d ++ [(k, v)].
Proof.
  induction d as [|[k' v'] d IH]; simpl; intros H; [reflexivity|].
  destruct (String.eqb_spec k' k) as [->|_]; [exfalso; apply H; now left|].
  rewrite IH; [reflexivity|]. intros Hin. apply H. now right.
Qed.

(** The loop runs the tests in order up to the first that raises, and ends
    with the results of the tests before that one: [k] tests returned. *)
Lemma run_tests_spec (connection : conn) (queries : list (string * config))
  (all : all_results) tr res :
  runs_to script_ev (run_tests connection queries all) tr res ->
  exists tr0 all' b k,
    tr = map EvIndex tr0 /\ res = Returned (all', b)
    /\ match b with
       | Completed => k = length queries
       | Raises _ => k < length queries
       | Exits => False
       end
    /\ (List.NoDup (map fst queries) ->
        (forall n, In n (map fst queries) -> ~ In n (map fst all)) ->
        map fst all' = map fst all ++ firstn k (map fst queries)).
Proof.
  revert all tr. induction queries as [|[name test_config] rest IH]; intros all tr H.
  - simpl in H. destruct H as [-> ->]. exists [], all, Completed, 0.
    rewrite app_nil_r. auto.
  - cbn [run_tests] in H. apply runs_to_bind in H.
    destruct H as [(a & tr1 & tr2 & -> & H1 & H2)|(e & H1 & ->)];
      apply runs_to_try_except in H1;
      destruct H1 as [(x & H1 & Hx)|(e' & tr3 & H1 & tr4 & Htr & H3)].
    + (* the test returns *)
      injection Hx as <-. apply runs_to_bind in H1.
      destruct H1 as [(y & tra & trb & -> & Ha & Hb)|(e' & _ & He)]; [|discriminate].
      simpl in Hb. destruct Hb as [-> Hb]. injection Hb as Hb. subst a.
      apply runs_to_lift_index in Ha. destruct Ha as (tr0 & -> & Ha).
      assert (Hn : fst y = name)
        by exact (@returns_only_sound _ _ (@index_ev time) _ (fun x => fst x = name) _ _ _
                    (run_index_test_returns_name connection name test_config) Ha).
      destruct y as [test_name result_data]. simpl in Hn. subst test_name.
      simpl in H2. apply IH in H2.
      destruct H2 as (tr5 & all' & b & k & -> & -> & Hb & Hk).
      exists (tr0 ++ tr5), all', b, (S k). rewrite app_nil_r, map_app.
      split; [reflexivity|]. split; [reflexivity|]. split.
      * destruct b; simpl; lia || exact Hb.
      * intros Hnd Hfresh. simpl in Hnd. apply List.NoDup_cons_iff in Hnd.
        destruct Hnd as [Hhd Hnd].
        assert (Hall : ~ In name (map fst all)) by (apply Hfresh; now left).
        rewrite (@dict_set_fresh name result_data all Hall) in Hk.
        rewrite Hk; [|exact Hnd|].
        -- rewrite map_app, <- app_assoc. reflexivity.
        -- intros n Hin. rewrite map_app. intros Hx. apply in_app_or in Hx.
           destruct Hx as [Hx|[<-|[]]]; [|exact (Hhd Hin)].
           exact (Hfresh n (or_intror Hin) Hx).
    + (* the test raises *)
      subst tr1. simpl in H3. destruct H3 as [-> H3]. injection H3 as H3. subst a.
      simpl in H2. destruct H2 as [-> ->].
      apply runs_to_bind in H1.
      destruct H1 as [(y & tra & trb & -> & Ha & Hb)|(e'' & Ha & He)].
      * simpl in Hb. destruct Hb as [_ Hb]. discriminate.
      * apply runs_to_lift_index in Ha. destruct Ha as (tr0 & -> & _).
        exists tr0, all, (Raises e'), 0. rewrite !app_nil_r.
        split; [reflexivity|]. split; [reflexivity|]. split; [simpl; lia|].
        intros _ _. reflexivity.
    + discriminate.
    + simpl in H3. destruct H3 as [_ H3]. discriminate.
Qed.

(** The check of the table: one statement and one fetch on a cursor of its
    own, closed on both exits. *)
Lemma check_table_spec (connection : conn) tr res :
  runs_to script_ev (check_table connection) tr res ->
  exists cur checks ok,
    tr = EvIndex (EvBench (EvCursor connection cur)) :: checks
         ++ [EvIndex (EvBench (EvCurClose cur))]
    /\ res = Returned ok
    /\ (if ok : bool
        then checks = [EvIndex (EvBench (EvExecute cur count_statement None));
                       EvFetchone cur None]
        else exists e,
          checks = [EvIndex (EvBench (EvExecute cur count_statement (Some e)))]
          \/ checks = [EvIndex (EvBench (EvExecute cur count_statement None));
                       EvFetchone cur (Some e)]).
Proof.
  unfold check_table. simpl. intros (cur & tr1 & -> & r & tr2 & -> & H).
  exists cur. destruct r as [e|]; simpl in H.
  - destruct H as (u & tr3 & -> & -> & ->).
    eexists [_], false. split; [reflexivity|]. split; [reflexivity|]. eauto.
  - destruct H as (r & tr3 & -> & H). destruct r as [e|]; simpl in H.
    + destruct H as (u & tr4 & -> & -> & ->).
      eexists [_; _], false. split; [reflexivity|]. split; [reflexivity|]. eauto.
    + destruct H as (u & tr4 & -> & -> & ->).
      eexists [_; _], true. split; [reflexivity|]. split; reflexivity.
Qed.

(** The summary makes no call: it prints all its rows or raises at the
    first that does not format. *)
Lemma summary_pure (all : all_results) :
  summary all = Ret tt \/ summary all = Raise ValueError \/ summary all = Raise TypeError.
Proof.
  induction all as [|[n rs] rest IH]; simpl; [auto|].
  assert (Hf : forall v : value time,
             format_float v = Ret tt \/ format_float v = Raise ValueError
             \/ format_float v = Raise TypeError).
  { intros [t|[p|]|s]; simpl; auto. }
  destruct rs as [rs|]; simpl; [|exact IH].
  destruct (bool_decide (rs = ∅)); simpl; [exact IH|].
  destruct (Hf (get_or_na rs "baseline_ms")) as [->|[->| ->]]; simpl; auto.
  destruct (Hf (get_or_na rs "indexed_ms")) as [->|[->| ->]]; simpl; auto.
  destruct (Hf (get_or_na rs "speedup")) as [->|[->| ->]]; simpl; auto.
Qed.

Definition is_conn_event (e : script_event) : bool :=
  match e with EvPgConnect _ | EvConnClose _ => true | _ => false end.

Lemma no_conn_event_in_tests (tr0 : list (index_event time)) :
  existsb is_conn_event (map EvIndex tr0) = false.
Proof. induction tr0; simpl; auto. Qed.

(** The events of the check of the table when it passes. *)
Definition table_checked (c : conn) (cur : cursor) : list script_event :=
  [EvIndex (EvBench (EvCursor c cur));
   EvIndex (EvBench (EvExecute cur count_statement None));
   EvFetchone cur None;
   EvIndex (EvBench (EvCurClose cur))].

Definition ev_commit (c : conn) (r : option pgerror) : script_event :=
  EvIndex (EvConnCommit c r).

Definition ev_rollback (c : conn) : script_event := EvDbRollback c.

(** How the script goes after the summary is reached with [all]. *)
Definition after_summary (all : all_results) (res : outcome (all_results * ending))
  : Prop :=
  (summary all = Ret tt /\ res = Returned (all, GoesOn))
  \/ (exists e, summary all = Raise e /\ res = Raised e
               /\ is_psycopg2_error e = false).

Lemma runs_to_summary (all : all_results) tr res :
  runs_to script_ev (lift_index (summary all) ;; Ret (all, GoesOn)) tr res ->
  tr = [] /\ after_summary all res.
Proof.
  unfold after_summary.
  destruct (summary_pure all) as [E|[E|E]]; rewrite E; simpl; intros [-> ->];
    split; eauto 6.
Qed.

Ltac trace_eq :=
  unfold table_checked, ev_commit, ev_rollback; simpl;
  rewrite ?app_nil_r; repeat rewrite <- app_assoc; simpl; reflexivity.

(** A run of the script, by its path. *)
Lemma main_runs (queries : list (string * config)) tr res :
  runs_to script_ev (main queries) tr res ->
  (exists e, tr = [EvPgConnect (inl e)] /\ res = Returned ([], RuntimeError))
  \/ (exists c cur e,
        (tr = [EvPgConnect (inr c); EvIndex (EvBench (EvCursor c cur));
               EvIndex (EvBench (EvExecute cur count_statement (Some e)));
               EvIndex (EvBench (EvCurClose cur)); EvConnClose c]
         \/ tr = [EvPgConnect (inr c); EvIndex (EvBench (EvCursor c cur));
                  EvIndex (EvBench (EvExecute cur count_statement None));
                  EvFetchone cur (Some e);
                  EvIndex (EvBench (EvCurClose cur)); EvConnClose c])
        /\ res = Returned ([], SystemExit))
  \/ (exists c cur tr0 all k,
        let tests := EvPgConnect (inr c) :: table_checked c cur ++ map EvIndex tr0 in
        (List.NoDup (map fst queries) -> map fst all = firstn k (map fst queries))
        /\ ((k = length queries
             /\ (tr = tests ++ [ev_commit c None; EvConnClose c]
                 \/ exists e, tr = tests ++ [ev_commit c (Some e); ev_rollback c;
                                             EvConnClose c])
             /\ after_summary all res)
            \/ (k < length queries
                /\ tr = tests ++ [ev_rollback c; EvConnClose c]
                /\ after_summary all res)
            \/ (k < length queries
                /\ tr = tests ++ [EvConnClose c]
                /\ exists e, res = Raised e /\ is_psycopg2_error e = false))).
Proof.
  unfold main, db_connection. intros H. cbn [bind call runs_to] in H.
  destruct H as (r & tr' & -> & H).
  destruct r as [e|c]; cbn [bind call runs_to snd fst] in H.
  { destruct H as [-> ->]. left. eauto. }
  right.
  apply runs_to_bind in H.
  destruct H as [(w & tr1 & tr2 & -> & H1 & H2)|(e & H1 & ->)].
  - apply runs_to_bind in H1.
    destruct H1 as [(b & tr3 & tr4 & -> & H3 & H4)|(e & H3 & _)].
    + unfold script_body in H3. apply runs_to_bind in H3.
      destruct H3 as [(ok & tr5 & tr6 & -> & H5 & H6)|(e & H5 & _)];
        apply check_table_spec in H5;
        destruct H5 as (cur & checks & ok' & -> & Hok & Hchecks); [|discriminate].
      injection Hok as <-. destruct ok.
      * (* the table is there *)
        subst checks. right.
        apply run_tests_spec in H6.
        destruct H6 as (tr0 & all & be & k & -> & Hb & Hk & Hkeys).
        injection Hb as ->. cbn [fst snd] in H4.
        exists c, cur, tr0, all, k. cbn zeta. split.
        { intros Hnd. apply Hkeys; [exact Hnd|]. intros n _ []. }
        destruct be as [| |e]; [|destruct Hk|].
        -- left. split; [exact Hk|].
           simpl in H4. destruct H4 as (cr & tr7 & -> & H4).
           destruct cr as [e|]; simpl in H4.
           ++ destruct H4 as (u1 & tr8 & -> & u2 & tr9 & -> & -> & Hw).
              injection Hw as ->. cbn [fst snd] in H2.
              apply runs_to_summary in H2. destruct H2 as [-> H2].
              split; [|exact H2]. right. exists e.
              trace_eq.
           ++ destruct H4 as (u2 & tr9 & -> & -> & Hw).
              injection Hw as ->. cbn [fst snd] in H2.
              apply runs_to_summary in H2. destruct H2 as [-> H2].
              split; [|exact H2]. left.
              trace_eq.
        -- cbn [snd] in H4. destruct (is_psycopg2_error e) eqn:He; simpl in H4.
           ++ destruct H4 as (u1 & tr8 & -> & u2 & tr9 & -> & -> & Hw).
              injection Hw as ->. cbn [fst snd] in H2.
              apply runs_to_summary in H2. destruct H2 as [-> H2].
              right. left. split; [exact Hk|]. split; [|exact H2].
              trace_eq.
           ++ destruct H4 as (u2 & tr9 & -> & -> & Hw). discriminate.
      * (* exit() *)
        left. simpl in H6. destruct H6 as [-> Hb]. injection Hb as ->.
        simpl in H4. destruct H4 as (u & tr7 & -> & -> & Hw). injection Hw as ->.
        simpl in H2. destruct H2 as [-> ->].
        destruct Hchecks as (e & [-> | ->]); exists c, cur, e; split; auto.
    + unfold script_body in H3. apply runs_to_bind in H3.
      destruct H3 as [(ok & tr5 & tr6 & -> & H5 & H6)|(e' & H5 & _)];
        apply check_table_spec in H5;
        destruct H5 as (cur & checks & ok' & -> & Hok & Hchecks); [|discriminate].
      injection Hok as <-. destruct ok.
      * apply run_tests_spec in H6. destruct H6 as (? & ? & ? & ? & _ & Hb & _).
        discriminate.
      * simpl in H6. destruct H6 as [_ Hb]. discriminate.
  - (* the with statement lets an exception through *)
    apply runs_to_bind in H1.
    destruct H1 as [(b & tr3 & tr4 & -> & H3 & H4)|(e' & H3 & _)].
    + unfold script_body in H3. apply runs_to_bind in H3.
      destruct H3 as [(ok & tr5 & tr6 & -> & H5 & H6)|(e' & H5 & _)];
        apply check_table_spec in H5;
        destruct H5 as (cur & checks & ok' & -> & Hok & Hchecks); [|discriminate].
      injection Hok as <-. destruct ok.
      * subst checks. right.
        apply run_tests_spec in H6.
        destruct H6 as (tr0 & all & be & k & -> & Hb & Hk & Hkeys).
        injection Hb as ->. cbn [fst snd] in H4.
        exists c, cur, tr0, all, k. cbn zeta. split.
        { intros Hnd. apply Hkeys; [exact Hnd|]. intros n _ []. }
        destruct be as [| |e']; [|destruct Hk|].
        -- simpl in H4. destruct H4 as (cr & tr7 & -> & H4).
           destruct cr as [e'|]; simpl in H4.
           ++ destruct H4 as (u1 & tr8 & -> & u2 & tr9 & -> & _ & Hw). discriminate.
           ++ destruct H4 as (u2 & tr9 & -> & _ & Hw). discriminate.
        -- cbn [snd] in H4. destruct (is_psycopg2_error e') eqn:He; simpl in H4.
           ++ destruct H4 as (u1 & tr8 & -> & u2 & tr9 & -> & _ & Hw). discriminate.
           ++ destruct H4 as (u2 & tr9 & -> & -> & Hw). injection Hw as ->.
              right. right. split; [exact Hk|]. split; [|eauto].
              trace_eq.
      * simpl in H6. destruct H6 as [-> Hb]. injection Hb as ->.
        simpl in H4. destruct H4 as (u & tr7 & -> & _ & Hw). discriminate.
    + unfold script_body in H3. apply runs_to_bind in H3.
      destruct H3 as [(ok & tr5 & tr6 & -> & H5 & H6)|(e'' & H5 & _)];
        apply check_table_spec in H5;
        destruct H5 as (cur & checks & ok' & -> & Hok & Hchecks); [|discriminate].
      injection Hok as <-. destruct ok.
      * apply run_tests_spec in H6. destruct H6 as (? & ? & ? & ? & _ & Hb & _).
        discriminate.
      * simpl in H6. destruct H6 as [_ Hb]. discriminate.
Qed.


(** X19.  Let the tests have different names and let a run of the script
    reach its last line.  Then every row of the summary was printed, and the
    summary covers the first [k] tests, in their order.  Either [k] is the
    number of tests and [db_connection] committed (rolling back when the
    commit raised); or [k] is smaller and the run ends with the rollback and
    the close of [db_connection], without its commit: the way it takes when
    the body raises a [psycopg2.Error], which the [with] statement then
    suppresses.  The tests from [k + 1] on are not in the summary. *)
Theorem script_skips_tests_after_store_error (queries : list (string * config))
  tr (all : all_results) :
  List.NoDup (map fst queries) ->
  runs_to script_ev (main queries) tr (Returned (all, GoesOn)) ->
  summary all = Ret tt
  /\ exists k c pre,
       map fst all = firstn k (map fst queries)
       /\ ((k = length queries
            /\ (tr = pre ++ [ev_commit c None; EvConnClose c]
                \/ exists e, tr = pre ++ [ev_commit c (Some e); ev_rollback c;
                                          EvConnClose c]))
           \/ (k < length queries
               /\ tr = pre ++ [ev_rollback c; EvConnClose c])).
Proof.
  intros Hnd H. apply main_runs in H.
  destruct H as [(e & _ & H)|[(c & cur & e & _ & H)|
                 (c & cur & tr0 & all' & k & Hkeys & H)]]; try discriminate.
  cbn zeta in H. specialize (Hkeys Hnd).
  assert (Hafter : forall P : Prop, after_summary all' (Returned (all, GoesOn)) ->
                     (all' = all -> summary all = Ret tt -> P) -> P).
  { intros P [[Hs Ha]|(e & _ & Ha & _)] HP; [|discriminate].
    injection Ha as ->. exact (HP eq_refl Hs). }
  destruct H as [(Hk & Htr & Ha)|[(Hk & Htr & Ha)|(_ & _ & e & Ha & _)]];
    [| |discriminate]; apply (Hafter _ Ha); intros -> Hs; (split; [exact Hs|]);
    exists k, c, (EvPgConnect (inr c) :: table_checked c cur ++ map EvIndex tr0);
    (split; [exact Hkeys|]).
  - left. split; [exact Hk|]. exact Htr.
  - right. split; [exact Hk|]. exact Htr.
Qed.

End Script.

Arguments EvIndex {time} e.
Arguments EvPgConnect {time} r.
Arguments EvFetchone {time} cur r.
Arguments EvDbRollback {time} c.
Arguments EvConnClose {time} c.
Arguments table_checked {time} c cur.
Arguments ev_commit {time} c r.
Arguments ev_rollback {time} c.
Arguments is_conn_event {time} e.

(** Two tests; the first commit of the first raises. *)
Definition two_tests : list (string * config) :=
  [("exact_match_postal", mkConfig a_query (Some a_cleanup) None (Some an_index));
   ("range_scan_value",
    mkConfig "SELECT COUNT(*) FROM mutations_foncieres WHERE valeur_fonciere BETWEEN 100000 AND 150000;"
             (Some "DROP INDEX IF EXISTS idx_btree_valeur_fonciere;") None
             (Some "CREATE INDEX idx_btree_valeur_fonciere ON mutations_foncieres USING btree (valeur_fonciere);"))].

Definition the_script : prog (scriptE Z) (all_results Z * ending) :=
  main ms_between_Z (fun _ => None) (fun _ => None) fdiv_Z two_tests.

Definition run_commit_fails : list (script_event Z) :=
  EvPgConnect (inr 1)
  :: table_checked 1 7
  ++ map EvIndex (sent_ok a_cleanup 0)
  ++ [ev_commit 1 (Some OperationalError); ev_rollback 1; EvConnClose 1].

Lemma runs_to_commit_fails :
  runs_to (@script_ev Z) the_script run_commit_fails (Returned ([], GoesOn)).
Proof.
  unfold the_script, main, db_connection, script_body, check_table, two_tests,
    run_tests, run_index_test, run_query, execute_query.
  answer_calls.
Qed.


Lemma script_skips_tests_after_store_error_witness :
  List.NoDup (map fst two_tests)
  /\ exists k c pre,
       map fst (@nil (string * option (results Z))) = firstn k (map fst two_tests)
       /\ ((k = length two_tests
            /\ (run_commit_fails = pre ++ [ev_commit c None; EvConnClose c]
                \/ exists e, run_commit_fails
                             = pre ++ [ev_commit c (Some e); ev_rollback c;
                                       EvConnClose c]))
           \/ (k < length two_tests
               /\ run_commit_fails = pre ++ [ev_rollback c; EvConnClose c])).
Proof.
  assert (Hnd : List.NoDup (map fst two_tests)).
  { simpl. repeat constructor; simpl; intros H;
      repeat (destruct H as [H|H]; [discriminate H|]); exact H. }
  split; [exact Hnd|].
  exact (proj2 (script_skips_tests_after_store_error Hnd runs_to_commit_fails)).
Defined.

End IndexRun.
